(* ===== verification/_CoqProject ===== *)
-Q . S2P
Prelude.v
JsNumber.v
JsString.v
NumParse.v
Tolerance.v
Transform.v
Sampler.v
Generator.v
Canvas.v
Graph.v
Session.v
Shell.v
