(* ===== verification/Prelude.v ===== *)
(** * A verification development for the Vector Practice app (src/app.js)

    The program is one browser script, [src/app.js], an immediately invoked
    function that builds a 2D vector quiz: it samples random points and
    vectors, asks for a terminal or an initial point, checks the typed (or
    clicked) answer under an absolute tolerance and draws the problem on a
    canvas.  Its parts, leaves first, and the file of this library that models
    each of them:

    - [Prelude] (this file): the shared vocabulary.  The random source
      ([Math.random]) as an explicit stream of draws threaded through a small
      state monad [Rnd] with its notation in [rnd_scope]; generic lemmas on
      [Q] (floor, ceiling, absolute value); the hint database [vp] and the
      tactics [qlra] and [rnd_simpl] used by the other files.
    - [JsNumber]: the ECMAScript number operations the script calls
      ([+ - * /], [Math.floor/ceil/round/abs/max/min/hypot], [Number.isNaN],
      [<=], the truthiness used by [||], and [Number(x.toFixed(d))]).  A JS
      number is modelled as an extended exact rational: [Fin q], [NaN],
      [PInf], [NInf].  Arithmetic on finite values is exact; the special
      values follow IEEE 754 (0/0 is NaN, x/0 is an infinity, Inf - Inf is
      NaN, NaN compares false).  Equality of models is the setoid [≡]
      (rationals are not canonical), with [Proper] instances for every
      operation.
    - [Tolerance]: [nearlyEqual] and [pairEqual] (app.js 48-55): the
      ToleranceComparator of the spec.
    - [Sampler]: [rand.int], [rand.float], [choice], [difficultyRanges],
      [rndNum] (app.js 21-46): the NumericSampler, in the [Rnd] monad.
    - [Transform]: the bounds and the two coordinate maps [worldToScreen],
      [screenToWorld] of [Graph.create] (app.js 73-90): the
      CoordinateTransform, with an abstract affine specification.
    - [Generator]: the question record, [fmtPoint]/[fmtVector], the two
      generators and their registry [generators] (app.js 31-32, 171-200),
      with the number-to-string conversion the template literals perform
      ([JsString.to_string], ECMAScript's [Number::toString]).
    - [NumParse]: ECMAScript's [parseFloat], which [getUserAnswer] (app.js
      266-276) applies to the answer fields: leading white space, the
      longest [StrDecimalLiteral] prefix, NaN when there is none.
    - [Canvas]: the browser's 2D context, the rendering-surface boundary of
      spec 6 (platform API, not repository code): the drawing state with
      its [save]/[restore] stack, the current path, and a log of what has
      been painted; assigning [canvas.width] resets it.
    - [Graph]: [Graph.create] (app.js 58-169): a record of the canvas
      element, the context and the mutable [bounds], and one function per
      closure function ([resize], [setBounds], [clear], [pickStep],
      [drawGrid], [drawPoint], [drawArrow], [renderScene]); the context
      calls of each are a list of [Ctx -> Ctx] run by [Canvas.seq].  The
      GraphRenderer and the rest of the CoordinateTransform.
    - [Session]: the page (app.js 202-370), the QuizSession of the spec
      with the DOM values of the UiShell: a record of the [state] object
      and of the texts and answer fields, one function per handler
      ([nextQuestion] in the [Rnd] monad, [checkAnswer], [revealSolution],
      the canvas click listener, [drawQuestionGraph], [initGraph], the
      unused [expandBounds]), the events of the wiring as a step relation
      [step], and [run], the pages reachable from [boot] with the sequence
      of grading results.  Session assumes every element is there.
    - [Shell]: the UiShell around the session: the document as a list of
      elements, [$]/[$$] and the lookups of [els] (app.js 4-19), and the
      script statement by statement in a monad [Script] of state (the page
      and the listeners registered) and uncaught exceptions: each handler
      ([nextQuestion_dom], [checkAnswer_dom], ...), the loading script
      [main] (listener registration, [updateScoreboard()], [initGraph()]),
      [dispatch] of an event to its listener, and [reach], the states a
      document reaches.  A [null] element throws a [TypeError] at the
      statement that uses it, and what was assigned before stays.

    How they interact: a [nextQuestion] event draws a key with [choice],
    looks its generator up in [generators], builds a question, resets the
    fields ([buildInputs]) and renders the question's scene through
    [Graph.renderScene], which maps world points with [worldToScreen];
    a click maps the pixel back with [screenToWorld], snaps it to halves
    and writes it into the fields with [to_string]; a submission reads the
    fields with [parseFloat] and grades them with [pairEqual].

    What the theorems show (grouped as in the manifest):
    - tolerance: [nearlyEqual] is exactly [|a-b| <= tol] on finite values,
      false on NaN, symmetric, and reflexive precisely on finite values;
    - sampling: [rand.int] returns an integer of [[min,max]] and each value
      has a preimage of width [1/(max-min+1)] in [[0,1)] (uniformity);
      [choice] returns an element of a non-empty list; inverted ranges are
      not rejected (a finding);
    - transform: on non-degenerate bounds and a positive canvas the two maps
      are mutually inverse, orientation-preserving in x and reversing in y,
      and refine an affine specification; the corners of the world map to
      the corners of the canvas; degenerate bounds give non-finite screen
      coordinates (the code does not fail fast: a finding);
    - generation: on the medium range the answer is exactly [P + v]
      (resp. [Q - v]): the [toFixed(3)] rounding never changes it; the
      round-trip law [Q = answer + v] holds, and the
      drawing of the inverse question reveals the answer only in degenerate
      coincidences;
    - rendering: on finite bounds the
      two [for] loops of [drawGrid] terminate and draw exactly the
      multiples of the step in the bounds (they diverge on an infinite
      bound); [renderScene] paints exactly a declarative picture (clear,
      grid, axes, then the items in order) and leaves the context's state
      and stack as it found them; arrows never paint NaN thanks to the
      [|| 1] guard; [resize] is idempotent on a laid-out canvas, wipes the
      bitmap, and multiplies a hidden canvas by the device pixel ratio on
      every call (a finding);
    - number text: [parseFloat (to_string x)] is [x] for every value with a
      terminating decimal expansion (all layouts, both signs);
    - session: the scoreboard refines an abstract one computed from the
      sequence of grading results (so [0 <= streak <= correct <= total]
      on every run); the fields present always match the shown question's
      shape and every shown question is well formed (finite pair answer,
      finite drawing); [nextQuestion] always completes on draws of [[0,1)]; clicking
      the pixel of a half-integer answer enters an answer that is accepted;
      an empty or missing field is graded wrong and resets the streak;
      [expandBounds] frames points within [[-30, 30]] but gives inverted
      bounds for every cluster of points far enough right (dead code; a
      finding);
    - shell: for a document with every element, each listener computes
      exactly the Session handler and every reachable state is a state of
      a Session run with the full wiring, so the session theorems hold of
      the script; without [#score] the loading script throws before
      [initGraph()] and the page never gets a graph; without [#feedback]
      answers are counted but the scoreboard stays at [Score: 0/0] (two
      findings).

    Bounds and approximations.  Numbers are exact rationals: the rounding of
    binary64 arithmetic is not modelled, nor are overflow to infinity and the
    sign of zero.  [Math.hypot] is computed to 64 binary digits after the
    point (a floor square root), enough for the arrow-head geometry, which
    only needs a positive length.  [Math.random] is an arbitrary stream of
    rationals; theorems assume each draw lies in [[0,1)], which is what the
    ECMAScript specification promises.  The grid loops run on fuel: the
    span of the bounds divided by the step, rounded up, plus two, which the
    adequacy lemma [grid_fuel_enough] of Graph shows is enough; [None] stands
    for a loop that does not exit, which only infinite bounds produce.
    [Math.PI] is the binary64 value of pi, an exact dyadic rational.

    Decimal literals of the source (0.01, 0.2) are taken at their decimal
    value.  [parseFloat] recognises the ASCII white space characters only.
    The counters are unbounded integers (they would lose precision only
    beyond 2^53 answers).

    Only id selectors are given a meaning in [$] and [$$] (the script uses
    no other).  The page markup is not part of the repository: every
    document is allowed, and the theorems of Shell say which documents
    they are about.

    Not modelled: the HTML [buildInputs] writes beyond which inputs exist
    and their values, CSS, [e.preventDefault()] in the keydown listener
    (it only stops the browser's own form submission), the console report
    of an uncaught exception; the browser's
    sanitising of [type=number] inputs (any string is a possible value,
    which only strengthens the theorems); the [easy]/[hard] ranges are
    modelled but unreachable since the difficulty is fixed to [medium]. *)

From Stdlib Require Export QArith Qround Qabs Qpower Lqa Psatz ZArith Lia String.
From stdpp Require Export base list gmap strings.

Declare Scope rnd_scope.
Delimit Scope rnd_scope with rnd.

Create HintDb vp.
Create Rewrite HintDb vp_rw.

(** ** The random source

    [Math.random()] is the program's only source of randomness.  A run sees
    it as a stream of draws; a computation that draws is a state
    transformer on the remaining stream. *)

Definition stream := nat -> Q.

Definition stream_tail (s : stream) : stream := fun n => s (S n).

(** The draws promised by ECMAScript: every value in [[0,1)]. *)
Definition unit_stream (s : stream) : Prop := forall n, (0 <= s n < 1)%Q.

Definition Rnd (A : Type) : Type := stream -> A * stream.

Definition rret {A} (x : A) : Rnd A := fun s => (x, s).

Definition rbind {A B} (m : Rnd A) (k : A -> Rnd B) : Rnd B :=
  fun s => let '(a, s') := m s in k a s'.

Notation "x <- m ;; k" := (rbind m (fun x => k))
  (at level 100, m at next level, right associativity) : rnd_scope.

(** One call of [Math.random()]. *)
Definition draw : Rnd Q := fun s => (s O, stream_tail s).

(** [skip n s] is [s] after [n] draws. *)
Fixpoint skip (n : nat) (s : stream) : stream :=
  match n with O => s | S k => skip k (stream_tail s) end.

Lemma unit_stream_tail s : unit_stream s -> unit_stream (stream_tail s).
Proof. intros H n. apply H. Qed.

Lemma unit_stream_skip n s : unit_stream s -> unit_stream (skip n s).
Proof. revert s; induction n; intros s H; simpl; auto using unit_stream_tail. Qed.

Lemma skip_apply n s k : skip n s k = s (n + k)%nat.
Proof. revert s; induction n; intros s; simpl; [reflexivity|]. apply IHn. Qed.

#[export] Hint Resolve unit_stream_tail unit_stream_skip : vp.

(** ** Generic lemmas on rationals *)

Local Open Scope Q_scope.

Lemma Qfloor_spec x : inject_Z (Qfloor x) <= x < inject_Z (Qfloor x) + 1.
Proof.
  split; [apply Qfloor_le|]. pose proof (Qlt_floor x) as H.
  rewrite inject_Z_plus in H. exact H.
Qed.

Lemma Qfloor_unique (z : Z) x : inject_Z z <= x < inject_Z z + 1 -> Qfloor x = z.
Proof.
  intros [H1 H2]. pose proof (Qfloor_spec x) as [H3 H4].
  assert (A : inject_Z z < inject_Z (Qfloor x) + 1) by lra.
  assert (B : inject_Z (Qfloor x) < inject_Z z + 1) by lra.
  change 1 with (inject_Z 1) in A, B.
  rewrite <- inject_Z_plus, <- Zlt_Qlt in A, B. lia.
Qed.

Lemma inject_Z_minus (a b : Z) : inject_Z (a - b) = inject_Z a - inject_Z b.
Proof. unfold Z.sub, Qminus. rewrite inject_Z_plus, inject_Z_opp. reflexivity. Qed.

Lemma Qceiling_spec x : inject_Z (Qceiling x) - 1 < x <= inject_Z (Qceiling x).
Proof.
  split; [|apply Qle_ceiling]. pose proof (Qceiling_lt x) as H.
  rewrite inject_Z_minus in H. exact H.
Qed.

Lemma Qfloor_inject_Z (z : Z) : Qfloor (inject_Z z) = z.
Proof. apply Qfloor_Z. Qed.

Lemma Qabs_le_iff a t : Qabs a <= t <-> - t <= a /\ a <= t.
Proof.
  split.
  - intros H. split; [|apply Qle_trans with (Qabs a); [apply Qle_Qabs|exact H]].
    pose proof (Qabs_opp a) as E. pose proof (Qle_Qabs (- a)) as L. rewrite E in L. lra.
  - intros [H1 H2]. apply Qabs_case; intros; lra.
Qed.

Lemma Qabs_sub_diag q : Qabs (q - q) == 0.
Proof. apply (Qabs_case (q - q) (fun y => y == 0)); intros; ring. Qed.

(** A value [t] of [[0,d]] scaled by [w/d] lands in [[0,w]], and only
    such values do. *)
Lemma Qscale_range t d w : 0 < d -> 0 < w -> (0 <= t / d * w <= w <-> 0 <= t <= d).
Proof.
  intros Hd Hw.
  assert (E : t / d * w == t * (w / d)) by (field; intro; lra).
  assert (Hk : 0 < w / d) by (apply Qlt_shift_div_l; lra).
  assert (Ew : w == d * (w / d)) by (field; intro; lra).
  rewrite E. revert Hk Ew. generalize (w / d). intros k Hk Ew.
  split; intros [H1 H2]; split; nra.
Qed.

(** Strict comparison as a boolean. *)
Definition Qltb (a b : Q) : bool := negb (Qle_bool b a).

Lemma Qltb_iff a b : Qltb a b = true <-> a < b.
Proof.
  unfold Qltb. rewrite negb_true_iff. split.
  - intros H. apply Qnot_le_lt. intros H'. apply Qle_bool_iff in H'. congruence.
  - intros H. destruct (Qle_bool b a) eqn:E; [|reflexivity].
    apply Qle_bool_iff in E. lra.
Qed.

Lemma inject_Z_le (a b : Z) : (a <= b)%Z <-> inject_Z a <= inject_Z b.
Proof. rewrite Zle_Qle. reflexivity. Qed.

Lemma inject_Z_lt (a b : Z) : (a < b)%Z <-> inject_Z a < inject_Z b.
Proof. rewrite Zlt_Qlt. reflexivity. Qed.

#[export] Hint Resolve Qfloor_spec Qceiling_spec : vp.
Lemma Qabs_inject_Z (z : Z) : Qabs (inject_Z z) = inject_Z (Z.abs z).
Proof. reflexivity. Qed.

Lemma inject_Z_0 : inject_Z 0 = 0.
Proof. reflexivity. Qed.

Lemma inject_Z_1 : inject_Z 1 = 1.
Proof. reflexivity. Qed.

#[export] Hint Rewrite inject_Z_plus inject_Z_minus inject_Z_mult inject_Z_opp
  inject_Z_0 inject_Z_1 : vp_rw.

(** [qlra] closes linear goals over [Q] after pushing [inject_Z] through
    the ring operations. *)
Ltac qlra := autorewrite with vp_rw in *; lra.

(** [rnd_simpl] runs a computation in [Rnd] on a symbolic stream. *)
Ltac rnd_simpl := cbv [rbind rret draw stream_tail] in *; simpl in *.

(** [k·s <= h] exactly when [k <= floor(h/s)], for a positive [s]. *)
Lemma Qmult_le_floor (k : Z) s h : 0 < s -> (inject_Z k * s <= h <-> (k <= Qfloor (h / s))%Z).
Proof.
  intros Hs. pose proof (Qfloor_spec (h / s)) as [F1 F2].
  assert (E : inject_Z k * s <= h <-> inject_Z k <= h / s).
  { split; intros H.
    - apply Qle_shift_div_l; assumption.
    - assert (H' : inject_Z k * s <= h / s * s) by (apply Qmult_le_compat_r; lra).
      assert (h / s * s == h) by (field; intro; lra). lra. }
  rewrite E. split; intros H.
  - assert (L : inject_Z k < inject_Z (Qfloor (h / s) + 1)) by qlra.
    apply inject_Z_lt in L. lia.
  - apply inject_Z_le in H. lra.
Qed.
