(* ===== verification/JsNumber.v ===== *)
(** * JsNumber: the ECMAScript number operations used by src/app.js

    A JS number is an extended exact rational: [Fin q] for a finite value,
    [NaN], [PInf] and [NInf].  Finite arithmetic is exact (no binary64
    rounding, no overflow, no signed zero); the special values follow the
    IEEE 754 rules that ECMAScript adopts.  The setoid [≡] identifies finite
    values that are equal as rationals; every operation is [Proper] for it. *)

From S2P Require Import Prelude.

Local Open Scope Q_scope.

Inductive num : Type :=
| Fin (q : Q)
| NaN
| PInf
| NInf.

Declare Scope js_scope.
Delimit Scope js_scope with js.
Bind Scope js_scope with num.

(** ** Operations *)

Definition inf_of_sign (c : comparison) : num :=
  match c with Gt => PInf | Lt => NInf | Eq => NaN end.

(** Unary minus. *)
Definition n_opp (x : num) : num :=
  match x with Fin q => Fin (- q) | NaN => NaN | PInf => NInf | NInf => PInf end.

(** [x + y]. *)
Definition n_add (x y : num) : num :=
  match x, y with
  | Fin a, Fin b => Fin (a + b)
  | NaN, _ | _, NaN => NaN
  | PInf, NInf | NInf, PInf => NaN
  | PInf, _ | _, PInf => PInf
  | NInf, _ | _, NInf => NInf
  end.

(** [x - y] is [x + (-y)] in IEEE 754. *)
Definition n_sub (x y : num) : num := n_add x (n_opp y).

(** [x * y]: an infinity times zero is NaN. *)
Definition n_mul (x y : num) : num :=
  match x, y with
  | Fin a, Fin b => Fin (a * b)
  | NaN, _ | _, NaN => NaN
  | Fin a, PInf | PInf, Fin a => inf_of_sign (a ?= 0)
  | Fin a, NInf | NInf, Fin a => inf_of_sign (CompOpp (a ?= 0))
  | PInf, PInf | NInf, NInf => PInf
  | PInf, NInf | NInf, PInf => NInf
  end.

(** [x / y]: a finite non-zero over zero is an infinity of its sign, 0/0
    is NaN (the zero divisors of the program are [+0], results of [x - x]). *)
Definition n_div (x y : num) : num :=
  match x, y with
  | Fin a, Fin b => if Qeq_bool b 0 then inf_of_sign (a ?= 0) else Fin (a / b)
  | NaN, _ | _, NaN => NaN
  | Fin _, PInf | Fin _, NInf => Fin 0
  | PInf, Fin b => match b ?= 0 with Lt => NInf | _ => PInf end
  | NInf, Fin b => match b ?= 0 with Lt => PInf | _ => NInf end
  | _, _ => NaN
  end.

Definition n_lift (f : Q -> Q) (x : num) : num :=
  match x with Fin q => Fin (f q) | y => y end.

(** [Math.floor], [Math.ceil], [Math.round] (ties toward +Infinity). *)
Definition n_floor : num -> num := n_lift (fun q => inject_Z (Qfloor q)).
Definition n_ceil : num -> num := n_lift (fun q => inject_Z (Qceiling q)).
Definition n_round : num -> num := n_lift (fun q => inject_Z (Qfloor (q + (1 # 2)))).

(** [Math.abs]. *)
Definition n_abs (x : num) : num :=
  match x with Fin q => Fin (Qabs q) | NaN => NaN | _ => PInf end.

(** [Number.isNaN]. *)
Definition isNaN (x : num) : bool := match x with NaN => true | _ => false end.

Definition is_finite (x : num) : bool := match x with Fin _ => true | _ => false end.

(** [x <= y]: false as soon as one side is NaN. *)
Definition n_le (x y : num) : bool :=
  match x, y with
  | Fin a, Fin b => Qle_bool a b
  | NaN, _ | _, NaN => false
  | NInf, _ | _, PInf => true
  | _, _ => false
  end.

(** [x < y]. *)
Definition n_lt (x y : num) : bool :=
  match x, y with
  | NaN, _ | _, NaN => false
  | _, _ => negb (n_le y x)
  end.

(** [Math.max(x, y)] and [Math.min(x, y)]. *)
Definition n_max (x y : num) : num :=
  if isNaN x || isNaN y then NaN else if n_le x y then y else x.
Definition n_min (x y : num) : num :=
  if isNaN x || isNaN y then NaN else if n_le x y then x else y.

(** [Math.max(...xs)] and [Math.min(...xs)]: [-Infinity] (resp.
    [Infinity]) on no argument. *)
Definition n_max_list (xs : list num) : num := fold_left n_max xs NInf.
Definition n_min_list (xs : list num) : num := fold_left n_min xs PInf.

(** ToBoolean: [0] and [NaN] are falsy; [x || y] returns [x] when truthy. *)
Definition truthy (x : num) : bool :=
  match x with Fin q => negb (Qeq_bool q 0) | NaN => false | _ => true end.
Definition n_or (x y : num) : num := if truthy x then x else y.

(** [Number(x.toFixed(d))] (equivalently [parseFloat] of it): below
    [10^21] in magnitude, the integer [n] nearest to [|x|·10^d], ties to the
    larger [n], with the sign of [x], over [10^d]; at or above [10^21]
    [toFixed] prints [ToString(x)], which reads back as [x].  Infinities and
    NaN print as themselves. *)
Definition round_half_away (q : Q) : Z :=
  if Qle_bool 0 q then Qfloor (q + (1 # 2)) else (- Qfloor (- q + (1 # 2)))%Z.

Definition pow10 (d : nat) : Q := inject_Z (10 ^ Z.of_nat d).

Definition to_fixed (d : nat) (x : num) : num :=
  match x with
  | Fin q =>
      if Qle_bool (inject_Z (10 ^ 21)) (Qabs q) then Fin q
      else Fin (inject_Z (round_half_away (q * pow10 d)) / pow10 d)
  | y => y
  end.

(** [Math.hypot(x, y)]: the square root is a floor square root carried to
    [hypot_bits] binary digits after the point, of the reduced fraction. *)
Definition hypot_bits : Z := 64.

Definition qsqrt (q : Q) : Q :=
  let r := Qred q in
  Z.sqrt (Qnum r * Zpos (Qden r) * 2 ^ (2 * hypot_bits)) #
    (Qden r * Z.to_pos (2 ^ hypot_bits)).

Definition hypot (x y : num) : num :=
  match x, y with
  | PInf, _ | NInf, _ | _, PInf | _, NInf => PInf
  | NaN, _ | _, NaN => NaN
  | Fin a, Fin b => Fin (qsqrt (a * a + b * b))
  end.

Infix "+" := n_add : js_scope.
Infix "-" := n_sub : js_scope.
Infix "*" := n_mul : js_scope.
Infix "/" := n_div : js_scope.
Notation "- x" := (n_opp x) : js_scope.
Infix "<=?" := n_le : js_scope.
Infix "<?" := n_lt : js_scope.
Infix "||" := n_or : js_scope.

(** ** The setoid of models *)

Definition num_eq (x y : num) : Prop :=
  match x, y with
  | Fin a, Fin b => a == b
  | NaN, NaN | PInf, PInf | NInf, NInf => True
  | _, _ => False
  end.

#[export] Instance num_equiv : Equiv num := num_eq.

#[export] Instance num_equivalence : Equivalence (≡@{num}).
Proof.
  unfold equiv, num_equiv. split.
  - intros [q| | |]; cbn [num_eq]; try exact I. reflexivity.
  - intros [a| | |] [b| | |]; cbn [num_eq]; try tauto. intros H. symmetry. exact H.
  - intros [a| | |] [b| | |] [c| | |]; cbn [num_eq]; try tauto.
    intros H1 H2. rewrite H1. exact H2.
Qed.

Lemma Fin_equiv a b : Fin a ≡ Fin b <-> a == b.
Proof. reflexivity. Qed.

#[export] Instance Fin_proper : Proper (Qeq ==> (≡)) Fin.
Proof. intros a b H. exact H. Qed.

(** Case analysis on every [num] in the context, with the finite cases
    unfolded to rational goals. *)
Ltac num_cases :=
  repeat match goal with x : num |- _ => destruct x end;
  cbn [num_equiv num_eq n_add n_sub n_opp n_mul n_div n_le n_lt n_abs n_lift
       n_floor n_ceil n_round isNaN truthy n_or n_max n_min inf_of_sign hypot
       to_fixed is_finite equiv] in *;
  try tauto; try discriminate.

Lemma Qcompare_eqv a b : a == b -> (a ?= 0) = (b ?= 0).
Proof. intros H. rewrite H. reflexivity. Qed.

Lemma Qeq_bool_eqv a b c : a == b -> Qeq_bool a c = Qeq_bool b c.
Proof.
  intros H. destruct (Qeq_bool a c) eqn:E1, (Qeq_bool b c) eqn:E2; try reflexivity;
  apply Qeq_bool_iff in E1 || apply Qeq_bool_iff in E2;
  [apply Qeq_bool_neq in E2 | apply Qeq_bool_neq in E1]; exfalso;
  [apply E2; rewrite <- H | apply E1; rewrite H]; assumption.
Qed.

Lemma Qle_bool_eqv a b c d : a == b -> c == d -> Qle_bool a c = Qle_bool b d.
Proof.
  intros H1 H2. apply eq_true_iff_eq. rewrite !Qle_bool_iff, H1, H2. reflexivity.
Qed.

Lemma inf_of_sign_eqv a b : a == b -> inf_of_sign (a ?= 0) ≡ inf_of_sign (b ?= 0).
Proof. intros H. rewrite (Qcompare_eqv a b H). reflexivity. Qed.

#[export] Hint Resolve Qcompare_eqv Qeq_bool_eqv Qle_bool_eqv inf_of_sign_eqv : vp.

#[export] Instance n_opp_proper : Proper ((≡) ==> (≡)) n_opp.
Proof. intros x y H; num_cases. rewrite H. reflexivity. Qed.

#[export] Instance n_add_proper : Proper ((≡) ==> (≡) ==> (≡)) n_add.
Proof. intros x x' Hx y y' Hy; num_cases. rewrite Hx, Hy. reflexivity. Qed.

#[export] Instance n_sub_proper : Proper ((≡) ==> (≡) ==> (≡)) n_sub.
Proof. intros x x' Hx y y' Hy. unfold n_sub. rewrite Hx, Hy. reflexivity. Qed.

#[export] Instance n_mul_proper : Proper ((≡) ==> (≡) ==> (≡)) n_mul.
Proof.
  intros x x' Hx y y' Hy; num_cases;
    try (rewrite (Qcompare_eqv _ _ Hx) || rewrite (Qcompare_eqv _ _ Hy); reflexivity).
  rewrite Hx, Hy. reflexivity.
Qed.

#[export] Instance n_div_proper : Proper ((≡) ==> (≡) ==> (≡)) n_div.
Proof.
  intros x x' Hx y y' Hy; num_cases;
    try (rewrite (Qcompare_eqv _ _ Hy); reflexivity); try reflexivity.
  rewrite (Qeq_bool_eqv _ _ 0 Hy), (Qcompare_eqv _ _ Hx).
  match goal with |- context [Qeq_bool ?b 0] => destruct (Qeq_bool b 0) end;
    [reflexivity|]. cbn [num_eq]. rewrite Hx, Hy. reflexivity.
Qed.

#[export] Instance n_lift_proper f :
  Proper (Qeq ==> Qeq) f -> Proper ((≡) ==> (≡)) (n_lift f).
Proof. intros Hf x y H; num_cases. apply Hf. exact H. Qed.

#[export] Instance n_floor_proper : Proper ((≡) ==> (≡)) n_floor.
Proof. apply n_lift_proper. intros a b H. rewrite H. reflexivity. Qed.

#[export] Instance n_ceil_proper : Proper ((≡) ==> (≡)) n_ceil.
Proof. apply n_lift_proper. intros a b H. rewrite H. reflexivity. Qed.

#[export] Instance n_round_proper : Proper ((≡) ==> (≡)) n_round.
Proof. apply n_lift_proper. intros a b H. rewrite H. reflexivity. Qed.

#[export] Instance n_abs_proper : Proper ((≡) ==> (≡)) n_abs.
Proof. intros x y H; num_cases. rewrite H. reflexivity. Qed.

#[export] Instance isNaN_proper : Proper ((≡) ==> eq) isNaN.
Proof. intros x y H; num_cases; reflexivity. Qed.

#[export] Instance is_finite_proper : Proper ((≡) ==> eq) is_finite.
Proof. intros x y H; num_cases; reflexivity. Qed.

#[export] Instance n_le_proper : Proper ((≡) ==> (≡) ==> eq) n_le.
Proof. intros x x' Hx y y' Hy; num_cases; auto with vp. Qed.

#[export] Instance n_lt_proper : Proper ((≡) ==> (≡) ==> eq) n_lt.
Proof. intros x x' Hx y y' Hy; num_cases; rewrite (Qle_bool_eqv _ _ _ _ Hy Hx); reflexivity. Qed.

#[export] Instance truthy_proper : Proper ((≡) ==> eq) truthy.
Proof. intros x y H; num_cases; rewrite (Qeq_bool_eqv _ _ 0 H); reflexivity. Qed.

#[export] Instance n_or_proper : Proper ((≡) ==> (≡) ==> (≡)) n_or.
Proof.
  intros x x' Hx y y' Hy. unfold n_or. rewrite (truthy_proper _ _ Hx).
  destruct (truthy x'); assumption.
Qed.

#[export] Instance n_max_proper : Proper ((≡) ==> (≡) ==> (≡)) n_max.
Proof.
  intros x x' Hx y y' Hy. unfold n_max.
  rewrite (isNaN_proper _ _ Hx), (isNaN_proper _ _ Hy), (n_le_proper _ _ Hx _ _ Hy).
  destruct (isNaN x' || isNaN y'); [reflexivity|]. destruct (n_le x' y'); assumption.
Qed.

#[export] Instance n_min_proper : Proper ((≡) ==> (≡) ==> (≡)) n_min.
Proof.
  intros x x' Hx y y' Hy. unfold n_min.
  rewrite (isNaN_proper _ _ Hx), (isNaN_proper _ _ Hy), (n_le_proper _ _ Hx _ _ Hy).
  destruct (isNaN x' || isNaN y'); [reflexivity|]. destruct (n_le x' y'); assumption.
Qed.

(** ** Computation rules on finite values *)

Lemma n_add_Fin a b : n_add (Fin a) (Fin b) = Fin (a + b).
Proof. reflexivity. Qed.

Lemma n_sub_Fin a b : n_sub (Fin a) (Fin b) = Fin (a - b).
Proof. reflexivity. Qed.

Lemma n_mul_Fin a b : n_mul (Fin a) (Fin b) = Fin (a * b).
Proof. reflexivity. Qed.

Lemma n_div_Fin a b : ~ b == 0 -> n_div (Fin a) (Fin b) = Fin (a / b).
Proof.
  intros H. unfold n_div. destruct (Qeq_bool b 0) eqn:E; [|reflexivity].
  apply Qeq_bool_iff in E. contradiction.
Qed.

Lemma n_le_Fin a b : n_le (Fin a) (Fin b) = true <-> a <= b.
Proof. apply Qle_bool_iff. Qed.

Create Rewrite HintDb js_rw.
#[export] Hint Rewrite n_add_Fin n_sub_Fin n_mul_Fin : js_rw.

(** [js_simpl] pushes the arithmetic of the program into [Q]; the divisions
    need their non-zero side condition, discharged by [lra] from the
    context. *)
Ltac js_simpl :=
  repeat first
    [ progress autorewrite with js_rw
    | match goal with
      | |- context [n_div (Fin ?a) (Fin ?b)] => rewrite (n_div_Fin a b) by (intro; lra)
      end ].

(** ** Propagation of non-finite values *)

Lemma inf_of_sign_nonfinite c : is_finite (inf_of_sign c) = false.
Proof. destruct c; reflexivity. Qed.

Lemma n_div_by_zero a b : b == 0 -> is_finite (n_div (Fin a) (Fin b)) = false.
Proof.
  intros H. unfold n_div. rewrite (proj2 (Qeq_bool_iff b 0) H).
  apply inf_of_sign_nonfinite.
Qed.

Lemma n_mul_nonfinite_l z w : is_finite z = false -> is_finite (n_mul z (Fin w)) = false.
Proof. destruct z; simpl; try discriminate; intros _; try apply inf_of_sign_nonfinite; reflexivity. Qed.

Lemma n_sub_nonfinite_r a z : is_finite z = false -> is_finite (n_sub (Fin a) z) = false.
Proof. destruct z; simpl; try discriminate; reflexivity. Qed.

#[export] Hint Resolve inf_of_sign_nonfinite n_div_by_zero n_mul_nonfinite_l n_sub_nonfinite_r : vp.

(** ** [toFixed] on values that already have [d] decimals *)

Definition point : Type := num * num.

Lemma pow10_pos d : 0 < pow10 d.
Proof.
  unfold pow10. change 0 with (inject_Z 0). apply (proj1 (inject_Z_lt _ _)).
  apply Z.pow_pos_nonneg; lia.
Qed.

Lemma round_half_away_Z q (z : Z) : q == inject_Z z -> round_half_away q = z.
Proof.
  intros E. unfold round_half_away.
  destruct (Qle_bool 0 q) eqn:B.
  - apply Qfloor_unique. rewrite E. lra.
  - enough (Qfloor (- q + (1 # 2)) = - z)%Z by lia.
    apply Qfloor_unique. rewrite E, inject_Z_opp. lra.
Qed.

(** [Number(x.toFixed(d))] is [x] itself when [x] has at most [d]
    decimals and is below [10^21] in magnitude. *)
Lemma to_fixed_exact d q (z : Z) :
  q * pow10 d == inject_Z z -> Qabs q < inject_Z (10 ^ 21) -> to_fixed d (Fin q) ≡ Fin q.
Proof.
  intros E B. unfold to_fixed.
  destruct (Qle_bool (inject_Z (10 ^ 21)) (Qabs q)) eqn:L.
  - reflexivity.
  - rewrite (round_half_away_Z _ z E). apply Fin_equiv. rewrite <- E.
    pose proof (pow10_pos d). field. intro; lra.
Qed.

Lemma to_fixed_int d (z : Z) :
  (Z.abs z < 10 ^ 21)%Z -> to_fixed d (Fin (inject_Z z)) ≡ Fin (inject_Z z).
Proof.
  intros B. apply (to_fixed_exact d _ (z * 10 ^ Z.of_nat d)).
  - unfold pow10. rewrite inject_Z_mult. reflexivity.
  - rewrite Qabs_inject_Z. apply (proj1 (inject_Z_lt _ _)). exact B.
Qed.

Lemma round_half_away_eqv a b : a == b -> round_half_away a = round_half_away b.
Proof.
  intros H. unfold round_half_away. rewrite (Qle_bool_eqv 0 0 a b) by (reflexivity || assumption).
  rewrite (Qfloor_comp (a + (1 # 2)) (b + (1 # 2))) by (rewrite H; reflexivity).
  rewrite (Qfloor_comp (- a + (1 # 2)) (- b + (1 # 2))) by (rewrite H; reflexivity).
  reflexivity.
Qed.

#[export] Instance to_fixed_proper d : Proper ((≡) ==> (≡)) (to_fixed d).
Proof.
  intros x y H; num_cases. rewrite H.
  destruct (Qle_bool (inject_Z (10 ^ 21)) (Qabs q)); [exact H|].
  rewrite (round_half_away_eqv (q0 * pow10 d) (q * pow10 d)) by (rewrite H; reflexivity).
  reflexivity.
Qed.

(** A sum of two integers below [10^21] survives [toFixed] unchanged. *)
Lemma to_fixed_add_int d x y (a b : Z) :
  x ≡ Fin (inject_Z a) -> y ≡ Fin (inject_Z b) -> (Z.abs (a + b) < 10 ^ 21)%Z ->
  to_fixed d (n_add x y) ≡ n_add x y.
Proof.
  intros -> -> B. rewrite n_add_Fin, <- inject_Z_plus. apply to_fixed_int. exact B.
Qed.

Lemma to_fixed_sub_int d x y (a b : Z) :
  x ≡ Fin (inject_Z a) -> y ≡ Fin (inject_Z b) -> (Z.abs (a - b) < 10 ^ 21)%Z ->
  to_fixed d (n_sub x y) ≡ n_sub x y.
Proof.
  intros -> -> B. rewrite n_sub_Fin, <- inject_Z_minus. apply to_fixed_int. exact B.
Qed.

(** ** [Math.min(...xs)] and [Math.max(...xs)] on finite values *)

Lemma Qle_bool_false a b : Qle_bool a b = false -> b < a.
Proof. intros H. apply Qnot_le_lt. intros C. apply Qle_bool_iff in C. congruence. Qed.

Lemma fold_n_min_Fin l a :
  exists m, fold_left n_min (map Fin l) (Fin a) = Fin m /\ In m (a :: l) /\ m <= a /\ Forall (fun x => m <= x) l.
Proof.
  revert a. induction l as [|b l IH]; intros a; cbn [map fold_left].
  - exists a. split; [reflexivity|]. split; [left; reflexivity|]. split; [apply Qle_refl | constructor].
  - assert (E : n_min (Fin a) (Fin b) = Fin (if Qle_bool a b then a else b))
      by (unfold n_min; cbn; destruct (Qle_bool a b); reflexivity).
    rewrite E. destruct (IH (if Qle_bool a b then a else b)) as (m & Em & Hin & Hle & Hall).
    exists m. rewrite Em. destruct (Qle_bool a b) eqn:C; [apply Qle_bool_iff in C | apply Qle_bool_false in C];
      destruct Hin as [<- | Hin]; repeat split; simpl; auto; try lra; constructor; auto; lra.
Qed.

Lemma fold_n_max_Fin l a :
  exists m, fold_left n_max (map Fin l) (Fin a) = Fin m /\ In m (a :: l) /\ a <= m /\ Forall (fun x => x <= m) l.
Proof.
  revert a. induction l as [|b l IH]; intros a; cbn [map fold_left].
  - exists a. split; [reflexivity|]. split; [left; reflexivity|]. split; [apply Qle_refl | constructor].
  - assert (E : n_max (Fin a) (Fin b) = Fin (if Qle_bool a b then b else a))
      by (unfold n_max; cbn; destruct (Qle_bool a b); reflexivity).
    rewrite E. destruct (IH (if Qle_bool a b then b else a)) as (m & Em & Hin & Hle & Hall).
    exists m. rewrite Em. destruct (Qle_bool a b) eqn:C; [apply Qle_bool_iff in C | apply Qle_bool_false in C];
      destruct Hin as [<- | Hin]; repeat split; simpl; auto; try lra; constructor; auto; lra.
Qed.

Lemma n_min_list_Fin b l :
  exists m, n_min_list (map Fin (b :: l)) = Fin m /\ In m (b :: l) /\ Forall (fun x => m <= x) (b :: l).
Proof.
  destruct (fold_n_min_Fin l b) as (m & E & H1 & H2 & H3). exists m. split; [exact E|]. auto.
Qed.

Lemma n_max_list_Fin b l :
  exists m, n_max_list (map Fin (b :: l)) = Fin m /\ In m (b :: l) /\ Forall (fun x => x <= m) (b :: l).
Proof.
  destruct (fold_n_max_Fin l b) as (m & E & H1 & H2 & H3). exists m. split; [exact E|]. auto.
Qed.

(** ** Finiteness *)

Lemma to_fixed_finite d x : is_finite x = true -> is_finite (to_fixed d x) = true.
Proof. destruct x as [q| | |]; try discriminate. intros _. unfold to_fixed. destruct (Qle_bool _ _); reflexivity. Qed.
