(* ===== verification/JsString.v ===== *)
(** * JsString: [Number::toString], the conversion of template literals

    [`${x}`] in src/app.js (fmtPoint, fmtVector, the prompts and the
    explanations) converts a number with ECMAScript's [Number::toString]:
    the shortest decimal digit string [s] with [x = s × 10^(n-k)], laid out
    in plain notation when [-6 < n <= 21] and in exponent notation
    otherwise.  On the exact-rational model the digit string of a value with
    a terminating decimal expansion is its exact expansion; a value whose
    expansion does not terminate within [dec_digits] places (the program
    never produces one) is first rounded to that many places. *)

From S2P Require Import Prelude JsNumber.
From Stdlib Require Import Ascii.

Local Open Scope Q_scope.
Local Open Scope string_scope.

(** ** Decimal digits of a positive integer *)

Definition digit_char (d : Z) : ascii := ascii_of_nat (48 + Z.to_nat d).

Fixpoint digits_aux (fuel : nat) (n : Z) (acc : list Z) : list Z :=
  match fuel with
  | O => n :: acc
  | S f => if (n <? 10)%Z then n :: acc else digits_aux f (n / 10) ((n mod 10)%Z :: acc)
  end.

(** The most significant digit first; [Z.log2 n + 1] bits bound the
    number of decimal digits. *)
Definition digits (n : Z) : list Z := digits_aux (S (Z.to_nat (Z.log2 n))) n [].

Definition digits_string (ds : list Z) : string := string_of_list_ascii (map digit_char ds).

Fixpoint zeros (n : nat) : string :=
  match n with O => "" | S k => String "0" (zeros k) end.

(** ** The decimal form [q = m / 10^j] of a positive rational *)

Definition dec_digits : nat := 40.

Fixpoint dec_form_aux (fuel j : nat) (q : Q) : option (Z * nat) :=
  match fuel with
  | O => None
  | S f =>
      let t := q * pow10 j in
      if Qeq_bool (inject_Z (Qfloor t)) t then Some (Qfloor t, j) else dec_form_aux f (S j) q
  end.

(** [(m, j)] with [q = m / 10^j] and [j] minimal, or [q] rounded to
    [dec_digits] places. *)
Definition dec_form (q : Q) : Z * nat :=
  match dec_form_aux (S dec_digits) 0 q with
  | Some mj => mj
  | None => (Qfloor (q * pow10 dec_digits + (1 # 2)), dec_digits)
  end.

(** Strip the trailing zeros of [m · 10^e]: the pair [(s, e)] of
    ECMAScript's [s × 10^(n-k)], with [s] not divisible by 10. *)
Fixpoint strip_zeros (fuel : nat) (m e : Z) : Z * Z :=
  match fuel with
  | O => (m, e)
  | S f => if (m mod 10 =? 0)%Z && negb (m =? 0)%Z then strip_zeros f (m / 10) (e + 1) else (m, e)
  end.

(** The layout rules of [Number::toString] (ECMA-262, 6.1.6.1.20) for
    [s × 10^(n-k)], [s] of [k] digits. *)
Definition layout (s e : Z) : string :=
  let ds := digits s in
  let k := Z.of_nat (length ds) in
  let n := (e + k)%Z in
  if (k <=? n)%Z && (n <=? 21)%Z then digits_string ds ++ zeros (Z.to_nat (n - k))
  else if (0 <? n)%Z && (n <=? 21)%Z then
    digits_string (firstn (Z.to_nat n) ds) ++ "." ++ digits_string (skipn (Z.to_nat n) ds)
  else if (-6 <? n)%Z && (n <=? 0)%Z then "0." ++ zeros (Z.to_nat (- n)) ++ digits_string ds
  else
    let e' := (n - 1)%Z in
    let sgn := if (e' <? 0)%Z then "-" else "+" in
    match ds with
    | [] => ""
    | d :: rest =>
        String (digit_char d) "" ++
        (match rest with [] => "" | _ => "." ++ digits_string rest end) ++
        "e" ++ sgn ++ digits_string (digits (Z.abs e'))
    end.

Definition pos_to_string (q : Q) : string :=
  let '(m, j) := dec_form q in
  let '(s, e) := strip_zeros (S (Z.to_nat (Z.log2 m))) m (- Z.of_nat j) in
  layout s e.

(** [Number::toString(x)] (radix 10). *)
Definition to_string (x : num) : string :=
  match x with
  | Fin q =>
      if Qeq_bool q 0 then "0"
      else if Qle_bool 0 q then pos_to_string q else "-" ++ pos_to_string (- q)
  | NaN => "NaN"
  | PInf => "Infinity"
  | NInf => "-Infinity"
  end.

(** ** The layouts on sample values *)

Example to_string_samples :
  to_string (Fin 6) = "6" /\ to_string (Fin (-1)) = "-1" /\ to_string (Fin 100) = "100" /\
  to_string (Fin (6005 # 1000)) = "6.005" /\ to_string (Fin (-25 # 10)) = "-2.5" /\
  to_string (Fin (1 # 1000000)) = "0.000001" /\ to_string (Fin (1 # 10000000)) = "1e-7" /\
  to_string (Fin (inject_Z (10 ^ 21))) = "1e+21" /\
  to_string (Fin (inject_Z (123 * 10 ^ 20))) = "1.23e+22" /\ to_string (Fin 0) = "0".
Proof. vm_compute. repeat split. Qed.

(** ** The decimal form *)

Lemma dec_form_aux_sound fuel j q m j' :
  dec_form_aux fuel j q = Some (m, j') -> inject_Z m == q * pow10 j'.
Proof.
  revert j. induction fuel as [|f IH]; intros j H; [discriminate|]. cbn [dec_form_aux] in H.
  destruct (Qeq_bool _ _) eqn:E; [|exact (IH _ H)].
  injection H as <- <-. apply Qeq_bool_eq in E. exact E.
Qed.

(** [dec_form_aux] finds the places [j] of a value with [j] decimal
    places, when [j] is within its fuel. *)
Lemma dec_form_aux_complete fuel j0 q m j :
  inject_Z m == q * pow10 j -> (j0 <= j < j0 + fuel)%nat ->
  exists r, dec_form_aux fuel j0 q = Some r.
Proof.
  intros Hm. revert j0. induction fuel as [|f IH]; intros j0 Hj; [lia|]. cbn [dec_form_aux].
  destruct (Qeq_bool _ _) eqn:E; [eauto|].
  destruct (Nat.eq_dec j0 j) as [->|Hne].
  - exfalso. apply Qeq_bool_neq in E. apply E.
    rewrite (Qfloor_comp _ _ (Qeq_sym _ _ Hm)), Qfloor_inject_Z. exact Hm.
  - apply IH. lia.
Qed.

Lemma strip_zeros_spec fuel m e :
  (0 < m)%Z ->
  (0 < (strip_zeros fuel m e).1)%Z /\
  inject_Z (strip_zeros fuel m e).1 * 10 ^ (strip_zeros fuel m e).2 == inject_Z m * 10 ^ e.
Proof.
  revert m e. induction fuel as [|f IH]; intros m e Hm; cbn [strip_zeros]; [split; [exact Hm | reflexivity]|].
  destruct ((m mod 10 =? 0)%Z && negb (m =? 0)%Z) eqn:E; [|split; [exact Hm | reflexivity]].
  apply andb_prop in E as [E _]. apply Z.eqb_eq in E.
  assert (Hd : m = (10 * (m / 10))%Z) by (pose proof (Z.div_mod m 10); lia).
  destruct (IH (m / 10)%Z (e + 1)%Z) as [H1 H2]; [lia|]. split; [exact H1|].
  rewrite H2, Qpower_plus by discriminate. rewrite Hd at 2. rewrite inject_Z_mult.
  change (10 ^ 1) with (inject_Z 10). ring.
Qed.
