(* ===== verification/NumParse.v ===== *)
(** * NumParse: [parseFloat], the reading of the answer fields

    [getUserAnswer] (app.js 266-276) reads the answer fields with the
    global [parseFloat] of ECMAScript (ECMA-262, 19.2.4): the longest
    prefix of the string, after leading white space, that is a
    [StrDecimalLiteral] (a sign, then [Infinity] or decimal digits with an
    optional point and an optional exponent) gives the value, and a string
    with no such prefix gives NaN.  The value is exact here, as everywhere
    in the development.  Leading white space is the ASCII part of
    [StrWhiteSpaceChar] (tab, line terminators, vertical tab, form feed,
    space); the non-ASCII white space characters are not modelled.

    The main theorem is the round trip with [JsString.to_string]: the
    string a number is shown as (the click handler writes [String(x)] into
    the fields) is read back as the same number. *)

From S2P Require Import Prelude JsNumber JsString.
From Stdlib Require Import Ascii.

Local Open Scope Z_scope.

(** ** The scanner *)

Definition is_ws (c : ascii) : bool :=
  let n := nat_of_ascii c in
  ((9 <=? n) && (n <=? 13))%nat || (n =? 32)%nat.

Fixpoint trim_start (l : list ascii) : list ascii :=
  match l with
  | c :: r => if is_ws c then trim_start r else l
  | [] => []
  end.

Definition digit_val (c : ascii) : option Z :=
  let n := nat_of_ascii c in
  if ((48 <=? n) && (n <=? 57))%nat then Some (Z.of_nat n - 48) else None.

(** The longest prefix of decimal digits, and the rest. *)
Fixpoint span_digits (l : list ascii) : list Z * list ascii :=
  match l with
  | c :: r =>
      match digit_val c with
      | Some d => let '(ds, rest) := span_digits r in (d :: ds, rest)
      | None => ([], l)
      end
  | [] => ([], [])
  end.

(** The value of a digit string, most significant digit first. *)
Definition digits_value (ds : list Z) : Z := fold_left (fun acc d => acc * 10 + d) ds 0.

(** An optional [ExponentPart]: [e] or [E], an optional sign and at least
    one digit; without a digit nothing is consumed. *)
Definition exponent_part (l : list ascii) : Z * list ascii :=
  match l with
  | e :: r =>
      if (e =? "e"%char)%char || (e =? "E"%char)%char then
        let '(sgn, r') := match r with
                          | c :: r' => if (c =? "+"%char)%char then (1, r')
                                       else if (c =? "-"%char)%char then (-1, r') else (1, r)
                          | [] => (1, r)
                          end in
        match span_digits r' with
        | ([], _) => (0, l)
        | (ds, rest) => (sgn * digits_value ds, rest)
        end
      else (0, l)
  | [] => (0, [])
  end.

(** [m × 10^e] as a rational. *)
Definition scale10 (m e : Z) : Q :=
  if 0 <=? e then inject_Z (m * 10 ^ e) else (m # Z.to_pos (10 ^ (- e))).

Definition infinity_chars : list ascii := list_ascii_of_string "Infinity".

(** The value of the longest prefix that is a [StrUnsignedDecimalLiteral]:
    [Infinity], or [DecimalDigits . DecimalDigits? ExponentPart?],
    [. DecimalDigits ExponentPart?], [DecimalDigits ExponentPart?]. *)
Definition unsigned_literal (l : list ascii) : option num :=
  if bool_decide (infinity_chars `prefix_of` l) then Some PInf else
  let '(ids, r1) := span_digits l in
  let '(fds, r2) := match r1 with
                    | c :: r => if (c =? "."%char)%char then span_digits r else ([], r1)
                    | [] => ([], r1)
                    end in
  match ids, fds with
  | [], [] => None
  | _, _ =>
      let '(e, _) := exponent_part r2 in
      Some (Fin (scale10 (digits_value (ids ++ fds)) (e - Z.of_nat (length fds))))
  end.

(** The value of [StrDecimalLiteral]'s longest prefix of [t], NaN if none. *)
Definition literal_value (t : list ascii) : num :=
  match unsigned_literal t with Some x => x | None => NaN end.

Definition parse_list (l : list ascii) : num :=
  match trim_start l with
  | c :: r =>
      if (c =? "-"%char)%char then
        match unsigned_literal r with Some x => n_opp x | None => NaN end
      else if (c =? "+"%char)%char then literal_value r
      else literal_value (c :: r)
  | [] => NaN
  end.

(** [parseFloat(string)], for a string argument. *)
Definition parseFloat (s : string) : num := parse_list (list_ascii_of_string s).

(** [parseFloat(v)] for [v] the [value] of an element found by [$(...)],
    or [undefined] when [?.] finds none: [ToString(undefined)] is
    ["undefined"]. *)
Definition parseFloat_opt (v : option string) : num := parseFloat (default "undefined"%string v).

(** ** Digits *)

Definition is_digit (d : Z) : Prop := 0 <= d <= 9.

Lemma digit_val_char d : is_digit d -> digit_val (digit_char d) = Some d.
Proof.
  intros Hd. unfold is_digit in Hd. unfold digit_val, digit_char.
  rewrite nat_ascii_embedding by lia.
  replace ((48 <=? 48 + Z.to_nat d) && (48 + Z.to_nat d <=? 57))%nat with true
    by (symmetry; apply andb_true_intro; split; apply Nat.leb_le; lia).
  f_equal. lia.
Qed.

Lemma digits_value_app a b :
  digits_value (a ++ b) = digits_value a * 10 ^ Z.of_nat (length b) + digits_value b.
Proof.
  unfold digits_value. rewrite fold_left_app. generalize (fold_left (fun acc d => acc * 10 + d) a 0).
  induction b as [|d b IH] using rev_ind; intros acc; [simpl; lia|].
  rewrite !fold_left_app, IH. cbn [fold_left]. rewrite length_app. cbn [length].
  rewrite Nat2Z.inj_add, Z.pow_add_r by lia. lia.
Qed.

Lemma digits_value_cons d b : digits_value (d :: b) = d * 10 ^ Z.of_nat (length b) + digits_value b.
Proof. apply (digits_value_app [d] b). Qed.

Lemma digits_value_zeros n : digits_value (repeat 0 n) = 0.
Proof. induction n as [|n IH]; [reflexivity|]. cbn [repeat]. rewrite digits_value_cons, IH. lia. Qed.

Lemma digits_aux_spec fuel n acc :
  0 <= n < 10 ^ Z.of_nat fuel -> Forall is_digit acc ->
  Forall is_digit (digits_aux fuel n acc) /\
  digits_value (digits_aux fuel n acc) = n * 10 ^ Z.of_nat (length acc) + digits_value acc.
Proof.
  revert n acc. induction fuel as [|f IH]; intros n acc Hn Hacc; cbn [digits_aux].
  - assert (n = 0) as -> by (simpl in Hn; lia).
    split; [constructor; [unfold is_digit; lia | exact Hacc]|]. apply digits_value_cons.
  - destruct (n <? 10) eqn:E.
    + apply Z.ltb_lt in E. split; [constructor; [unfold is_digit; lia | exact Hacc]|].
      apply digits_value_cons.
    + apply Z.ltb_ge in E. rewrite Nat2Z.inj_succ, Z.pow_succ_r in Hn by lia.
      destruct (IH (n / 10) (n mod 10 :: acc)) as [H1 H2].
      * split; [apply Z.div_pos; lia | apply Z.div_lt_upper_bound; lia].
      * constructor; [unfold is_digit; pose proof (Z.mod_pos_bound n 10); lia | exact Hacc].
      * split; [exact H1|]. rewrite H2, digits_value_cons. cbn [length].
        rewrite Nat2Z.inj_succ, Z.pow_succ_r by lia.
        pose proof (Z.div_mod n 10). lia.
Qed.

Lemma digits_spec n : 0 < n -> Forall is_digit (digits n) /\ digits_value (digits n) = n.
Proof.
  intros Hn. unfold digits.
  assert (Hf : 0 <= n < 10 ^ Z.of_nat (S (Z.to_nat (Z.log2 n)))).
  { split; [lia|]. rewrite Nat2Z.inj_succ, Z2Nat.id by (apply Z.log2_nonneg).
    apply Z.lt_le_trans with (2 ^ Z.succ (Z.log2 n)); [apply (Z.log2_spec n); lia|].
    apply Z.pow_le_mono_l. lia. }
  destruct (digits_aux_spec _ n [] Hf (List.Forall_nil _)) as [H1 H2].
  split; [exact H1|]. rewrite H2. cbn [length Z.of_nat]. unfold digits_value. simpl. lia.
Qed.

(** ** Scanning printed digits *)

Lemma list_ascii_of_string_app a b :
  list_ascii_of_string (a ++ b) = list_ascii_of_string a ++ list_ascii_of_string b.
Proof. induction a as [|c a IH]; simpl; [reflexivity | rewrite IH; reflexivity]. Qed.

Lemma digits_string_chars ds : list_ascii_of_string (digits_string ds) = map digit_char ds.
Proof. apply list_ascii_of_string_of_list_ascii. Qed.

Lemma zeros_chars n : list_ascii_of_string (zeros n) = map digit_char (repeat 0 n).
Proof. induction n as [|n IH]; simpl; [reflexivity | rewrite IH; reflexivity]. Qed.

Lemma nat_of_digit_char d : is_digit d -> nat_of_ascii (digit_char d) = (48 + Z.to_nat d)%nat.
Proof. intros Hd. unfold is_digit in Hd. apply nat_ascii_embedding. lia. Qed.

Lemma span_digits_digits ds rest :
  Forall is_digit ds ->
  span_digits (map digit_char ds ++ rest) = (ds ++ (span_digits rest).1, (span_digits rest).2).
Proof.
  induction 1 as [|d ds Hd _ IH]; cbn [map app]; [destruct (span_digits rest); reflexivity|].
  cbn [span_digits]. rewrite digit_val_char by exact Hd. rewrite IH. reflexivity.
Qed.

(** The ten digit characters, one by one. *)
Lemma is_digit_cases d :
  is_digit d -> d = 0 \/ d = 1 \/ d = 2 \/ d = 3 \/ d = 4 \/ d = 5 \/ d = 6 \/ d = 7 \/ d = 8 \/ d = 9.
Proof. unfold is_digit. lia. Qed.

Lemma digit_char_not_special d :
  is_digit d -> is_ws (digit_char d) = false /\ (digit_char d =? "-"%char)%char = false /\
  (digit_char d =? "+"%char)%char = false /\ (digit_char d =? "."%char)%char = false /\
  digit_char d <> "I"%char.
Proof.
  intros Hd. apply is_digit_cases in Hd.
  repeat destruct Hd as [-> | Hd]; [..| subst d]; vm_compute; repeat split; congruence.
Qed.

(** The optional fraction [. DecimalDigits] of a literal. *)
Definition frac_chars (fds : list Z) : list ascii :=
  match fds with [] => [] | _ => "."%char :: map digit_char fds end.

Lemma not_infinity_prefix d l : is_digit d -> ~ infinity_chars `prefix_of` (digit_char d :: l).
Proof.
  intros Hd [k Hk]. cbn in Hk. injection Hk as Hc _.
  apply (digit_char_not_special d Hd). exact Hc.
Qed.

(** A literal [DecimalDigits (. DecimalDigits)? tail], where [tail] (no
    digit or point first) holds the exponent part, if any. *)
Lemma unsigned_literal_digits ids fds tail x rest :
  Forall is_digit ids -> Forall is_digit fds -> ids <> [] ->
  span_digits tail = ([], tail) -> hd_error tail <> Some "."%char ->
  exponent_part tail = (x, rest) ->
  unsigned_literal (map digit_char ids ++ frac_chars fds ++ tail) =
    Some (Fin (scale10 (digits_value (ids ++ fds)) (x - Z.of_nat (length fds)))).
Proof.
  intros Hi Hf Hne Ht Hp Hx. unfold unsigned_literal.
  destruct ids as [|d ids']; [congruence|].
  rewrite bool_decide_false by (apply not_infinity_prefix; inversion Hi; assumption).
  rewrite span_digits_digits by exact Hi.
  destruct fds as [|f fds']; cbn [frac_chars app].
  - rewrite Ht. cbn [fst snd]. rewrite app_nil_r.
    destruct tail as [|c r]; [|replace ((c =? "."%char)%char) with false
      by (symmetry; apply Ascii.eqb_neq; intros ->; apply Hp; reflexivity)];
    cbn [app]; rewrite Hx, ?app_nil_r; reflexivity.
  - cbn [span_digits]. replace (digit_val "."%char) with (@None Z) by reflexivity.
    cbn [fst snd]. rewrite Ascii.eqb_refl.
    rewrite (span_digits_digits (f :: fds') tail Hf), Ht. cbn [fst snd app].
    rewrite Hx, !app_nil_r. reflexivity.
Qed.

(** A printed exponent part [e±DecimalDigits]. *)
Lemma exponent_part_digits (neg : bool) (eds : list Z) :
  Forall is_digit eds -> eds <> [] ->
  exponent_part ("e"%char :: (if neg then "-"%char else "+"%char) :: map digit_char eds) =
    ((if neg then -1 else 1) * digits_value eds, []).
Proof.
  intros He Hne. rewrite <- (app_nil_r (map digit_char eds)).
  destruct neg; simpl; rewrite (span_digits_digits eds [] He); cbn [fst snd]; rewrite app_nil_r;
    (destruct eds; [congruence | reflexivity]).
Qed.

Lemma parse_list_digit d l :
  is_digit d -> parse_list (digit_char d :: l) = literal_value (digit_char d :: l).
Proof.
  intros Hd. destruct (digit_char_not_special d Hd) as (Hw & Hm & Hp & _).
  unfold parse_list. cbn [trim_start]. rewrite Hw, Hm, Hp. reflexivity.
Qed.

(** ** Values *)

Lemma scale10_spec m e : scale10 m e == (inject_Z m * 10 ^ e)%Q.
Proof.
  unfold scale10. destruct (0 <=? e) eqn:E.
  - apply Z.leb_le in E. rewrite inject_Z_mult, Zpower_Qpower by exact E. reflexivity.
  - apply Z.leb_gt in E. rewrite Qmake_Qdiv, Z2Pos.id by (apply Z.pow_pos_nonneg; lia).
    rewrite Zpower_Qpower by lia.
    assert (H : (10 ^ e == / 10 ^ (- e))%Q) by (rewrite <- Qpower_opp, Z.opp_involutive; reflexivity).
    rewrite H. reflexivity.
Qed.

Lemma Qpower10_plus a b : (10 ^ (a + b) == 10 ^ a * 10 ^ b)%Q.
Proof. apply Qpower_plus. discriminate. Qed.

Lemma Qpower10_Z n : 0 <= n -> (10 ^ n == inject_Z (10 ^ n))%Q.
Proof. intros Hn. rewrite Zpower_Qpower by exact Hn. reflexivity. Qed.

(** ** Reading back the layouts of [Number::toString] *)

Lemma parse_digits ids fds tail x rest :
  Forall is_digit ids -> Forall is_digit fds -> ids <> [] ->
  span_digits tail = ([], tail) -> hd_error tail <> Some "."%char ->
  exponent_part tail = (x, rest) ->
  parse_list (map digit_char ids ++ frac_chars fds ++ tail) ≡
    Fin (inject_Z (digits_value (ids ++ fds)) * 10 ^ (x - Z.of_nat (length fds)))%Q.
Proof.
  intros Hi Hf Hne Ht Hp Hx.
  pose proof (unsigned_literal_digits ids fds tail x rest Hi Hf Hne Ht Hp Hx) as H.
  destruct ids as [|d ids']; [congruence|]. cbn [map app] in H |- *.
  rewrite parse_list_digit by (inversion Hi; assumption).
  unfold literal_value. rewrite H. apply Fin_equiv, scale10_spec.
Qed.


Lemma Forall_digit_zeros z : Forall is_digit (repeat 0 z).
Proof. induction z; constructor; [unfold is_digit; lia | assumption]. Qed.

#[local] Hint Resolve Forall_digit_zeros : vp.

(** Plain notation of an integer: [digits] then [zeros]. *)
Lemma parse_plain_int ds z :
  Forall is_digit ds -> ds <> [] ->
  parse_list (list_ascii_of_string (digits_string ds ++ zeros z)) ≡
    Fin (inject_Z (digits_value ds * 10 ^ Z.of_nat z)).
Proof.
  intros Hd Hne.
  rewrite list_ascii_of_string_app, digits_string_chars, zeros_chars, <- map_app.
  pose proof (parse_digits (ds ++ repeat 0 z) [] [] 0 [] ltac:(apply Forall_app; auto with vp)
    (List.Forall_nil _) ltac:(destruct ds; simpl; congruence) eq_refl ltac:(discriminate) eq_refl) as H.
  cbn [frac_chars app] in H. rewrite !app_nil_r in H.
  etransitivity; [exact H|]. apply Fin_equiv.
  rewrite digits_value_app, digits_value_zeros, repeat_length, Z.add_0_r. cbn [length Z.of_nat Z.sub]. rewrite Qmult_1_r. reflexivity.
Qed.

(** Plain notation with a fraction: [n] digits, a point, the others. *)
Lemma parse_plain_frac ds n :
  Forall is_digit ds -> (0 < n < length ds)%nat ->
  parse_list (list_ascii_of_string (digits_string (firstn n ds) ++ "." ++ digits_string (skipn n ds))) ≡
    Fin (inject_Z (digits_value ds) * 10 ^ (Z.of_nat n - Z.of_nat (length ds)))%Q.
Proof.
  intros Hd Hn.
  rewrite !list_ascii_of_string_app, !digits_string_chars. cbn [list_ascii_of_string app].
  assert (Hs : skipn n ds <> []) by (intros E; apply (f_equal (@length _)) in E; rewrite length_skipn in E; simpl in E; lia).
  pose proof (parse_digits (firstn n ds) (skipn n ds) [] 0 []
    ltac:(apply Forall_take; exact Hd) ltac:(apply Forall_drop; exact Hd)
    ltac:(intros E; apply (f_equal (@length _)) in E; rewrite length_firstn in E; simpl in E; lia)
    eq_refl ltac:(discriminate) eq_refl) as H.
  destruct (skipn n ds) as [|f fs] eqn:Es; [congruence|].
  cbn [frac_chars] in H. rewrite app_nil_r in H.
  etransitivity; [exact H|]. apply Fin_equiv.
  rewrite <- Es, firstn_skipn, length_skipn, Nat2Z.inj_sub by lia.
  replace (0 - (Z.of_nat (length ds) - Z.of_nat n)) with (Z.of_nat n - Z.of_nat (length ds)) by lia.
  reflexivity.
Qed.

(** Plain notation of a small number: ["0."], zeros, the digits. *)
Lemma parse_small ds z :
  Forall is_digit ds -> ds <> [] ->
  parse_list (list_ascii_of_string ("0." ++ zeros z ++ digits_string ds)) ≡
    Fin (inject_Z (digits_value ds) * 10 ^ (- (Z.of_nat z + Z.of_nat (length ds))))%Q.
Proof.
  intros Hd Hne.
  rewrite !list_ascii_of_string_app, zeros_chars, digits_string_chars, <- map_app.
  change (list_ascii_of_string "0.") with (map digit_char [0] ++ ["."%char]).
  pose proof (parse_digits [0] (repeat 0 z ++ ds) [] 0 []
    ltac:(repeat constructor; unfold is_digit; lia) ltac:(apply Forall_app; auto with vp)
    ltac:(discriminate) eq_refl ltac:(discriminate) eq_refl) as H.
  destruct (repeat 0 z ++ ds) as [|f fs] eqn:Es; [destruct ds, z; simpl in Es; congruence|].
  cbn [frac_chars] in H. rewrite app_nil_r in H. rewrite <- app_assoc.
  etransitivity; [exact H|]. apply Fin_equiv. rewrite <- Es.
  rewrite !digits_value_app, digits_value_zeros, length_app, repeat_length, Nat2Z.inj_add.
  cbn [digits_value fold_left]. rewrite Z.mul_0_l, !Z.add_0_l. reflexivity.
Qed.

(** Exponent notation: one digit, the others after a point, [e], the
    sign and the digits of the exponent. *)
Lemma parse_exponent d rest x :
  Forall is_digit (d :: rest) -> x <> 0 ->
  parse_list (list_ascii_of_string
    (String (digit_char d) "" ++
     (match rest with [] => "" | _ => "." ++ digits_string rest end) ++
     "e" ++ (if x <? 0 then "-" else "+") ++ digits_string (digits (Z.abs x)))) ≡
    Fin (inject_Z (digits_value (d :: rest)) * 10 ^ (x - Z.of_nat (length rest)))%Q.
Proof.
  intros Hd Hx. destruct (digits_spec (Z.abs x)) as [He Hv]; [lia|].
  assert (Hne : digits (Z.abs x) <> []) by (intros E; rewrite E in Hv; cbn in Hv; lia).
  pose proof (exponent_part_digits (x <? 0) _ He Hne) as Hexp.
  replace ((if x <? 0 then -1 else 1) * digits_value (digits (Z.abs x))) with x in Hexp
    by (rewrite Hv; destruct (x <? 0) eqn:E; [apply Z.ltb_lt in E | apply Z.ltb_ge in E]; lia).
  pose proof (parse_digits [d] rest ("e"%char :: (if x <? 0 then "-"%char else "+"%char) :: map digit_char (digits (Z.abs x))) x [] ltac:(constructor; [inversion Hd; assumption | constructor])
    ltac:(inversion Hd; assumption) ltac:(discriminate) eq_refl ltac:(discriminate) Hexp) as H.
  etransitivity; [|exact H].
  rewrite !list_ascii_of_string_app, !digits_string_chars.
  destruct rest as [|r rs]; [|rewrite list_ascii_of_string_app, digits_string_chars];
    destruct (x <? 0); cbn [list_ascii_of_string app map frac_chars]; reflexivity.
Qed.

Lemma layout_parse s e :
  0 < s -> parse_list (list_ascii_of_string (layout s e)) ≡ Fin (inject_Z s * 10 ^ e)%Q.
Proof.
  intros Hs. destruct (digits_spec s Hs) as [Hd Hv].
  unfold layout. cbv zeta. set (ds := digits s) in *.
  assert (Hne : ds <> []) by (intros E; rewrite E in Hv; cbn in Hv; lia).
  set (k := Z.of_nat (length ds)).
  destruct ((k <=? e + k) && (e + k <=? 21)) eqn:B1; [|destruct ((0 <? e + k) && (e + k <=? 21)) eqn:B2;
    [|destruct ((-6 <? e + k) && (e + k <=? 0)) eqn:B3]];
    repeat match goal with H : (_ && _) = _ |- _ => apply andb_prop in H || apply andb_false_iff in H end;
    repeat match goal with H : _ /\ _ |- _ => destruct H end;
    rewrite ?Z.leb_le, ?Z.ltb_lt, ?Z.leb_gt, ?Z.ltb_ge in *.
  - etransitivity; [apply parse_plain_int; assumption|]. apply Fin_equiv.
    rewrite Z2Nat.id by lia. replace (e + k - k) with e by lia.
    rewrite inject_Z_mult, Qpower10_Z by lia. rewrite Hv. reflexivity.
  - etransitivity; [apply parse_plain_frac; [assumption | subst k; lia]|]. apply Fin_equiv.
    fold k. rewrite Z2Nat.id by lia. replace (e + k - k) with e by lia. rewrite Hv. reflexivity.
  - etransitivity; [apply parse_small; assumption|]. apply Fin_equiv.
    fold k. rewrite Z2Nat.id by lia. replace (- (- (e + k) + k)) with e by lia. rewrite Hv. reflexivity.
  - destruct ds as [|d rest] eqn:Eds; [congruence|].
    etransitivity; [apply parse_exponent; [assumption | lia]|]. apply Fin_equiv.
    rewrite Hv. subst k. cbn [length] in *. rewrite Nat2Z.inj_succ.
    replace (e + Z.succ (Z.of_nat (length rest)) - 1 - Z.of_nat (length rest)) with e by lia.
    reflexivity.
Qed.

Lemma layout_head s e :
  0 < s -> exists d r, is_digit d /\ list_ascii_of_string (layout s e) = digit_char d :: r.
Proof.
  intros Hs. destruct (digits_spec s Hs) as [Hd Hv].
  unfold layout. cbv zeta. set (ds := digits s) in *.
  destruct ds as [|d rest] eqn:Eds; [cbn in Hv; lia|]. inversion Hd; subst.
  set (n := e + Z.of_nat (length (d :: rest))).
  destruct ((Z.of_nat (length (d :: rest)) <=? n) && (n <=? 21));
    [|destruct ((0 <? n) && (n <=? 21)) eqn:B2; [|destruct ((-6 <? n) && (n <=? 0))]];
    rewrite ?list_ascii_of_string_app, ?digits_string_chars.
  - eexists _, _. split; [eassumption | reflexivity].
  - apply andb_prop in B2 as [B2 _]. apply Z.ltb_lt in B2.
    destruct (Z.to_nat n) eqn:En; [lia|].
    eexists _, _. split; [eassumption | reflexivity].
  - exists 0. eexists. split; [unfold is_digit; lia | reflexivity].
  - eexists _, _. split; [eassumption | reflexivity].
Qed.

Lemma parse_list_neg d r :
  is_digit d -> parse_list ("-"%char :: digit_char d :: r) = n_opp (parse_list (digit_char d :: r)).
Proof.
  intros Hd. rewrite parse_list_digit by exact Hd. unfold literal_value, parse_list.
  change (trim_start ("-"%char :: digit_char d :: r)) with ("-"%char :: digit_char d :: r).
  cbn iota beta. rewrite Ascii.eqb_refl. destruct (unsigned_literal _); reflexivity.
Qed.

(** ** The round trip *)

(** [q] has a decimal expansion with [j] places after the point. *)
Definition has_places (q : Q) (j : nat) : Prop := exists m : Z, inject_Z m == (q * pow10 j)%Q.

Lemma pow10_Qpower j : pow10 j == (10 ^ Z.of_nat j)%Q.
Proof. unfold pow10. symmetry. apply Qpower10_Z. lia. Qed.

Lemma pos_to_string_parse q j :
  (0 < q)%Q -> (j <= dec_digits)%nat -> has_places q j ->
  parse_list (list_ascii_of_string (pos_to_string q)) ≡ Fin q /\
  exists d r, is_digit d /\ list_ascii_of_string (pos_to_string q) = digit_char d :: r.
Proof.
  intros Hq Hj [m Hm]. unfold pos_to_string, dec_form.
  destruct (dec_form_aux_complete (S dec_digits) 0 q m j Hm ltac:(lia)) as [[m' j'] E]. rewrite E.
  pose proof (dec_form_aux_sound _ _ _ _ _ E) as Hm'.
  assert (Hpos : (0 < m')%Z).
  { apply inject_Z_lt. rewrite Hm', pow10_Qpower. cbn [inject_Z].
    apply Qmult_lt_0_compat; [exact Hq | apply Qpower_0_lt; reflexivity]. }
  destruct (strip_zeros_spec (S (Z.to_nat (Z.log2 m'))) m' (- Z.of_nat j') Hpos) as [Hs Hv].
  destruct (strip_zeros _ m' _) as [s e]. cbn [fst snd] in Hs, Hv.
  split; [|apply layout_head; exact Hs].
  etransitivity; [apply layout_parse; exact Hs|]. apply Fin_equiv.
  rewrite Hv, Hm', pow10_Qpower, <- Qmult_assoc, <- Qpower_plus by discriminate.
  rewrite Z.add_opp_diag_r. cbn. ring.
Qed.

Lemma parseFloat_zero : parseFloat "0" = Fin 0.
Proof. reflexivity. Qed.

(** [String(x)] read back by [parseFloat], on the string level. *)
Lemma to_string_parse q j :
  (j <= dec_digits)%nat -> has_places q j -> parseFloat (to_string (Fin q)) ≡ Fin q.
Proof.
  intros Hj Hp. unfold parseFloat, to_string.
  destruct (Qeq_bool q 0) eqn:E0.
  - apply Qeq_bool_eq in E0. change (parse_list (list_ascii_of_string "0")) with (parseFloat "0").
    rewrite parseFloat_zero. apply Fin_equiv. symmetry. exact E0.
  - apply Qeq_bool_neq in E0. destruct (Qle_bool 0 q) eqn:E1.
    + apply Qle_bool_iff in E1. apply (pos_to_string_parse q j); [|exact Hj | exact Hp].
      apply Qle_lteq in E1 as [E1|E1]; [exact E1 | exfalso; apply E0; symmetry; exact E1].
    + assert (Hn : (0 < - q)%Q).
      { assert (~ (0 <= q)%Q) by (intros H; apply Qle_bool_iff in H; congruence). lra. }
      destruct Hp as [m Hm].
      destruct (pos_to_string_parse (- q) j Hn Hj) as [H (d & r & Hd & Hl)].
      { exists (- m)%Z. rewrite inject_Z_opp, Hm. ring. }
      rewrite list_ascii_of_string_app, Hl. cbn [list_ascii_of_string app].
      rewrite parse_list_neg by exact Hd. rewrite Hl in H. rewrite H.
      apply Fin_equiv. ring.
Qed.

(** C10: round trip of the number formatting: [parseFloat(String(x))] is
    [x] for every finite [x] with a decimal expansion of at most
    [dec_digits] places (every value the program formats has at most
    three); plain, fractional, small and exponent layouts and both signs
    are read back exactly. *)
Theorem parseFloat_to_string q j :
  (j <= dec_digits)%nat -> has_places q j -> parseFloat (to_string (Fin q)) ≡ Fin q.
Proof. apply to_string_parse. Qed.

Lemma parseFloat_to_string_witness :
  ((1 <= dec_digits)%nat /\ has_places (13 # 2) 1) /\
  parseFloat (to_string (Fin (13 # 2))) ≡ Fin (13 # 2).
Proof.
  assert (H : (1 <= dec_digits)%nat /\ has_places (13 # 2) 1) by (split; [cbv; lia | exists 65%Z; reflexivity]).
  split; [exact H | apply (parseFloat_to_string _ 1); apply H].
Defined.
