(* ===== verification/Tolerance.v ===== *)
(** * Tolerance: [nearlyEqual] and [pairEqual] (src/app.js 48-55)

    The ToleranceComparator of the spec: scalar and pair equality under an
    absolute tolerance, the only judge of an answer.  The theorems give its
    exact meaning on finite numbers, its behaviour on NaN and infinities,
    and the accept/reject scenario of the spec. *)

From S2P Require Import Prelude JsNumber.

Local Open Scope Q_scope.

(** [tol = 1e-2], the default parameter of both functions and the constant
    of [checkAnswer]. *)
Definition default_tol : num := Fin (1 # 100).

(** [function nearlyEqual(a, b, tol = 1e-2)]. *)
Definition nearlyEqual (a b tol : num) : bool :=
  if isNaN a || isNaN b then false
  else n_le (n_abs (n_sub a b)) tol.

(** [function pairEqual([a, b], [c, d], tol = 1e-2)]: [&&] evaluates the
    second comparison only when the first holds, which for pure functions
    is the boolean conjunction. *)
Definition pairEqual (p q : num * num) (tol : num) : bool :=
  nearlyEqual p.1 q.1 tol && nearlyEqual p.2 q.2 tol.

#[export] Instance nearlyEqual_proper : Proper ((≡) ==> (≡) ==> (≡) ==> eq) nearlyEqual.
Proof.
  intros a a' Ha b b' Hb t t' Ht. unfold nearlyEqual.
  rewrite (isNaN_proper _ _ Ha), (isNaN_proper _ _ Hb).
  destruct (isNaN a' || isNaN b'); [reflexivity|]. rewrite Ha, Hb, Ht. reflexivity.
Qed.

#[export] Instance pairEqual_proper : Proper ((≡) ==> (≡) ==> (≡) ==> eq) pairEqual.
Proof.
  intros [a b] [a' b'] [Ha Hb] [c d] [c' d'] [Hc Hd] t t' Ht. unfold pairEqual; simpl in *.
  rewrite Ha, Hb, Hc, Hd, Ht. reflexivity.
Qed.

(** ** Meaning on finite values *)

Lemma nearlyEqual_Fin a b t :
  nearlyEqual (Fin a) (Fin b) (Fin t) = true <-> Qabs (a - b) <= t.
Proof. unfold nearlyEqual. simpl. apply Qle_bool_iff. Qed.

(** C1: on finite operands and a finite tolerance, [nearlyEqual] accepts
    exactly when the two numbers differ by at most the tolerance, i.e. when
    [b - tol <= a <= b + tol]. *)
Theorem nearlyEqual_finite_iff a b t :
  nearlyEqual (Fin a) (Fin b) (Fin t) = true <-> b - t <= a /\ a <= b + t.
Proof. rewrite nearlyEqual_Fin, Qabs_le_iff. split; intros [H1 H2]; split; lra. Qed.

(** C2: under a finite tolerance, [nearlyEqual] accepts only finite operands:
    a NaN (an unparsable field) or an infinite operand is always rejected,
    and finite ones are accepted exactly within the tolerance. *)
Theorem nearlyEqual_finite_tol a b t :
  nearlyEqual a b (Fin t) = true <->
  exists qa qb, a = Fin qa /\ b = Fin qb /\ Qabs (qa - qb) <= t.
Proof.
  split.
  - intros H. destruct a as [qa| | |], b as [qb| | |]; try discriminate;
      [exists qa, qb; rewrite <- nearlyEqual_Fin; auto|..];
      unfold nearlyEqual in H; simpl in H; discriminate.
  - intros (qa & qb & -> & -> & H). apply nearlyEqual_Fin. exact H.
Qed.

(** C29: [nearlyEqual x x tol] holds exactly for a finite [x] and a
    non-negative finite [tol]: the spec's reflexivity on finite numbers, and
    its failure on NaN and on infinities ([Infinity - Infinity] is NaN). *)
Theorem nearlyEqual_refl_iff x t :
  nearlyEqual x x (Fin t) = true <-> is_finite x = true /\ 0 <= t.
Proof.
  destruct x as [q| | |];
    [|split; [intros H; cbn in H; discriminate | intros [H _]; discriminate]..].
  rewrite nearlyEqual_Fin. pose proof (Qabs_sub_diag q) as D.
  split; [intros H; split; [reflexivity | lra] | intros [_ H]; lra].
Qed.

(** C30: [nearlyEqual] is symmetric in its two operands, for every
    tolerance and every operand, special values included. *)
Theorem nearlyEqual_sym a b t : nearlyEqual a b t = nearlyEqual b a t.
Proof.
  unfold nearlyEqual. rewrite orb_comm.
  destruct (isNaN b || isNaN a); [reflexivity|].
  f_equal. destruct a as [qa| | |], b as [qb| | |]; try reflexivity.
  unfold n_sub. cbn [n_opp n_add n_abs]. fold (qa - qb) (qb - qa).
  rewrite Qabs_Qminus. reflexivity.
Qed.

Lemma pairEqual_refl p t :
  is_finite p.1 = true -> is_finite p.2 = true -> 0 <= t -> pairEqual p p (Fin t) = true.
Proof.
  destruct p as [[a| | |] [b| | |]]; try discriminate. intros _ _ Ht.
  unfold pairEqual. cbn [fst snd]. apply andb_true_intro. rewrite !nearlyEqual_Fin.
  pose proof (Qabs_sub_diag a). pose proof (Qabs_sub_diag b). split; lra.
Qed.

(** The spec's scenario: with the default tolerance [0.01], the answer
    [(6.005, 1.995)] is accepted against [(6, 2)], and [(6.02, 2)] is
    rejected. *)
Example pairEqual_scenario :
  pairEqual (Fin (6005 # 1000), Fin (1995 # 1000)) (Fin 6, Fin 2) default_tol = true /\
  pairEqual (Fin (602 # 100), Fin 2) (Fin 6, Fin 2) default_tol = false.
Proof. split; reflexivity. Qed.

(** The tolerance is not an equivalence: it is not transitive. *)
Remark nearlyEqual_not_transitive :
  nearlyEqual (Fin 0) (Fin (1 # 100)) default_tol = true /\
  nearlyEqual (Fin (1 # 100)) (Fin (2 # 100)) default_tol = true /\
  nearlyEqual (Fin 0) (Fin (2 # 100)) default_tol = false.
Proof. repeat split. Qed.
