(* ===== verification/Transform.v ===== *)
(** * Transform: the coordinate maps of [Graph.create] (src/app.js 73-90)

    The CoordinateTransform of the spec: the mutable [bounds] of a graph, the
    CSS size of its canvas as returned by [getBoundingClientRect()], and the
    two linear maps between world and screen coordinates.  The abstract
    specification is an affine map, increasing in x and decreasing in y
    (the screen's y axis points down); [worldToScreen] refines it and
    [screenToWorld] refines its inverse, from which the two round-trip laws
    follow.  Degenerate bounds, which the code does not reject, send every
    point to a non-finite screen coordinate. *)

From S2P Require Import Prelude JsNumber.

Local Open Scope Q_scope.

(** [let bounds = { xMin: -10, xMax: 10, yMin: -10, yMax: 10 }]. *)
Record Bounds : Type := mkBounds { xMin : num; xMax : num; yMin : num; yMax : num }.

(** The two fields of [canvas.getBoundingClientRect()] the maps read. *)
Record Rect : Type := mkRect { width : num; height : num }.



(** [function worldToScreen(pt)]. *)
Definition worldToScreen (bounds : Bounds) (rect : Rect) (pt : point) : point :=
  let x := ((pt.1 - xMin bounds) / (xMax bounds - xMin bounds) * width rect)%js in
  let y := (height rect - (pt.2 - yMin bounds) / (yMax bounds - yMin bounds) * height rect)%js in
  (x, y).

(** [function screenToWorld(px, py)]. *)
Definition screenToWorld (bounds : Bounds) (rect : Rect) (px py : num) : point :=
  let x := (xMin bounds + (px / width rect) * (xMax bounds - xMin bounds))%js in
  let y := (yMin bounds + ((height rect - py) / height rect) * (yMax bounds - yMin bounds))%js in
  (x, y).

(** The spec's precondition: finite bounds with [xMin < xMax] and
    [yMin < yMax]; a laid-out canvas has a positive finite size. *)
Definition valid_bounds (b : Bounds) : bool :=
  match b with
  | mkBounds (Fin x0) (Fin x1) (Fin y0) (Fin y1) => Qltb x0 x1 && Qltb y0 y1
  | _ => false
  end.

Definition valid_rect (r : Rect) : bool :=
  match r with
  | mkRect (Fin w) (Fin h) => Qltb 0 w && Qltb 0 h
  | _ => false
  end.

(** ** The abstract specification: an affine map per axis *)

Record affine : Type := mkAffine { sx : Q; tx : Q; sy : Q; ty : Q }.

Definition affine_apply (A : affine) (p : Q * Q) : Q * Q :=
  (sx A * p.1 + tx A, sy A * p.2 + ty A).

Definition affine_unapply (A : affine) (p : Q * Q) : Q * Q :=
  ((p.1 - tx A) / sx A, (p.2 - ty A) / sy A).

(** The view of the world rectangle [[x0,x1]×[y0,y1]] on a [w×h] screen. *)
Definition view_affine (x0 x1 y0 y1 w h : Q) : affine :=
  mkAffine (w / (x1 - x0)) (- x0 * w / (x1 - x0))
           (- h / (y1 - y0)) (h + y0 * h / (y1 - y0)).

Definition lift (p : Q * Q) : point := (Fin p.1, Fin p.2).

(** The inverse laws of the abstract map, when neither scale is zero. *)
Lemma affine_unapply_apply A p :
  ~ sx A == 0 -> ~ sy A == 0 -> lift (affine_unapply A (affine_apply A p)) ≡ lift p.
Proof. intros Hx Hy. split; apply Fin_equiv; simpl; field; assumption. Qed.

Lemma affine_apply_unapply A p :
  ~ sx A == 0 -> ~ sy A == 0 -> lift (affine_apply A (affine_unapply A p)) ≡ lift p.
Proof. intros Hx Hy. split; apply Fin_equiv; simpl; field; assumption. Qed.

Lemma lift_equiv p q : p.1 == q.1 -> p.2 == q.2 -> lift p ≡ lift q.
Proof. intros H1 H2. split; assumption. Qed.

#[export] Instance worldToScreen_proper b r : Proper ((≡) ==> (≡)) (worldToScreen b r).
Proof. intros [p1 p2] [q1 q2] [H1 H2]; unfold worldToScreen; simpl in *. split; simpl; solve_proper. Qed.

#[export] Instance screenToWorld_proper b r : Proper ((≡) ==> (≡) ==> (≡)) (screenToWorld b r).
Proof. intros p1 q1 H1 p2 q2 H2; unfold screenToWorld. split; simpl; solve_proper. Qed.

Lemma valid_bounds_inv b :
  valid_bounds b = true ->
  exists x0 x1 y0 y1, b = mkBounds (Fin x0) (Fin x1) (Fin y0) (Fin y1) /\ x0 < x1 /\ y0 < y1.
Proof.
  destruct b as [[x0| | |] [x1| | |] [y0| | |] [y1| | |]]; simpl; try discriminate.
  intros [H1 H2]%andb_true_iff. apply Qltb_iff in H1, H2. eauto 8.
Qed.

Lemma valid_rect_inv r :
  valid_rect r = true -> exists w h, r = mkRect (Fin w) (Fin h) /\ 0 < w /\ 0 < h.
Proof.
  destruct r as [[w| | |] [h| | |]]; simpl; try discriminate.
  intros [H1 H2]%andb_true_iff. apply Qltb_iff in H1, H2. eauto.
Qed.

Section View.
Context (x0 x1 y0 y1 w h : Q).
Hypothesis Hx : x0 < x1.
Hypothesis Hy : y0 < y1.
Hypothesis Hw : 0 < w.
Hypothesis Hh : 0 < h.

Let B := mkBounds (Fin x0) (Fin x1) (Fin y0) (Fin y1).
Let R := mkRect (Fin w) (Fin h).
Let A := view_affine x0 x1 y0 y1 w h.

Lemma worldToScreen_Fin x y :
  worldToScreen B R (Fin x, Fin y) =
  (Fin ((x - x0) / (x1 - x0) * w), Fin (h - (y - y0) / (y1 - y0) * h)).
Proof. unfold worldToScreen; cbn [xMin xMax yMin yMax width height fst snd B R]. js_simpl. reflexivity. Qed.

Lemma screenToWorld_Fin px py :
  screenToWorld B R (Fin px) (Fin py) =
  (Fin (x0 + px / w * (x1 - x0)), Fin (y0 + (h - py) / h * (y1 - y0))).
Proof. unfold screenToWorld; cbn [xMin xMax yMin yMax width height fst snd B R]. js_simpl. reflexivity. Qed.

Lemma view_affine_signs : 0 < sx A /\ sy A < 0.
Proof.
  unfold A, view_affine; simpl. split.
  - apply Qlt_shift_div_l; lra.
  - apply Qlt_shift_div_r; lra.
Qed.

Lemma worldToScreen_view x y : worldToScreen B R (Fin x, Fin y) ≡ lift (affine_apply A (x, y)).
Proof.
  rewrite worldToScreen_Fin. unfold A, view_affine, affine_apply, lift; simpl.
  split; apply Fin_equiv; simpl; field; intro; lra.
Qed.

Lemma screenToWorld_view px py : screenToWorld B R (Fin px) (Fin py) ≡ lift (affine_unapply A (px, py)).
Proof.
  rewrite screenToWorld_Fin. unfold A, view_affine, affine_unapply, lift; simpl.
  split; apply Fin_equiv; simpl; field; repeat split; intro; lra.
Qed.
Lemma view_scales_nonzero : ~ sx A == 0 /\ ~ sy A == 0.
Proof. destruct view_affine_signs. split; intro; lra. Qed.

Lemma view_world_screen_world x y :
  screenToWorld B R (worldToScreen B R (Fin x, Fin y)).1 (worldToScreen B R (Fin x, Fin y)).2
    ≡ (Fin x, Fin y).
Proof.
  destruct view_scales_nonzero.
  rewrite (worldToScreen_view x y). unfold lift at 1 2. cbn [fst snd].
  rewrite screenToWorld_view. fold A. apply affine_unapply_apply; assumption.
Qed.

Lemma view_screen_world_screen px py :
  worldToScreen B R (screenToWorld B R (Fin px) (Fin py)) ≡ (Fin px, Fin py).
Proof.
  destruct view_scales_nonzero.
  rewrite screenToWorld_view. unfold lift at 1. destruct (affine_unapply A (px, py)) as [a b] eqn:E.
  cbn [fst snd]. rewrite worldToScreen_view. fold A. rewrite <- E.
  apply affine_apply_unapply; assumption.
Qed.
Lemma view_in_canvas x y :
  (x0 <= x <= x1 /\ y0 <= y <= y1) <->
  (0 <= (x - x0) / (x1 - x0) * w <= w /\ 0 <= h - (y - y0) / (y1 - y0) * h <= h).
Proof.
  assert (Ex : 0 <= (x - x0) / (x1 - x0) * w <= w <-> x0 <= x <= x1)
    by (rewrite Qscale_range by lra; lra).
  assert (Ey : 0 <= (y - y0) / (y1 - y0) * h <= h <-> y0 <= y <= y1)
    by (rewrite Qscale_range by lra; lra).
  revert Ex Ey. generalize ((x - x0) / (x1 - x0) * w) ((y - y0) / (y1 - y0) * h).
  intros a b Ex Ey. split; intros [Ha Hb]; split; try tauto; lra.
Qed.
End View.

(** ** Properties of the transform *)

Abbreviation viewB x0 x1 y0 y1 := (mkBounds (Fin x0) (Fin x1) (Fin y0) (Fin y1)).
Abbreviation viewR w h := (mkRect (Fin w) (Fin h)).

(** C11: refinement.  On bounds with [xMin < xMax], [yMin < yMax] and a
    canvas of positive size, [worldToScreen] is the affine map
    [view_affine] of the world rectangle onto the canvas, increasing in x
    and decreasing in y, and [screenToWorld] is its inverse formula. *)
Theorem transform_refines_view x0 x1 y0 y1 w h :
  x0 < x1 -> y0 < y1 -> 0 < w -> 0 < h ->
  let A := view_affine x0 x1 y0 y1 w h in
  0 < sx A /\ sy A < 0 /\
  (forall x y, worldToScreen (viewB x0 x1 y0 y1) (viewR w h) (Fin x, Fin y)
                 ≡ lift (affine_apply A (x, y))) /\
  (forall px py, screenToWorld (viewB x0 x1 y0 y1) (viewR w h) (Fin px) (Fin py)
                 ≡ lift (affine_unapply A (px, py))).
Proof.
  intros Hx Hy Hw Hh A. destruct (view_affine_signs x0 x1 y0 y1 w h) as [H1 H2]; try lra.
  split; [exact H1|]. split; [exact H2|].
  split; intros; [apply worldToScreen_view | apply screenToWorld_view]; lra.
Qed.

Lemma transform_refines_view_witness :
  (-10 < 10 /\ -10 < 10 /\ 0 < 100 /\ 0 < 100) /\
  let A := view_affine (-10) 10 (-10) 10 100 100 in
  0 < sx A /\ sy A < 0 /\
  (forall x y, worldToScreen (viewB (-10) 10 (-10) 10) (viewR 100 100) (Fin x, Fin y)
                 ≡ lift (affine_apply A (x, y))) /\
  (forall px py, screenToWorld (viewB (-10) 10 (-10) 10) (viewR 100 100) (Fin px) (Fin py)
                 ≡ lift (affine_unapply A (px, py))).
Proof.
  split; [repeat split; reflexivity|].
  apply (transform_refines_view (-10) 10 (-10) 10 100 100); reflexivity.
Defined.

(** C5: round trip world -> screen -> world.  For valid bounds and a
    positive canvas, mapping a finite world point to the screen and back
    with [screenToWorld] gives the point again. *)
Theorem world_screen_world b r x y :
  valid_bounds b = true -> valid_rect r = true ->
  screenToWorld b r (worldToScreen b r (Fin x, Fin y)).1 (worldToScreen b r (Fin x, Fin y)).2
    ≡ (Fin x, Fin y).
Proof.
  intros (x0 & x1 & y0 & y1 & -> & Hx & Hy)%valid_bounds_inv (w & h & -> & Hw & Hh)%valid_rect_inv.
  apply view_world_screen_world; assumption.
Qed.

Lemma world_screen_world_witness :
  (valid_bounds (viewB (-10) 10 (-10) 10) = true /\ valid_rect (viewR 100 100) = true) /\
  screenToWorld (viewB (-10) 10 (-10) 10) (viewR 100 100)
    (worldToScreen (viewB (-10) 10 (-10) 10) (viewR 100 100) (Fin 3, Fin (-7))).1
    (worldToScreen (viewB (-10) 10 (-10) 10) (viewR 100 100) (Fin 3, Fin (-7))).2
  ≡ (Fin 3, Fin (-7)).
Proof.
  split; [split; reflexivity|].
  apply world_screen_world; reflexivity.
Defined.

(** C6: round trip screen -> world -> screen: a click at pixel [(px, py)]
    mapped to the world and back lands on the same pixel. *)
Theorem screen_world_screen b r px py :
  valid_bounds b = true -> valid_rect r = true ->
  worldToScreen b r (screenToWorld b r (Fin px) (Fin py)) ≡ (Fin px, Fin py).
Proof.
  intros (x0 & x1 & y0 & y1 & -> & Hx & Hy)%valid_bounds_inv (w & h & -> & Hw & Hh)%valid_rect_inv.
  apply view_screen_world_screen; assumption.
Qed.

Lemma screen_world_screen_witness :
  (valid_bounds (viewB (-10) 10 (-10) 10) = true /\ valid_rect (viewR 100 100) = true) /\
  worldToScreen (viewB (-10) 10 (-10) 10) (viewR 100 100)
    (screenToWorld (viewB (-10) 10 (-10) 10) (viewR 100 100) (Fin 37) (Fin 81))
  ≡ (Fin 37, Fin 81).
Proof.
  split; [split; reflexivity|].
  apply screen_world_screen; reflexivity.
Defined.

(** C28: the world rectangle of the bounds is mapped exactly onto the
    canvas: a finite point lies within the bounds if and only if its screen
    image lies within [[0,width]×[0,height]]. *)
Theorem worldToScreen_in_canvas x0 x1 y0 y1 w h x y :
  x0 < x1 -> y0 < y1 -> 0 < w -> 0 < h ->
  exists sx sy,
    worldToScreen (viewB x0 x1 y0 y1) (viewR w h) (Fin x, Fin y) = (Fin sx, Fin sy) /\
    ((x0 <= x <= x1 /\ y0 <= y <= y1) <-> (0 <= sx <= w /\ 0 <= sy <= h)).
Proof.
  intros Hx Hy Hw Hh. rewrite worldToScreen_Fin by lra.
  eexists _, _. split; [reflexivity|]. apply view_in_canvas; lra.
Qed.

Lemma worldToScreen_in_canvas_witness :
  (-10 < 10 /\ -10 < 10 /\ 0 < 100 /\ 0 < 100) /\
  exists sx sy,
    worldToScreen (viewB (-10) 10 (-10) 10) (viewR 100 100) (Fin 4, Fin 12) = (Fin sx, Fin sy) /\
    ((-10 <= 4 <= 10 /\ -10 <= 12 <= 10) <-> (0 <= sx <= 100 /\ 0 <= sy <= 100)).
Proof.
  split; [repeat split; reflexivity|].
  apply (worldToScreen_in_canvas (-10) 10 (-10) 10 100 100 4 12); reflexivity.
Defined.

(** The spec's scenario: with bounds [-10..10] on both axes and a
    100×100 canvas, the origin maps to [(50, 50)] and [(10, 10)] to
    [(100, 0)]. *)
Example worldToScreen_scenario :
  worldToScreen (viewB (-10) 10 (-10) 10) (viewR 100 100) (Fin 0, Fin 0) ≡ (Fin 50, Fin 50) /\
  worldToScreen (viewB (-10) 10 (-10) 10) (viewR 100 100) (Fin 10, Fin 10) ≡ (Fin 100, Fin 0).
Proof. repeat split; vm_compute; reflexivity. Qed.

(** C31: degenerate bounds are not rejected: [setBounds] stores them and
    [worldToScreen] then divides by zero, so when [xMin = xMax] every finite
    point gets a non-finite screen x (NaN or an infinity), and likewise for
    y when [yMin = yMax]; the spec asks for a fail-fast rejection. *)
Theorem worldToScreen_degenerate x0 x1 y0 y1 w h x y :
  (x0 == x1 -> is_finite (worldToScreen (viewB x0 x1 y0 y1) (viewR w h) (Fin x, Fin y)).1 = false) /\
  (y0 == y1 -> is_finite (worldToScreen (viewB x0 x1 y0 y1) (viewR w h) (Fin x, Fin y)).2 = false).
Proof.
  unfold worldToScreen; cbn [fst snd xMin xMax yMin yMax width height].
  autorewrite with js_rw. split; intros E.
  - apply n_mul_nonfinite_l, n_div_by_zero. lra.
  - apply n_sub_nonfinite_r, n_mul_nonfinite_l, n_div_by_zero. lra.
Qed.

Lemma worldToScreen_degenerate_witness :
  5 == 5 /\ is_finite (worldToScreen (viewB 5 5 (-10) 10) (viewR 100 100) (Fin 1, Fin 1)).1 = false.
Proof.
  split; [reflexivity|].
  apply (proj1 (worldToScreen_degenerate 5 5 (-10) 10 100 100 1 1)). reflexivity.
Defined.

Lemma worldToScreen_finite b r x y :
  valid_bounds b = true -> valid_rect r = true ->
  exists a c, worldToScreen b r (Fin x, Fin y) = (Fin a, Fin c).
Proof.
  intros (x0 & x1 & y0 & y1 & -> & Hx & Hy)%valid_bounds_inv (w & h & -> & Hw & Hh)%valid_rect_inv.
  rewrite worldToScreen_Fin by assumption. eauto.
Qed.
