(* ===== verification/Sampler.v ===== *)
(** * Sampler: [rand], [choice], [difficultyRanges], [rndNum] (src/app.js 21-46)

    The NumericSampler of the spec, in the [Rnd] monad of the prelude: each
    call of [Math.random()] consumes one draw of the stream.  The theorems
    show that [rand.int] returns an integer of the closed range, with each
    value produced by an interval of draws of width [1/(max-min+1)]
    (uniformity), that an inverted range is silently accepted, and that
    [choice] returns an element of a non-empty array. *)

From S2P Require Import Prelude JsNumber.

Local Open Scope Q_scope.
Local Open Scope rnd_scope.

(** One call of [Math.random()], as a number. *)
Definition random : Rnd num := q <- draw ;; rret (Fin q).

(** [rand.int(min, max)]:
    [Math.floor(Math.random() * (max - min + 1)) + min]. *)
Definition rand_int (min max : num) : Rnd num :=
  r <- random ;; rret (n_floor (r * (max - min + Fin 1)) + min)%js.

(** [rand.float(min, max, dp = 1)]:
    [parseFloat((Math.random() * (max - min) + min).toFixed(dp))]. *)
Definition rand_float (min max : num) (dp : nat) : Rnd num :=
  r <- random ;; rret (to_fixed dp (r * (max - min) + min)%js).

(** [arr[k]] for a number [k]: an array index is a non-negative integer
    below the length; any other key reads [undefined]. *)
Definition js_index {A} (l : list A) (k : num) : option A :=
  match k with
  | Fin q => if Qeq_bool (inject_Z (Qfloor q)) q && Qle_bool 0 q
             then l !! Z.to_nat (Qfloor q) else None
  | _ => None
  end.

(** [choice(arr)]: [arr[Math.floor(Math.random() * arr.length)]]; [None]
    is [undefined], read from an empty array. *)
Definition choice {A} (arr : list A) : Rnd (option A) :=
  r <- random ;; rret (js_index arr (n_floor (r * Fin (inject_Z (Z.of_nat (length arr)))))%js).

(** The range record [{ type, min, max }]. *)
Record Range : Type := mkRange { type : string; min : num; max : num }.

(** [difficultyRanges(diff)]. *)
Definition difficultyRanges (diff : string) : Range :=
  if String.eqb diff "easy" then mkRange "int" (Fin 0) (Fin 10)
  else if String.eqb diff "medium" then mkRange "int" (Fin (-10)) (Fin 10)
  else if String.eqb diff "hard" then mkRange "float" (Fin (-25)) (Fin 25)
  else mkRange "int" (Fin (-10)) (Fin 10).

(** [rndNum(r)]. *)
Definition rndNum (r : Range) : Rnd num :=
  if String.eqb (type r) "int" then rand_int (min r) (max r)
  else rand_float (min r) (max r) 1.

(** ** Computation rules *)

Lemma rand_int_Fin a b s :
  rand_int (Fin a) (Fin b) s =
  (Fin (inject_Z (Qfloor (s O * (b - a + 1))) + a), stream_tail s).
Proof. reflexivity. Qed.

Lemma choice_eq {A} (l : list A) s :
  choice l s = (js_index l (Fin (inject_Z (Qfloor (s O * inject_Z (Z.of_nat (length l)))))),
                stream_tail s).
Proof. reflexivity. Qed.

Lemma js_index_Z {A} (l : list A) (z : Z) :
  (0 <= z)%Z -> js_index l (Fin (inject_Z z)) = l !! Z.to_nat z.
Proof.
  intros Hz. unfold js_index. rewrite Qfloor_inject_Z.
  rewrite (proj2 (Qeq_bool_iff _ _)) by reflexivity.
  rewrite (proj2 (Qle_bool_iff _ _)) by (exact (proj1 (inject_Z_le 0 z) Hz)).
  reflexivity.
Qed.

(** [Math.floor(r * n)] for a draw [r] of [[0,1)] and a positive integer
    [n] is an index of [[0, n)]. *)
Lemma floor_draw_range (r : Q) (n : Z) :
  0 <= r < 1 -> (0 < n)%Z -> (0 <= Qfloor (r * inject_Z n) < n)%Z.
Proof.
  intros [H0 H1] Hn. apply inject_Z_lt in Hn as Hn'. change (inject_Z 0) with 0 in Hn'.
  pose proof (Qfloor_spec (r * inject_Z n)) as [F1 F2]. split.
  - assert (0 <= r * inject_Z n) by nra.
    assert (L : inject_Z (-1) < inject_Z (Qfloor (r * inject_Z n)))
      by (change (inject_Z (-1)) with (-1); lra).
    apply inject_Z_lt in L. lia.
  - apply inject_Z_lt. assert (r * inject_Z n < inject_Z n) by nra. lra.
Qed.

(** The draws that make [rand.int] return [min + j]: an interval of width
    [1/(max-min+1)]. *)
Lemma rand_int_floor_iff (r : Q) (a b j : Z) :
  Qfloor (r * (inject_Z b - inject_Z a + 1)) = j <->
  inject_Z j <= r * inject_Z (b - a + 1) < inject_Z j + 1.
Proof.
  assert (E : inject_Z b - inject_Z a + 1 == inject_Z (b - a + 1)) by (qlra).
  rewrite E. split.
  - intros <-. apply Qfloor_spec.
  - apply Qfloor_unique.
Qed.

#[export] Hint Resolve floor_draw_range : vp.

(** For a non-positive [n], [Math.floor(r * n)] lies in [[n, 0]]. *)
Lemma floor_draw_range_nonpos (r : Q) (n : Z) :
  0 <= r < 1 -> (n <= 0)%Z -> (n <= Qfloor (r * inject_Z n) <= 0)%Z.
Proof.
  intros [H0 H1] Hn. apply inject_Z_le in Hn as Hn'. change (inject_Z 0) with 0 in Hn'.
  pose proof (Qfloor_spec (r * inject_Z n)) as [F1 F2].
  assert (inject_Z n <= r * inject_Z n <= 0) by (split; nra).
  split.
  - assert (L : inject_Z (n - 1) < inject_Z (Qfloor (r * inject_Z n))) by qlra.
    apply inject_Z_lt in L. lia.
  - apply inject_Z_le. change (inject_Z 0) with 0. lra.
Qed.

Lemma rand_int_spec a b s :
  (rand_int (Fin (inject_Z a)) (Fin (inject_Z b)) s).1
    ≡ Fin (inject_Z (Qfloor (s O * inject_Z (b - a + 1)) + a)) /\
  (rand_int (Fin (inject_Z a)) (Fin (inject_Z b)) s).2 = stream_tail s.
Proof.
  rewrite rand_int_Fin. split; [|reflexivity]. apply Fin_equiv; cbn [fst].
  assert (E : inject_Z b - inject_Z a + 1 == inject_Z (b - a + 1)) by qlra.
  rewrite E, (inject_Z_plus (Qfloor (s O * inject_Z (b - a + 1))) a). reflexivity.
Qed.

(** [rndNum] draws exactly once, whatever the range. *)
Lemma rndNum_consumes_one r s : rndNum r s = ((rndNum r s).1, stream_tail s).
Proof. unfold rndNum. destruct (String.eqb (type r) "int"); reflexivity. Qed.

Lemma Fin_inject_Z_inj (k k' : Z) : Fin (inject_Z k) ≡ Fin (inject_Z k') <-> k = k'.
Proof. rewrite Fin_equiv, inject_Z_injective. reflexivity. Qed.

(** The medium range draws integers of [[-10, 10]]. *)
Lemma rndNum_medium s :
  0 <= s O < 1 ->
  exists k, (-10 <= k <= 10)%Z /\
    (rndNum (difficultyRanges "medium") s).1 ≡ Fin (inject_Z k) /\
    (rndNum (difficultyRanges "medium") s).2 = stream_tail s.
Proof.
  intros Hr. destruct (rand_int_spec (-10) 10 s) as [E1 E2].
  pose proof (floor_draw_range (s O) (10 - -10 + 1) Hr ltac:(lia)).
  eexists; split; [|split; [exact E1|exact E2]]. lia.
Qed.

(** ** Properties of the sampler *)

(** C24: [rand.int(min, max)] on integers [min <= max] and a draw of
    [[0,1)] returns an integer [k] with [min <= k <= max] and consumes
    exactly one draw. *)
Theorem rand_int_in_range (a b : Z) (s : stream) :
  (a <= b)%Z -> 0 <= s O < 1 ->
  exists k, (a <= k <= b)%Z /\
    (rand_int (Fin (inject_Z a)) (Fin (inject_Z b)) s).1 ≡ Fin (inject_Z k) /\
    (rand_int (Fin (inject_Z a)) (Fin (inject_Z b)) s).2 = stream_tail s.
Proof.
  intros Hab Hr. destruct (rand_int_spec a b s) as [E1 E2].
  pose proof (floor_draw_range (s O) (b - a + 1) Hr ltac:(lia)).
  eexists; split; [|split; [exact E1|exact E2]]. lia.
Qed.

Lemma rand_int_in_range_witness :
  ((-10 <= 10)%Z /\ 0 <= (fun _ : nat => 3 # 4) O < 1) /\
  exists k, (-10 <= k <= 10)%Z /\
    (rand_int (Fin (inject_Z (-10))) (Fin (inject_Z 10)) (fun _ => 3 # 4)).1 ≡ Fin (inject_Z k) /\
    (rand_int (Fin (inject_Z (-10))) (Fin (inject_Z 10)) (fun _ => 3 # 4)).2
      = stream_tail (fun _ => 3 # 4).
Proof.
  split; [split; [lia | simpl; lra]|].
  apply rand_int_in_range; [lia | simpl; lra].
Defined.

(** C25: uniformity of [rand.int]: it returns [min + j] exactly for the
    draws [r] with [j <= r·(max-min+1) < j + 1], an interval of width
    [1/(max-min+1)] for each [j]. *)
Theorem rand_int_uniform (a b j : Z) (s : stream) :
  (rand_int (Fin (inject_Z a)) (Fin (inject_Z b)) s).1 ≡ Fin (inject_Z (a + j)) <->
  inject_Z j <= s O * inject_Z (b - a + 1) < inject_Z j + 1.
Proof.
  destruct (rand_int_spec a b s) as [E1 _]. rewrite E1, Fin_inject_Z_inj.
  assert (Qfloor (s O * inject_Z (b - a + 1)) + a = a + j <->
          Qfloor (s O * inject_Z (b - a + 1)) = j)%Z as -> by lia.
  split; [intros <-; apply Qfloor_spec | apply Qfloor_unique].
Qed.

(** C32: an inverted range ([max < min]) is not rejected: [rand.int]
    still returns an integer, and that integer lies in [(max, min]],
    outside the requested (empty) range; the spec asks for a
    precondition error. *)
Theorem rand_int_inverted (a b : Z) (s : stream) :
  (b < a)%Z -> 0 <= s O < 1 ->
  exists k, (b < k <= a)%Z /\
    (rand_int (Fin (inject_Z a)) (Fin (inject_Z b)) s).1 ≡ Fin (inject_Z k).
Proof.
  intros Hab Hr. destruct (rand_int_spec a b s) as [E1 _].
  pose proof (floor_draw_range_nonpos (s O) (b - a + 1) Hr ltac:(lia)).
  eexists; split; [|exact E1]. lia.
Qed.

Lemma rand_int_inverted_witness :
  ((3 < 5)%Z /\ 0 <= (fun _ : nat => 0) O < 1) /\
  exists k, (3 < k <= 5)%Z /\
    (rand_int (Fin (inject_Z 5)) (Fin (inject_Z 3)) (fun _ => 0)).1 ≡ Fin (inject_Z k).
Proof.
  split; [split; [lia | simpl; lra]|].
  apply rand_int_inverted; [lia | simpl; lra].
Defined.

(** C26: [choice(arr)] on a non-empty array and a draw of [[0,1)] returns
    an element of the array (never [undefined]), the one at index
    [floor(r·length)], and consumes one draw. *)
Theorem choice_nonempty {A} (l : list A) (s : stream) :
  l <> [] -> 0 <= s O < 1 ->
  exists i x, l !! i = Some x /\ choice l s = (Some x, stream_tail s).
Proof.
  intros Hl Hr. rewrite choice_eq.
  assert (Hn : (0 < Z.of_nat (length l))%Z) by (destruct l; [congruence|simpl; lia]).
  pose proof (floor_draw_range (s O) _ Hr Hn) as Hi.
  rewrite js_index_Z by lia.
  destruct (lookup_lt_is_Some_2 l (Z.to_nat (Qfloor (s O * inject_Z (Z.of_nat (length l))))))
    as [x Hx]; [lia|].
  exists (Z.to_nat (Qfloor (s O * inject_Z (Z.of_nat (length l))))), x. rewrite Hx. auto.
Qed.

Lemma choice_nonempty_witness :
  ([1%nat; 2%nat] <> [] /\ 0 <= (fun _ : nat => 1 # 2) O < 1) /\
  exists i x, [1%nat; 2%nat] !! i = Some x /\
    choice [1%nat; 2%nat] (fun _ => 1 # 2) = (Some x, stream_tail (fun _ => 1 # 2)).
Proof.
  split; [split; [discriminate | simpl; lra]|].
  apply choice_nonempty; [discriminate | simpl; lra].
Defined.
