(* ===== verification/Generator.v ===== *)
(** * Generator: the question generators (src/app.js 31-32, 171-200)

    The QuestionGenerator of the spec.  A question is the record the code
    builds; the two generators draw four numbers with [rndNum] (the initial
    or terminal point, then the vector, x before y) and build prompt,
    answer, explanation and drawing from the same four values.  The
    registry [generators] is the JS object keyed by kind, a [gmap].

    The theorems show the order and number of draws, the answer's
    exactness on the configured range (the [toFixed(3)] rounding is then the
    identity), the spec's round-trip law [Q = answer + v] read off the
    question itself, that the inverse question's drawing shows the unknown
    only in degenerate coincidences (the direct question's arrow, by
    construction, ends on its answer), and that the registry defines a
    generator for every selected type. *)

From S2P Require Import Prelude JsNumber JsString Sampler.

Local Open Scope Q_scope.
Local Open Scope string_scope.
Local Open Scope rnd_scope.

(** [function fmtPoint([x, y])] and [function fmtVector([a, b])]. *)
Definition fmtPoint (pt : point) : string := "(" ++ to_string pt.1 ++ ", " ++ to_string pt.2 ++ ")".
Definition fmtVector (v : point) : string := "⟨" ++ to_string v.1 ++ ", " ++ to_string v.2 ++ "⟩".

(** The drawing directives [{ points: [{ p, label }], arrows: [{ from, to }] }]. *)
Record DrawPoint : Type := mkDrawPoint { p : point; label : string }.
Record DrawArrow : Type := mkDrawArrow { from : point; to : point }.
Record Draw : Type := mkDraw { points : list DrawPoint; arrows : list DrawArrow }.

(** [{ kind, prompt, answer, answerShape, explain, draw }]. *)
Record Question : Type := mkQuestion {
  kind : string;
  prompt : string;
  answer : point;
  answerShape : string;
  explain : string;
  draw : Draw
}.

Definition origin : point := (Fin 0, Fin 0).

(** The question built from the initial point [P] and the vector [v]. *)
Definition terminal_question (P v : point) : Question :=
  let Q := (to_fixed 3 (P.1 + v.1)%js, to_fixed 3 (P.2 + v.2)%js) in
  {| kind := "terminalFromInitialAndVector";
     prompt := "Given initial point P " ++ fmtPoint P ++ " and vector v = " ++ fmtVector v ++
               ", find the terminal point Q = P + v.";
     answer := Q;
     answerShape := "pair";
     explain := "Q = P + v = (" ++ to_string P.1 ++ " + " ++ to_string v.1 ++ ", " ++
                to_string P.2 ++ " + " ++ to_string v.2 ++ ") = " ++ fmtPoint Q ++ ".";
     draw := {| points := [{| p := P; label := "P" |}]; arrows := [{| from := P; to := Q |}] |} |}.

(** [terminalFromInitialAndVector(r)]: [P] then [v], each [[x, y]]. *)
Definition terminalFromInitialAndVector (r : Range) : Rnd Question :=
  P0 <- rndNum r ;; P1 <- rndNum r ;; v0 <- rndNum r ;; v1 <- rndNum r ;;
  rret (terminal_question (P0, P1) (v0, v1)).

(** The question built from the terminal point [Q] and the vector [v]. *)
Definition initial_question (Q v : point) : Question :=
  let P := (to_fixed 3 (Q.1 - v.1)%js, to_fixed 3 (Q.2 - v.2)%js) in
  {| kind := "initialFromTerminalAndVector";
     prompt := "Given terminal point Q " ++ fmtPoint Q ++ " and vector v = " ++ fmtVector v ++
               ", find the initial point P such that Q = P + v.";
     answer := P;
     answerShape := "pair";
     explain := "P = Q - v = (" ++ to_string Q.1 ++ " - " ++ to_string v.1 ++ ", " ++
                to_string Q.2 ++ " - " ++ to_string v.2 ++ ") = " ++ fmtPoint P ++ ".";
     draw := {| points := [{| p := Q; label := "Q" |}]; arrows := [{| from := origin; to := v |}] |} |}.

(** [initialFromTerminalAndVector(r)]: [Q] then [v]. *)
Definition initialFromTerminalAndVector (r : Range) : Rnd Question :=
  Q0 <- rndNum r ;; Q1 <- rndNum r ;; v0 <- rndNum r ;; v1 <- rndNum r ;;
  rret (initial_question (Q0, Q1) (v0, v1)).

(** [const generators = { terminalFromInitialAndVector, initialFromTerminalAndVector }]. *)
Definition generators : gmap string (Range -> Rnd Question) :=
  <["terminalFromInitialAndVector" := terminalFromInitialAndVector]>
  (<["initialFromTerminalAndVector" := initialFromTerminalAndVector]> ∅).

(** ** Running a generator *)

(** The [i]-th number drawn by [rndNum r] from [s]. *)
Definition sample (r : Range) (s : stream) (i : nat) : num := (rndNum r (skip i s)).1.

Lemma four_draws (r : Range) (s : stream) (k : num -> num -> num -> num -> Question) :
  (a <- rndNum r ;; b <- rndNum r ;; c <- rndNum r ;; d <- rndNum r ;; rret (k a b c d)) s =
  (k (sample r s 0) (sample r s 1) (sample r s 2) (sample r s 3), skip 4 s).
Proof.
  unfold rbind, rret, sample. simpl.
  rewrite (rndNum_consumes_one r s), (rndNum_consumes_one r (stream_tail s)),
    (rndNum_consumes_one r (stream_tail (stream_tail s))),
    (rndNum_consumes_one r (stream_tail (stream_tail (stream_tail s)))).
  reflexivity.
Qed.

Lemma terminalFromInitialAndVector_run r s :
  terminalFromInitialAndVector r s =
  (terminal_question (sample r s 0, sample r s 1) (sample r s 2, sample r s 3), skip 4 s).
Proof. apply (four_draws r s (fun a b c d => terminal_question (a, b) (c, d))). Qed.

Lemma initialFromTerminalAndVector_run r s :
  initialFromTerminalAndVector r s =
  (initial_question (sample r s 0, sample r s 1) (sample r s 2, sample r s 3), skip 4 s).
Proof. apply (four_draws r s (fun a b c d => initial_question (a, b) (c, d))). Qed.

(** On the configured range every draw is an integer of [[-10, 10]]. *)
Lemma medium_sample s i :
  unit_stream s ->
  exists k, (-10 <= k <= 10)%Z /\ sample (difficultyRanges "medium") s i ≡ Fin (inject_Z k).
Proof.
  intros Hs. destruct (rndNum_medium (skip i s)) as (k & Hk & E & _).
  - apply (unit_stream_skip i s Hs).
  - exists k. split; [exact Hk | exact E].
Qed.

(** ** Properties of the generators *)

(** C3: on the configured (medium) range the four draws are integers of
    [[-10, 10]] and the answer is exactly [P + v]: the [toFixed(3)]
    rounding never changes it. *)
Theorem terminal_answer_exact s :
  unit_stream s ->
  let r := difficultyRanges "medium" in
  let P := (sample r s 0, sample r s 1) in
  let v := (sample r s 2, sample r s 3) in
  answer (terminalFromInitialAndVector r s).1 ≡ ((P.1 + v.1)%js, (P.2 + v.2)%js) /\
  Forall (fun x => exists k : Z, (-10 <= k <= 10)%Z /\ x ≡ Fin (inject_Z k)) [P.1; P.2; v.1; v.2].
Proof.
  intros Hs r P v. rewrite terminalFromInitialAndVector_run.
  destruct (medium_sample s 0 Hs) as (a & Ha & Ea), (medium_sample s 1 Hs) as (b & Hb & Eb),
    (medium_sample s 2 Hs) as (c & Hc & Ec), (medium_sample s 3 Hs) as (d & Hd & Ed).
  split.
  - split; cbn [answer terminal_question fst snd]; eapply to_fixed_add_int; eauto; lia.
  - repeat constructor; eauto.
Qed.

(** Draws of [Math.random()] that make the medium range produce
    [P = (2, 3)] and [v = (4, -1)]: [floor(r·21) - 10] is 2, 3, 4, -1. *)
Definition scenario_draws : stream :=
  fun n => match n with 0 => 25 # 42 | 1 => 27 # 42 | 2 => 29 # 42 | _ => 19 # 42 end%nat.

Lemma terminal_answer_exact_witness :
  unit_stream scenario_draws /\
  let r := difficultyRanges "medium" in
  let P := (sample r scenario_draws 0, sample r scenario_draws 1) in
  let v := (sample r scenario_draws 2, sample r scenario_draws 3) in
  answer (terminalFromInitialAndVector r scenario_draws).1 ≡ ((P.1 + v.1)%js, (P.2 + v.2)%js) /\
  Forall (fun x => exists k : Z, (-10 <= k <= 10)%Z /\ x ≡ Fin (inject_Z k)) [P.1; P.2; v.1; v.2].
Proof.
  assert (H : unit_stream scenario_draws) by (intros [|[|[|n]]]; simpl; lra).
  split; [exact H | apply (terminal_answer_exact _ H)].
Defined.

Lemma medium_points s :
  unit_stream s ->
  exists a b c d : Z,
    (-10 <= a <= 10)%Z /\ (-10 <= b <= 10)%Z /\ (-10 <= c <= 10)%Z /\ (-10 <= d <= 10)%Z /\
    (sample (difficultyRanges "medium") s 0, sample (difficultyRanges "medium") s 1)
      ≡ (Fin (inject_Z a), Fin (inject_Z b)) /\
    (sample (difficultyRanges "medium") s 2, sample (difficultyRanges "medium") s 3)
      ≡ (Fin (inject_Z c), Fin (inject_Z d)).
Proof.
  intros Hs.
  destruct (medium_sample s 0 Hs) as (a & Ha & Ea), (medium_sample s 1 Hs) as (b & Hb & Eb),
    (medium_sample s 2 Hs) as (c & Hc & Ec), (medium_sample s 3 Hs) as (d & Hd & Ed).
  exists a, b, c, d. repeat split; first [assumption | lia].
Qed.

(** The inverse question on integer data: its answer is exactly [Q - v]. *)
Lemma initial_question_answer_int Q v (a b c d : Z) :
  Q ≡ (Fin (inject_Z a), Fin (inject_Z b)) -> v ≡ (Fin (inject_Z c), Fin (inject_Z d)) ->
  (Z.abs (a - c) < 10 ^ 21)%Z -> (Z.abs (b - d) < 10 ^ 21)%Z ->
  answer (initial_question Q v) ≡ (Fin (inject_Z a - inject_Z c), Fin (inject_Z b - inject_Z d)).
Proof.
  intros [EQ1 EQ2] [Ev1 Ev2] B1 B2. cbn [answer initial_question].
  split; cbn [fst snd].
  - rewrite (to_fixed_sub_int 3 _ _ a c EQ1 Ev1 B1), EQ1, Ev1. reflexivity.
  - rewrite (to_fixed_sub_int 3 _ _ b d EQ2 Ev2 B2), EQ2, Ev2. reflexivity.
Qed.

(** C4: the spec's round-trip law, read off the question itself: the
    inverse question plots one point labelled "Q" and one arrow from the
    origin, and on the configured range the plotted [Q] equals
    [answer + v] exactly, [v] being the arrow's head. *)
Theorem initial_roundtrip s :
  unit_stream s ->
  let q := (initialFromTerminalAndVector (difficultyRanges "medium") s).1 in
  match points (draw q), arrows (draw q) with
  | [Qd], [vd] =>
      label Qd = "Q" /\ from vd = origin /\
      p Qd ≡ (((answer q).1 + (to vd).1)%js, ((answer q).2 + (to vd).2)%js)
  | _, _ => False
  end.
Proof.
  intros Hs q. subst q. rewrite initialFromTerminalAndVector_run.
  destruct (medium_points s Hs) as (a & b & c & d & Ha & Hb & Hc & Hd & EQ & Ev).
  cbn [fst draw points arrows initial_question label from p to].
  split; [reflexivity|]. split; [reflexivity|].
  rewrite (initial_question_answer_int _ _ a b c d EQ Ev) by lia.
  destruct EQ as [EQ1 EQ2], Ev as [Ev1 Ev2]; cbn [fst snd] in *.
  split; cbn [fst snd]; rewrite ?EQ1, ?EQ2, ?Ev1, ?Ev2; js_simpl; apply Fin_equiv; ring.
Qed.

Lemma initial_roundtrip_witness :
  unit_stream (fun _ => 1 # 3) /\
  let q := (initialFromTerminalAndVector (difficultyRanges "medium") (fun _ => 1 # 3)).1 in
  match points (draw q), arrows (draw q) with
  | [Qd], [vd] =>
      label Qd = "Q" /\ from vd = origin /\
      p Qd ≡ (((answer q).1 + (to vd).1)%js, ((answer q).2 + (to vd).2)%js)
  | _, _ => False
  end.
Proof.
  assert (H : unit_stream (fun _ => 1 # 3)) by (intros n; simpl; lra).
  split; [exact H | apply (initial_roundtrip _ H)].
Defined.

(** C23: the inverse question does not give its answer away: it plots [Q]
    and the vector [v] from the origin, and on the configured range the
    unknown [P] coincides with a plotted position only in the degenerate
    cases [v = 0] (P is Q), [Q = v] (P is the origin) or [Q = 2v] (P is
    the head of v). *)
Theorem initial_hides_answer s :
  unit_stream s ->
  let r := difficultyRanges "medium" in
  let Q := (sample r s 0, sample r s 1) in
  let v := (sample r s 2, sample r s 3) in
  let P := answer (initialFromTerminalAndVector r s).1 in
  points (draw (initialFromTerminalAndVector r s).1) = [{| p := Q; label := "Q" |}] /\
  arrows (draw (initialFromTerminalAndVector r s).1) = [{| from := origin; to := v |}] /\
  (P ≡ Q -> v ≡ origin) /\ (P ≡ origin -> Q ≡ v) /\ (P ≡ v -> Q ≡ ((v.1 + v.1)%js, (v.2 + v.2)%js)).
Proof.
  intros Hs. cbv zeta. rewrite initialFromTerminalAndVector_run.
  destruct (medium_points s Hs) as (a & b & c & d & Ha & Hb & Hc & Hd & EQ & Ev).
  cbn [fst]. split; [reflexivity|]. split; [reflexivity|].
  rewrite (initial_question_answer_int _ _ a b c d EQ Ev) by lia.
  destruct EQ as [EQ1 EQ2], Ev as [Ev1 Ev2]; cbn [fst snd] in *.
  unfold origin. split; [|split]; intros [E1 E2]; cbn [fst snd] in *;
    rewrite ?EQ1, ?EQ2, ?Ev1, ?Ev2 in *; split; cbn [fst snd];
    rewrite ?EQ1, ?EQ2, ?Ev1, ?Ev2; js_simpl; rewrite Fin_equiv in E1, E2 |- *; lra.
Qed.

Lemma initial_hides_answer_witness :
  unit_stream (fun _ => 1 # 3) /\
  let r := difficultyRanges "medium" in
  let s := (fun _ : nat => 1 # 3) in
  let Q := (sample r s 0, sample r s 1) in
  let v := (sample r s 2, sample r s 3) in
  let P := answer (initialFromTerminalAndVector r s).1 in
  points (draw (initialFromTerminalAndVector r s).1) = [{| p := Q; label := "Q" |}] /\
  arrows (draw (initialFromTerminalAndVector r s).1) = [{| from := origin; to := v |}] /\
  (P ≡ Q -> v ≡ origin) /\ (P ≡ origin -> Q ≡ v) /\ (P ≡ v -> Q ≡ ((v.1 + v.1)%js, (v.2 + v.2)%js)).
Proof.
  assert (H : unit_stream (fun _ => 1 # 3)) by (intros n; simpl; lra).
  split; [exact H | apply (initial_hides_answer _ H)].
Defined.

(** [selectedTypes()]: the two kinds of the simplified quiz. *)
Definition selectedTypes : list string :=
  ["terminalFromInitialAndVector"; "initialFromTerminalAndVector"].

(** [choice(selectedTypes())] on a draw of [[0,1)] is one of the two keys. *)
Lemma choice_selectedTypes s :
  0 <= s O < 1 ->
  exists k, choice selectedTypes s = (Some k, stream_tail s) /\
    (k = "terminalFromInitialAndVector" \/ k = "initialFromTerminalAndVector").
Proof.
  intros Hr. rewrite choice_eq. change (Z.of_nat (length selectedTypes)) with 2%Z.
  pose proof (floor_draw_range (s O) 2 Hr ltac:(lia)) as Hi.
  rewrite js_index_Z by lia.
  destruct (Qfloor (s O * inject_Z 2)) as [|[i|i|]|i] eqn:E; simpl in Hi; try lia; eauto.
Qed.

(** C27: [nextQuestion]'s lookup [generators[choice(types)]] never reads
    [undefined]: for a draw of [[0,1)], [choice(selectedTypes())] returns a
    key of the registry, and the generator stored under it builds questions
    whose [kind] is that key. *)
Theorem selected_generator_defined s :
  0 <= s O < 1 ->
  exists k gen, choice selectedTypes s = (Some k, stream_tail s) /\
    generators !! k = Some gen /\ forall r s', kind (gen r s').1 = k.
Proof.
  intros Hr. destruct (choice_selectedTypes s Hr) as (k & E & [-> | ->]);
    (eexists _, _; split; [exact E|]; split; [reflexivity|]); intros r s';
    [rewrite terminalFromInitialAndVector_run | rewrite initialFromTerminalAndVector_run]; reflexivity.
Qed.

Lemma selected_generator_defined_witness :
  0 <= (fun _ : nat => 1 # 2) O < 1 /\
  exists k gen, choice selectedTypes (fun _ => 1 # 2) = (Some k, stream_tail (fun _ => 1 # 2)) /\
    generators !! k = Some gen /\ forall r s', kind (gen r s').1 = k.
Proof.
  assert (H : 0 <= (fun _ : nat => 1 # 2) O < 1) by (simpl; lra).
  split; [exact H | apply (selected_generator_defined _ H)].
Defined.
