(* ===== verification/Canvas.v ===== *)
(** * Canvas: the 2D rendering context the graph draws on

    The rendering-surface boundary of the spec (section 6), i.e. the part of
    the HTML canvas API that src/app.js calls: the drawing state (styles,
    line width, font, transform) with its [save]/[restore] stack, the
    current path, and the log of what has been painted.  Painting operations
    ([stroke], [fill], [fillText], [clearRect]) append to the log with the
    style in force, so that a theorem about the graph can state what is on
    the screen and in which order it was painted.  Resizing the canvas
    element resets the whole context, as the HTML standard prescribes. *)

From S2P Require Import Prelude JsNumber.

Local Open Scope string_scope.
Local Open Scope list_scope.

(** The drawing state that [save()] pushes and [restore()] pops. *)
Record DrawState : Type := mkDrawState {
  strokeStyle : string;
  fillStyle : string;
  lineWidth : num;
  font : string;
  transform : list num
}.

Definition default_state : DrawState :=
  {| strokeStyle := "#000000"; fillStyle := "#000000"; lineWidth := Fin 1;
     font := "10px sans-serif"; transform := [Fin 1; Fin 0; Fin 0; Fin 1; Fin 0; Fin 0] |}.

(** The elements of the current path. *)
Inductive PathEl : Type :=
| PMove (p : point)
| PLine (p : point)
| PArc (c : point) (r a0 a1 : num)
| PClose.

(** What has been painted, in order. *)
Inductive Paint : Type :=
| PReset
| PClear (x y w h : num)
| PStroke (style : string) (width : num) (path : list PathEl)
| PFill (style : string) (path : list PathEl)
| PText (style fnt text : string) (pos : point).

Record Ctx : Type := mkCtx {
  cur : DrawState;
  saved : list DrawState;
  path : list PathEl;
  painted : list Paint
}.

Definition set_cur (f : DrawState -> DrawState) (c : Ctx) : Ctx :=
  {| cur := f (cur c); saved := saved c; path := path c; painted := painted c |}.

Definition set_path (pth : list PathEl) (c : Ctx) : Ctx :=
  {| cur := cur c; saved := saved c; path := pth; painted := painted c |}.

Definition paint (x : Paint) (c : Ctx) : Ctx :=
  {| cur := cur c; saved := saved c; path := path c; painted := painted c ++ [x] |}.

(** ** The context operations *)

Definition save (c : Ctx) : Ctx :=
  {| cur := cur c; saved := cur c :: saved c; path := path c; painted := painted c |}.

(** [restore()] on an empty stack does nothing. *)
Definition restore (c : Ctx) : Ctx :=
  match saved c with
  | s :: rest => {| cur := s; saved := rest; path := path c; painted := painted c |}
  | [] => c
  end.

Definition set_strokeStyle (s : string) : Ctx -> Ctx :=
  set_cur (fun d => {| strokeStyle := s; fillStyle := fillStyle d; lineWidth := lineWidth d;
                       font := font d; transform := transform d |}).
Definition set_fillStyle (s : string) : Ctx -> Ctx :=
  set_cur (fun d => {| strokeStyle := strokeStyle d; fillStyle := s; lineWidth := lineWidth d;
                       font := font d; transform := transform d |}).
Definition set_font (s : string) : Ctx -> Ctx :=
  set_cur (fun d => {| strokeStyle := strokeStyle d; fillStyle := fillStyle d; lineWidth := lineWidth d;
                       font := s; transform := transform d |}).

(** Setting [lineWidth] to zero, a negative, an infinite or NaN value is
    ignored. *)
Definition set_lineWidth (w : num) : Ctx -> Ctx :=
  set_cur (fun d => if n_lt (Fin 0) w && is_finite w
                    then {| strokeStyle := strokeStyle d; fillStyle := fillStyle d; lineWidth := w;
                            font := font d; transform := transform d |}
                    else d).

Definition setTransform (a b c' d e f : num) : Ctx -> Ctx :=
  set_cur (fun s => {| strokeStyle := strokeStyle s; fillStyle := fillStyle s; lineWidth := lineWidth s;
                       font := font s; transform := [a; b; c'; d; e; f] |}).

Definition beginPath (c : Ctx) : Ctx := set_path [] c.
Definition moveTo (x y : num) (c : Ctx) : Ctx := set_path (path c ++ [PMove (x, y)]) c.
Definition lineTo (x y : num) (c : Ctx) : Ctx := set_path (path c ++ [PLine (x, y)]) c.
Definition arc (x y r a0 a1 : num) (c : Ctx) : Ctx := set_path (path c ++ [PArc (x, y) r a0 a1]) c.
Definition closePath (c : Ctx) : Ctx := set_path (path c ++ [PClose]) c.

Definition stroke (c : Ctx) : Ctx := paint (PStroke (strokeStyle (cur c)) (lineWidth (cur c)) (path c)) c.
Definition fill (c : Ctx) : Ctx := paint (PFill (fillStyle (cur c)) (path c)) c.
Definition fillText (s : string) (x y : num) (c : Ctx) : Ctx :=
  paint (PText (fillStyle (cur c)) (font (cur c)) s (x, y)) c.
Definition clearRect (x y w h : num) (c : Ctx) : Ctx := paint (PClear x y w h) c.

(** Setting the canvas element's [width] or [height] resets the context:
    default state, empty stack and path, a cleared bitmap. *)
Definition reset (c : Ctx) : Ctx :=
  {| cur := default_state; saved := []; path := []; painted := painted c ++ [PReset] |}.

(** A straight-line sequence of context calls, first to last. *)
Fixpoint seq (ops : list (Ctx -> Ctx)) (c : Ctx) : Ctx :=
  match ops with [] => c | op :: rest => seq rest (op c) end.

(** ** Laws of the stack discipline *)

Lemma seq_app ops1 ops2 c : seq (ops1 ++ ops2) c = seq ops2 (seq ops1 c).
Proof. revert c; induction ops1; intros c; simpl; auto. Qed.

(** An operation that leaves the stack alone and touches the state only
    by painting or by setting it: what a [save()]/[restore()] pair
    brackets. *)
Definition stack_neutral (op : Ctx -> Ctx) : Prop := forall c, saved (op c) = saved c.

Lemma seq_stack_neutral ops : Forall stack_neutral ops -> stack_neutral (seq ops).
Proof.
  intros H. induction H as [|op ops Hop _ IH]; intros c; simpl; [reflexivity|].
  rewrite IH. apply Hop.
Qed.

(** [save(); ops; restore()] gives back the drawing state and the stack
    whatever the bracketed calls set, when they leave the stack alone. *)
Lemma save_restore_bracket ops c :
  Forall stack_neutral ops ->
  cur (restore (seq ops (save c))) = cur c /\ saved (restore (seq ops (save c))) = saved c.
Proof.
  intros H. pose proof (seq_stack_neutral ops H (save c)) as E.
  unfold restore. rewrite E. simpl. auto.
Qed.

Lemma painted_seq_prefix ops c :
  Forall (fun op => forall c, exists l, painted (op c) = painted c ++ l) ops ->
  exists l, painted (seq ops c) = painted c ++ l.
Proof.
  intros H. revert c. induction H as [|op ops Hop _ IH]; intros c; simpl.
  - exists []. rewrite app_nil_r. reflexivity.
  - destruct (Hop c) as [l1 E1]. destruct (IH (op c)) as [l2 E2].
    exists (l1 ++ l2). rewrite E2, E1, app_assoc. reflexivity.
Qed.

Ltac neutral := intros ?; reflexivity.

Lemma set_strokeStyle_neutral s : stack_neutral (set_strokeStyle s). Proof. neutral. Qed.
Lemma set_fillStyle_neutral s : stack_neutral (set_fillStyle s). Proof. neutral. Qed.
Lemma set_font_neutral s : stack_neutral (set_font s). Proof. neutral. Qed.
Lemma set_lineWidth_neutral w : stack_neutral (set_lineWidth w). Proof. neutral. Qed.
Lemma beginPath_neutral : stack_neutral beginPath. Proof. neutral. Qed.
Lemma moveTo_neutral x y : stack_neutral (moveTo x y). Proof. neutral. Qed.
Lemma lineTo_neutral x y : stack_neutral (lineTo x y). Proof. neutral. Qed.
Lemma arc_neutral x y r a0 a1 : stack_neutral (arc x y r a0 a1). Proof. neutral. Qed.
Lemma closePath_neutral : stack_neutral closePath. Proof. neutral. Qed.
Lemma stroke_neutral : stack_neutral stroke. Proof. neutral. Qed.
Lemma fill_neutral : stack_neutral fill. Proof. neutral. Qed.
Lemma fillText_neutral s x y : stack_neutral (fillText s x y). Proof. neutral. Qed.

#[export] Hint Resolve set_strokeStyle_neutral set_fillStyle_neutral set_font_neutral
  set_lineWidth_neutral beginPath_neutral moveTo_neutral lineTo_neutral arc_neutral
  closePath_neutral stroke_neutral fill_neutral fillText_neutral : vp.
