(* ===== verification/Graph.v ===== *)
(** * Graph: the drawing surface of [Graph.create] (src/app.js 58-169)

    The GraphRenderer of the spec.  The closure's state is a record: the
    canvas element (its [width]/[height] attributes and its CSS box), the
    2D context of Canvas.v, and the mutable [bounds].  Each inner function
    is a function on that record; [drawGrid] and [renderScene] return an
    option because their [for] loops need not terminate ([None] is a page
    that hangs), which the termination theorem rules out on finite bounds.

    The theorems show the grid step table of the spec, that the grid loop
    terminates on finite bounds with exactly the multiples of the step in
    the bounds (and diverges on an infinite bound), that rendering leaves
    the context's drawing state and save-stack as it found them, that
    [renderScene] paints exactly the declarative picture of the scene in
    order, that arrows never paint NaN, and that [resize] is idempotent on
    a laid-out canvas but not on a hidden one. *)

From S2P Require Import Prelude JsNumber Transform Canvas.

Local Open Scope Q_scope.
Local Open Scope string_scope.
Local Open Scope list_scope.

(** The canvas element: the [width]/[height] attributes (unsigned longs)
    and the CSS box [getBoundingClientRect()] reports. *)
Record CanvasEl : Type := mkCanvasEl { cwidth : Z; cheight : Z; box : Rect }.

(** The closure of [Graph.create]: [canvas], [ctx] and [let bounds]. *)
Record Graph : Type := mkGraph { canvas : CanvasEl; ctx : Ctx; bounds : Bounds }.

Definition with_ctx (c : Ctx) (g : Graph) : Graph := mkGraph (canvas g) c (bounds g).

(** ** [resize] *)

(** ToUint32 of WebIDL: NaN and infinities give 0, other values are
    truncated toward zero and taken modulo 2^32. *)
Definition to_uint32 (x : num) : Z :=
  match x with
  | Fin q => (if Qle_bool 0 q then Qfloor q else - Qfloor (- q)) mod 2 ^ 32
  | _ => 0
  end%Z.

(** Setting a reflected unsigned long attribute: values above 2^31-1 give
    the default (300 for [width], 150 for [height]). *)
Definition set_dim (default : Z) (x : num) : Z :=
  let v := to_uint32 x in if (v <=? 2147483647)%Z then v else default.

(** [function resize()]: [dpr] is [window.devicePixelRatio].  Each
    assignment to [canvas.width]/[canvas.height] resets the context. *)
Definition resize (devicePixelRatio : num) (g : Graph) : Graph :=
  let dpr := n_or devicePixelRatio (Fin 1) in
  let rect := box (canvas g) in
  let cssW := n_or (width rect) (Fin (inject_Z (cwidth (canvas g)))) in
  let cssH := n_or (height rect) (Fin (inject_Z (cheight (canvas g)))) in
  let w := set_dim 300 (n_round (cssW * dpr)%js) in
  let h := set_dim 150 (n_round (cssH * dpr)%js) in
  mkGraph (mkCanvasEl w h rect)
          (setTransform dpr (Fin 0) (Fin 0) dpr (Fin 0) (Fin 0) (reset (reset (ctx g))))
          (bounds g).

Definition fresh_ctx : Ctx := mkCtx default_state [] [] [].

Definition initial_bounds : Bounds := mkBounds (Fin (-10)) (Fin 10) (Fin (-10)) (Fin 10).

(** [Graph.create(canvas)]: a fresh context, [resize()], the initial
    bounds. *)
Definition create (el : CanvasEl) (devicePixelRatio : num) : Graph :=
  resize devicePixelRatio (mkGraph el fresh_ctx initial_bounds).

(** [function setBounds(b) { bounds = b; }]. *)
Definition setBounds (b : Bounds) (g : Graph) : Graph := mkGraph (canvas g) (ctx g) b.

(** [worldToScreen] and [screenToWorld] read the current bounds and box. *)
Definition wts (g : Graph) (pt : point) : point := worldToScreen (bounds g) (box (canvas g)) pt.
Definition stw (g : Graph) (px py : num) : point := screenToWorld (bounds g) (box (canvas g)) px py.

(** [function clear()]. *)
Definition clear (g : Graph) : Graph :=
  with_ctx (clearRect (Fin 0) (Fin 0) (Fin (inject_Z (cwidth (canvas g))))
                      (Fin (inject_Z (cheight (canvas g)))) (ctx g)) g.

(** ** The grid *)

(** [function pickStep(span)]. *)
Definition pickStep (span : point) : num :=
  let s := n_max (n_abs span.1) (n_abs span.2) in
  if n_le s (Fin 10) then Fin 1
  else if n_le s (Fin 20) then Fin 2
  else if n_le s (Fin 50) then Fin 5
  else Fin 10.

(** [for (let x = start; x <= hi; x += step)]: the values of [x] the body
    sees, or [None] when [fuel] iterations do not reach the exit. *)
Fixpoint grid_loop (fuel : nat) (x hi step : num) : option (list num) :=
  match fuel with
  | O => None
  | S f => if n_le x hi then cons x <$> grid_loop f (x + step)%js hi step else Some []
  end.

(** [Math.ceil(lo/step)*step]. *)
Definition grid_start (lo step : num) : num := (n_ceil (lo / step) * step)%js.

(** Iterations enough for a terminating loop: [(hi - lo)/step + 2] on
    finite data, none otherwise (grid_loop_diverges shows that no number of
    iterations is then enough). *)
Definition grid_fuel (lo hi step : num) : nat :=
  match lo, hi, step with
  | Fin l, Fin h, Fin s => S (S (Z.to_nat (Qceiling ((h - l) / s))))
  | _, _, _ => O
  end.

Definition grid_values (lo hi step : num) : option (list num) :=
  grid_loop (grid_fuel lo hi step) (grid_start lo step) hi step.

(** One vertical grid line at world [x], one horizontal at world [y]. *)
Definition vline (g : Graph) (x : num) : list (Ctx -> Ctx) :=
  let sx := (wts g (x, Fin 0)).1 in
  [beginPath; moveTo sx (Fin 0); lineTo sx (height (box (canvas g))); stroke].
Definition hline (g : Graph) (y : num) : list (Ctx -> Ctx) :=
  let sy := (wts g (Fin 0, y)).2 in
  [beginPath; moveTo (Fin 0) sy; lineTo (width (box (canvas g))) sy; stroke].

(** The calls of [drawGrid] once the two loops have run. *)
Definition grid_ops (g : Graph) (xs ys : list num) : list (Ctx -> Ctx) :=
  let sx0 := (wts g (Fin 0, Fin 0)).1 in
  let sy0 := (wts g (Fin 0, Fin 0)).2 in
  [save; set_lineWidth (Fin 1); set_strokeStyle "rgba(255,255,255,0.07)"] ++
  concat (map (vline g) xs) ++ concat (map (hline g) ys) ++
  [set_strokeStyle "rgba(255,255,255,0.35)";
   beginPath; moveTo sx0 (Fin 0); lineTo sx0 (height (box (canvas g))); stroke;
   beginPath; moveTo (Fin 0) sy0; lineTo (width (box (canvas g))) sy0; stroke;
   restore].

(** [function drawGrid()]: the step is picked from the x bounds and used
    for both axes. *)
Definition drawGrid (g : Graph) : option Graph :=
  let b := bounds g in
  let step := pickStep (xMin b, xMax b) in
  xs ← grid_values (xMin b) (xMax b) step;
  ys ← grid_values (yMin b) (yMax b) step;
  Some (with_ctx (seq (grid_ops g xs ys) (ctx g)) g).

(** ** Points, arrows, scenes *)

(** [Math.PI], the binary64 value, and [Math.PI * 2]. *)
Definition math_PI : Q := 884279719003555 # 281474976710656.
Definition two_pi : num := (Fin math_PI * Fin 2)%js.

(** [if (label)]: [undefined] and the empty string are falsy. *)
Definition label_text (label : option string) : option string :=
  match label with Some s => if String.eqb s "" then None else Some s | None => None end.

(** The calls of [drawPoint(pt, color, label)]. *)
Definition point_ops (g : Graph) (pt : point) (color : string) (label : option string) :
  list (Ctx -> Ctx) :=
  let '(x, y) := wts g pt in
  [save; set_fillStyle color; beginPath; arc x y (Fin 4) (Fin 0) two_pi; fill] ++
  match label_text label with
  | Some l => [set_fillStyle "rgba(229,231,235,0.9)"; set_font "12px system-ui";
               fillText l (x + Fin 6)%js (y - Fin 6)%js]
  | None => []
  end ++ [restore].

Definition drawPoint (pt : point) (color : string) (label : option string) (g : Graph) : Graph :=
  with_ctx (seq (point_ops g pt color label) (ctx g)) g.

(** The arrow-head corners of [drawArrow]: [ah = 10] pixels back from the
    tip along the unit direction, half as far to each side. *)
Definition head_left (x2 y2 ux uy : num) : point :=
  ((x2 - Fin 10 * (ux - Fin (1 # 2) * uy))%js, (y2 - Fin 10 * (uy + Fin (1 # 2) * ux))%js).
Definition head_right (x2 y2 ux uy : num) : point :=
  ((x2 - Fin 10 * (ux + Fin (1 # 2) * uy))%js, (y2 - Fin 10 * (uy - Fin (1 # 2) * ux))%js).

(** The unit direction [(dx/len, dy/len)] with [len = Math.hypot(dx, dy) || 1]. *)
Definition unit_dir (dx dy : num) : point :=
  let len := n_or (hypot dx dy) (Fin 1) in ((dx / len)%js, (dy / len)%js).

(** The calls of [drawArrow(from, to, color)]. *)
Definition arrow_ops (g : Graph) (from to : point) (color : string) : list (Ctx -> Ctx) :=
  let '(x1, y1) := wts g from in
  let '(x2, y2) := wts g to in
  let '(ux, uy) := unit_dir (x2 - x1)%js (y2 - y1)%js in
  let hl := head_left x2 y2 ux uy in
  let hr := head_right x2 y2 ux uy in
  [save; set_strokeStyle color; set_lineWidth (Fin 2);
   beginPath; moveTo x1 y1; lineTo x2 y2; stroke;
   beginPath; moveTo x2 y2; lineTo hl.1 hl.2; lineTo hr.1 hr.2; closePath;
   set_fillStyle color; fill; restore].

Definition drawArrow (from to : point) (color : string) (g : Graph) : Graph :=
  with_ctx (seq (arrow_ops g from to color) (ctx g)) g.

(** The scene items built by [drawQuestionGraph]: [{type: 'point', p,
    label, color}] and [{type: 'arrow', from, to, color}]. *)
Inductive SceneItem : Type :=
| SPoint (p : point) (label : option string) (color : string)
| SArrow (from to : point) (color : string).

Definition draw_item (g : Graph) (item : SceneItem) : Graph :=
  match item with
  | SPoint p label color => drawPoint p color label g
  | SArrow from to color => drawArrow from to color g
  end.

(** [function renderScene(scene)]: clear, grid, then the items in order. *)
Definition renderScene (scene : list SceneItem) (g : Graph) : option Graph :=
  g' ← drawGrid (clear g);
  Some (fold_left draw_item scene g').

(** ** The grid loop *)

(** The multiples [k·s] for [k0 <= k <= k1], in increasing order. *)
Definition multiples (s : Q) (k0 k1 : Z) : list num :=
  (fun k => Fin (inject_Z k * s)) <$> seqZ k0 (k1 - k0 + 1).

Lemma multiples_cons s k0 k1 :
  (k0 <= k1)%Z -> multiples s k0 k1 = Fin (inject_Z k0 * s) :: multiples s (k0 + 1) k1.
Proof.
  intros H. unfold multiples. rewrite seqZ_cons by lia. simpl.
  do 3 f_equal; lia.
Qed.

Lemma multiples_nil s k0 k1 : (k1 < k0)%Z -> multiples s k0 k1 = [].
Proof. intros H. unfold multiples. rewrite seqZ_nil by lia. reflexivity. Qed.

(** The multiples of [s] listed are exactly those of [[lo, hi]]. *)
Lemma multiples_spec s lo hi x :
  0 < s ->
  x ∈ multiples s (Qceiling (lo / s)) (Qfloor (hi / s)) <->
  exists k : Z, x = Fin (inject_Z k * s) /\ lo <= inject_Z k * s <= hi.
Proof.
  intros Hs. unfold multiples. rewrite list_elem_of_fmap. setoid_rewrite elem_of_seqZ.
  split.
  - intros (k & -> & Hk). exists k. split; [reflexivity|]. split.
    + pose proof (Qceiling_spec (lo / s)) as [C1 C2].
      assert (L : inject_Z (Qceiling (lo / s)) <= inject_Z k) by (apply (proj1 (inject_Z_le _ _)); lia).
      assert (lo / s * s <= inject_Z k * s) by (apply Qmult_le_compat_r; lra).
      assert (lo / s * s == lo) by (field; intro; lra). lra.
    + apply Qmult_le_floor; [exact Hs | lia].
  - intros (k & -> & H1 & H2). exists k. split; [reflexivity|].
    apply Qmult_le_floor in H2; [|exact Hs].
    assert (lo / s <= inject_Z k) by (apply Qle_shift_div_r; [exact Hs|]; lra).
    assert (Qceiling (lo / s) <= k)%Z.
    { pose proof (Qceiling_spec (lo / s)) as [C1 C2].
      assert (L : inject_Z (Qceiling (lo / s) - 1) < inject_Z k) by qlra.
      apply inject_Z_lt in L. lia. }
    lia.
Qed.

#[export] Instance grid_loop_proper fuel : Proper ((≡) ==> (≡) ==> (≡) ==> (≡)) (grid_loop fuel).
Proof.
  induction fuel as [|fuel IH]; intros x x' Hx h h' Hh s s' Hs; simpl; [reflexivity|].
  rewrite (n_le_proper _ _ Hx _ _ Hh). destruct (n_le x' h'); [|reflexivity].
  pose proof (IH _ _ (n_add_proper _ _ Hx _ _ Hs) _ _ Hh _ _ Hs) as E.
  destruct E; constructor. constructor; assumption.
Qed.

Lemma grid_loop_from fuel s hi (k : Z) :
  0 < s -> (Z.to_nat (Qfloor (hi / s) - k + 1) < fuel)%nat ->
  grid_loop fuel (Fin (inject_Z k * s)) (Fin hi) (Fin s) ≡ Some (multiples s k (Qfloor (hi / s))).
Proof.
  revert k. induction fuel as [|fuel IH]; intros k Hs Hf; [lia|]. simpl.
  destruct (Qle_bool (inject_Z k * s) hi) eqn:L.
  - apply Qle_bool_iff, (Qmult_le_floor k s hi Hs) in L.
    rewrite multiples_cons by exact L.
    assert (E : Fin (inject_Z k * s + s) ≡ Fin (inject_Z (k + 1) * s))
      by (apply Fin_equiv; rewrite inject_Z_plus; ring).
    rewrite E, (IH (k + 1)%Z Hs ltac:(lia)). reflexivity.
  - rewrite multiples_nil; [reflexivity|].
    destruct (Z_lt_le_dec (Qfloor (hi / s)) k) as [H|H]; [exact H|].
    apply (Qmult_le_floor k s hi Hs), Qle_bool_iff in H. congruence.
Qed.

Lemma grid_start_Fin lo s :
  0 < s -> grid_start (Fin lo) (Fin s) ≡ Fin (inject_Z (Qceiling (lo / s)) * s).
Proof. intros Hs. unfold grid_start. js_simpl. reflexivity. Qed.

Lemma grid_fuel_enough lo hi s :
  0 < s -> (Z.to_nat (Qfloor (hi / s) - Qceiling (lo / s) + 1) < grid_fuel (Fin lo) (Fin hi) (Fin s))%nat.
Proof.
  intros Hs. cbn [grid_fuel].
  pose proof (Qceiling_spec (lo / s)) as [C1 C2]. pose proof (Qfloor_spec (hi / s)) as [F1 F2].
  pose proof (Qceiling_spec ((hi - lo) / s)) as [D1 D2].
  assert (E : (hi - lo) / s == hi / s - lo / s) by (field; intro; lra).
  assert (L : inject_Z (Qfloor (hi / s) - Qceiling (lo / s)) <= inject_Z (Qceiling ((hi - lo) / s)))
    by qlra.
  apply inject_Z_le in L. lia.
Qed.

(** On finite data the loop runs to its exit and sees exactly the
    multiples of the step within [[lo, hi]]. *)
Lemma grid_values_Fin lo hi s :
  0 < s -> grid_values (Fin lo) (Fin hi) (Fin s) ≡ Some (multiples s (Qceiling (lo / s)) (Qfloor (hi / s))).
Proof.
  intros Hs. unfold grid_values. rewrite (grid_start_Fin lo s Hs).
  apply grid_loop_from; [exact Hs | apply grid_fuel_enough; exact Hs].
Qed.

Lemma pickStep_pos span : exists s, pickStep span = Fin s /\ 0 < s.
Proof.
  unfold pickStep.
  destruct (n_le _ (Fin 10)); [|destruct (n_le _ (Fin 20)); [|destruct (n_le _ (Fin 50))]];
    eexists; split; try reflexivity; lra.
Qed.

Lemma option_equiv_Some_inv {A} `{Equiv A} (o : option A) (y : A) :
  o ≡ Some y -> exists x, o = Some x /\ x ≡ y.
Proof. intros E. inversion E as [x y' Hxy Ho Hy|]; subst. eauto. Qed.

(** ** Properties of the grid *)

(** The spec's step table: the grid step chosen from bounds of
    magnitude 8, 15, 35 and 80 is 1, 2, 5 and 10. *)
Example pickStep_table :
  pickStep (Fin (-8), Fin 8) = Fin 1 /\ pickStep (Fin (-15), Fin 15) = Fin 2 /\
  pickStep (Fin (-35), Fin 35) = Fin 5 /\ pickStep (Fin (-80), Fin 80) = Fin 10.
Proof. repeat split. Qed.

(** C12: termination of [drawGrid]: on finite bounds both [for] loops
    exit, the vertical lines being drawn at exactly the multiples of the
    step in [[xMin, xMax]] and the horizontal ones at the multiples in
    [[yMin, yMax]], in increasing order; the step is a positive number
    picked from the x bounds. *)
Theorem drawGrid_terminates g x0 x1 y0 y1 :
  bounds g = mkBounds (Fin x0) (Fin x1) (Fin y0) (Fin y1) ->
  exists s xs ys,
    pickStep (Fin x0, Fin x1) = Fin s /\ 0 < s /\
    drawGrid g = Some (with_ctx (seq (grid_ops g xs ys) (ctx g)) g) /\
    xs ≡ multiples s (Qceiling (x0 / s)) (Qfloor (x1 / s)) /\
    ys ≡ multiples s (Qceiling (y0 / s)) (Qfloor (y1 / s)).
Proof.
  intros Hb. destruct (pickStep_pos (Fin x0, Fin x1)) as (s & Es & Hs).
  destruct (option_equiv_Some_inv _ _ (grid_values_Fin x0 x1 s Hs)) as (xs & Ex & Hx).
  destruct (option_equiv_Some_inv _ _ (grid_values_Fin y0 y1 s Hs)) as (ys & Ey & Hy).
  exists s, xs, ys. repeat split; try assumption.
  unfold drawGrid. rewrite Hb. cbn [xMin xMax yMin yMax]. rewrite Es, Ex, Ey. reflexivity.
Qed.

Lemma drawGrid_terminates_witness :
  bounds (create (mkCanvasEl 300 150 (mkRect (Fin 100) (Fin 100))) (Fin 1)) =
    mkBounds (Fin (-10)) (Fin 10) (Fin (-10)) (Fin 10) /\
  exists s xs ys,
    pickStep (Fin (-10), Fin 10) = Fin s /\ 0 < s /\
    drawGrid (create (mkCanvasEl 300 150 (mkRect (Fin 100) (Fin 100))) (Fin 1)) =
      Some (with_ctx (seq (grid_ops (create (mkCanvasEl 300 150 (mkRect (Fin 100) (Fin 100))) (Fin 1)) xs ys)
              (ctx (create (mkCanvasEl 300 150 (mkRect (Fin 100) (Fin 100))) (Fin 1))))
            (create (mkCanvasEl 300 150 (mkRect (Fin 100) (Fin 100))) (Fin 1))) /\
    xs ≡ multiples s (Qceiling (-10 / s)) (Qfloor (10 / s)) /\
    ys ≡ multiples s (Qceiling (-10 / s)) (Qfloor (10 / s)).
Proof.
  split; [reflexivity|]. apply drawGrid_terminates. reflexivity.
Defined.

(** C37: divergence of the grid loop: with an infinite upper bound, or
    with [xMin = -Infinity] (its start is then [-Infinity], which [+= step]
    never moves), no number of iterations reaches the loop's exit, so
    [drawGrid] would hang; the code's only bounds are finite. *)
Theorem grid_loop_diverges (lo s : Q) (hi : num) (fuel : nat) :
  0 < s ->
  grid_loop fuel (grid_start (Fin lo) (Fin s)) PInf (Fin s) = None /\
  (hi <> NaN -> grid_loop fuel (grid_start NInf (Fin s)) hi (Fin s) = None).
Proof.
  intros Hs. split.
  - assert (Hx : grid_start (Fin lo) (Fin s) <> NaN)
      by (unfold grid_start; rewrite n_div_Fin by (intro; lra); discriminate).
    revert Hx. generalize (grid_start (Fin lo) (Fin s)). intros x Hx.
    revert x Hx. induction fuel as [|fuel IH]; intros x Hx; [reflexivity|].
    destruct x as [q| | |]; cbn [grid_loop n_le n_add]; try congruence;
      rewrite IH by discriminate; reflexivity.
  - intros Hh. assert (E : grid_start NInf (Fin s) = NInf).
    { unfold grid_start, n_ceil, n_lift, n_div, n_mul.
      destruct (s ?= 0)%Q eqn:C; [apply Qeq_alt in C; lra | apply Qlt_alt in C; lra | reflexivity]. }
    rewrite E. induction fuel as [|fuel IH]; [reflexivity|]. cbn [grid_loop].
    destruct hi; try congruence; cbn [n_le n_add]; rewrite IH; reflexivity.
Qed.

Lemma grid_loop_diverges_witness :
  (0 < 1 /\ Fin 10 <> NaN) /\
  grid_loop 1000 (grid_start (Fin 0) (Fin 1)) PInf (Fin 1) = None /\
  grid_loop 1000 (grid_start NInf (Fin 1)) (Fin 10) (Fin 1) = None.
Proof.
  split; [split; [reflexivity | discriminate]|].
  destruct (grid_loop_diverges 0 1 (Fin 10) 1000 ltac:(reflexivity)) as [H1 H2].
  split; [exact H1 | apply H2; discriminate].
Defined.

(** ** What drawing does to the context *)

Lemma concat_map_neutral {A} (f : A -> list (Ctx -> Ctx)) (xs : list A) :
  (forall x, Forall stack_neutral (f x)) -> Forall stack_neutral (concat (map f xs)).
Proof.
  intros H. induction xs as [|x xs IH]; simpl; [constructor|]. apply Forall_app; auto.
Qed.

Ltac neutral_ops :=
  repeat first [ apply Forall_app; split | apply Forall_cons; split | apply Forall_nil
               | apply concat_map_neutral; intros ?; unfold vline, hline
               | solve [auto with vp] ].

(** [save(); ...; restore()] with stack-neutral calls in between. *)
Lemma bracket_state inner c :
  Forall stack_neutral inner ->
  cur (seq (save :: inner ++ [restore]) c) = cur c /\ saved (seq (save :: inner ++ [restore]) c) = saved c.
Proof. intros H. simpl. rewrite seq_app. simpl. apply save_restore_bracket. exact H. Qed.

Lemma grid_ops_shape g xs ys :
  grid_ops g xs ys =
  save :: ([set_lineWidth (Fin 1); set_strokeStyle "rgba(255,255,255,0.07)"] ++
           concat (map (vline g) xs) ++ concat (map (hline g) ys) ++
           [set_strokeStyle "rgba(255,255,255,0.35)";
            beginPath; moveTo (wts g (Fin 0, Fin 0)).1 (Fin 0);
            lineTo (wts g (Fin 0, Fin 0)).1 (height (box (canvas g))); stroke;
            beginPath; moveTo (Fin 0) (wts g (Fin 0, Fin 0)).2;
            lineTo (width (box (canvas g))) (wts g (Fin 0, Fin 0)).2; stroke]) ++ [restore].
Proof. unfold grid_ops. simpl. rewrite <- !app_assoc. reflexivity. Qed.

Lemma grid_ops_state g xs ys c : cur (seq (grid_ops g xs ys) c) = cur c /\ saved (seq (grid_ops g xs ys) c) = saved c.
Proof. rewrite grid_ops_shape. apply bracket_state. neutral_ops. Qed.

Lemma point_ops_state g pt color label c :
  cur (seq (point_ops g pt color label) c) = cur c /\ saved (seq (point_ops g pt color label) c) = saved c.
Proof. unfold point_ops. destruct (wts g pt) as [x y]. destruct (label_text label); simpl; auto. Qed.

Lemma arrow_ops_state g from to color c :
  cur (seq (arrow_ops g from to color) c) = cur c /\ saved (seq (arrow_ops g from to color) c) = saved c.
Proof. unfold arrow_ops. destruct (wts g from), (wts g to), (unit_dir _ _). simpl; auto. Qed.

Lemma draw_item_state g item : cur (ctx (draw_item g item)) = cur (ctx g) /\ saved (ctx (draw_item g item)) = saved (ctx g).
Proof. destruct item; [apply point_ops_state | apply arrow_ops_state]. Qed.

Lemma fold_draw_item_state scene g :
  cur (ctx (fold_left draw_item scene g)) = cur (ctx g) /\ saved (ctx (fold_left draw_item scene g)) = saved (ctx g).
Proof.
  revert g. induction scene as [|i scene IH]; intros g; simpl; [auto|].
  destruct (IH (draw_item g i)) as [E1 E2]. destruct (draw_item_state g i) as [F1 F2].
  split; congruence.
Qed.


Lemma drawGrid_Some g g' :
  drawGrid g = Some g' ->
  exists xs ys, grid_values (xMin (bounds g)) (xMax (bounds g)) (pickStep (xMin (bounds g), xMax (bounds g))) = Some xs /\
    grid_values (yMin (bounds g)) (yMax (bounds g)) (pickStep (xMin (bounds g), xMax (bounds g))) = Some ys /\
    g' = with_ctx (seq (grid_ops g xs ys) (ctx g)) g.
Proof.
  unfold drawGrid, mbind, option_bind.
  destruct (grid_values _ _ _) as [xs|]; [|discriminate].
  destruct (grid_values _ _ _) as [ys|]; [|discriminate].
  intros [= <-]. eauto.
Qed.

Lemma renderScene_Some scene g g' :
  renderScene scene g = Some g' ->
  exists g1, drawGrid (clear g) = Some g1 /\ g' = fold_left draw_item scene g1.
Proof.
  unfold renderScene, mbind, option_bind. destruct (drawGrid (clear g)) as [g1|]; [|discriminate].
  intros [= <-]. eauto.
Qed.
(** C22: rendering leaves the context as it found it: [renderScene]
    paints, but its drawing state (styles, line width, font, transform)
    and its save stack afterwards are those before, since every
    [ctx.save()] of [drawGrid], [drawPoint] and [drawArrow] is matched by a
    [ctx.restore()]. *)
Theorem renderScene_preserves_state scene g g' :
  renderScene scene g = Some g' -> cur (ctx g') = cur (ctx g) /\ saved (ctx g') = saved (ctx g).
Proof.
  intros (g1 & (xs & ys & _ & _ & ->)%drawGrid_Some & ->)%renderScene_Some.
  destruct (fold_draw_item_state scene (with_ctx (seq (grid_ops (clear g) xs ys)
    (ctx (clear g))) (clear g))) as [E1 E2]. rewrite E1, E2. cbn [ctx with_ctx].
  destruct (grid_ops_state (clear g) xs ys (ctx (clear g))) as [F1 F2].
  rewrite F1, F2. split; reflexivity.
Qed.

Definition sample_canvas : CanvasEl := mkCanvasEl 300 150 (mkRect (Fin 100) (Fin 100)).

Lemma renderScene_preserves_state_witness :
  let g0 := create sample_canvas (Fin 1) in
  let sc := [SPoint (Fin 1, Fin 2) (Some "P") "#38bdf8"; SArrow (Fin 0, Fin 0) (Fin 3, Fin 4) "#22c55e"] in
  let g' := default g0 (renderScene sc g0) in
  renderScene sc g0 = Some g' /\ cur (ctx g') = cur (ctx g0) /\ saved (ctx g') = saved (ctx g0).
Proof.
  intros g0 sc g'. assert (H : renderScene sc g0 = Some g') by (vm_compute; reflexivity).
  split; [exact H | apply (renderScene_preserves_state sc g0 g' H)].
Defined.

(** ** The picture a scene paints *)

Definition grid_color : string := "rgba(255,255,255,0.07)".
Definition axis_color : string := "rgba(255,255,255,0.35)".

(** The strokes of [drawGrid]: one per grid value on each axis, then the
    two axes, with line width 1. *)
Definition grid_picture (g : Graph) (xs ys : list num) : list Paint :=
  let W := width (box (canvas g)) in
  let H := height (box (canvas g)) in
  let o := wts g (Fin 0, Fin 0) in
  map (fun x => PStroke grid_color (Fin 1) [PMove ((wts g (x, Fin 0)).1, Fin 0);
                                            PLine ((wts g (x, Fin 0)).1, H)]) xs ++
  map (fun y => PStroke grid_color (Fin 1) [PMove (Fin 0, (wts g (Fin 0, y)).2);
                                            PLine (W, (wts g (Fin 0, y)).2)]) ys ++
  [PStroke axis_color (Fin 1) [PMove (o.1, Fin 0); PLine (o.1, H)];
   PStroke axis_color (Fin 1) [PMove (Fin 0, o.2); PLine (W, o.2)]].

(** What one scene item paints: a filled disc of radius 4 and its label
    offset by (6, -6); a segment of width 2 and a filled triangular head. *)
Definition item_picture (g : Graph) (item : SceneItem) : list Paint :=
  match item with
  | SPoint p label color =>
      let '(x, y) := wts g p in
      PFill color [PArc (x, y) (Fin 4) (Fin 0) two_pi] ::
      match label_text label with
      | Some l => [PText "rgba(229,231,235,0.9)" "12px system-ui" l ((x + Fin 6)%js, (y - Fin 6)%js)]
      | None => []
      end
  | SArrow from to color =>
      let '(x1, y1) := wts g from in
      let '(x2, y2) := wts g to in
      let '(ux, uy) := unit_dir (x2 - x1)%js (y2 - y1)%js in
      [PStroke color (Fin 2) [PMove (x1, y1); PLine (x2, y2)];
       PFill color [PMove (x2, y2); PLine (head_left x2 y2 ux uy); PLine (head_right x2 y2 ux uy); PClose]]
  end.

Lemma painted_restore c : painted (restore c) = painted c.
Proof. unfold restore. destruct (saved c); reflexivity. Qed.

(** A loop body that paints one thing, in the current style, and leaves
    the style alone: the loop paints one such thing per value. *)
Lemma loop_paint (f : num -> list (Ctx -> Ctx)) (p : num -> DrawState -> Paint) (xs : list num) c :
  (forall x c, painted (seq (f x) c) = painted c ++ [p x (cur c)] /\ cur (seq (f x) c) = cur c) ->
  painted (seq (concat (map f xs)) c) = painted c ++ map (fun x => p x (cur c)) xs /\
  cur (seq (concat (map f xs)) c) = cur c.
Proof.
  intros Hf. revert c. induction xs as [|x xs IH]; intros c; simpl; [rewrite app_nil_r; auto|].
  rewrite seq_app. destruct (Hf x c) as [F1 F2]. destruct (IH (seq (f x) c)) as [E1 E2].
  rewrite E1, E2, F1, F2, <- app_assoc. auto.
Qed.

Lemma vline_paint g x c :
  painted (seq (vline g x) c) =
    painted c ++ [PStroke (strokeStyle (cur c)) (lineWidth (cur c))
                    [PMove ((wts g (x, Fin 0)).1, Fin 0); PLine ((wts g (x, Fin 0)).1, height (box (canvas g)))]] /\
  cur (seq (vline g x) c) = cur c.
Proof. split; reflexivity. Qed.

Lemma hline_paint g y c :
  painted (seq (hline g y) c) =
    painted c ++ [PStroke (strokeStyle (cur c)) (lineWidth (cur c))
                    [PMove (Fin 0, (wts g (Fin 0, y)).2); PLine (width (box (canvas g)), (wts g (Fin 0, y)).2)]] /\
  cur (seq (hline g y) c) = cur c.
Proof. split; reflexivity. Qed.

Lemma grid_ops_paint g xs ys c : painted (seq (grid_ops g xs ys) c) = painted c ++ grid_picture g xs ys.
Proof.
  rewrite grid_ops_shape. cbn [seq]. rewrite !seq_app.
  set (c1 := seq [set_lineWidth (Fin 1); set_strokeStyle "rgba(255,255,255,0.07)"] (save c)).
  destruct (loop_paint (vline g) (fun x d => PStroke (strokeStyle d) (lineWidth d)
    [PMove ((wts g (x, Fin 0)).1, Fin 0); PLine ((wts g (x, Fin 0)).1, height (box (canvas g)))])
    xs c1 (vline_paint g)) as [A1 A2].
  set (c2 := seq (concat (map (vline g) xs)) c1) in *.
  destruct (loop_paint (hline g) (fun y d => PStroke (strokeStyle d) (lineWidth d)
    [PMove (Fin 0, (wts g (Fin 0, y)).2); PLine (width (box (canvas g)), (wts g (Fin 0, y)).2)])
    ys c2 (hline_paint g)) as [B1 B2].
  set (c3 := seq (concat (map (hline g) ys)) c2) in *.
  cbn [seq]. rewrite painted_restore.
  cbn [painted stroke lineTo moveTo beginPath set_strokeStyle set_cur set_path paint cur strokeStyle lineWidth].
  rewrite B1, B2, A1, A2. unfold c1.
  cbn [seq painted cur save set_lineWidth set_strokeStyle set_cur strokeStyle lineWidth n_lt n_le
       is_finite andb negb Qle_bool].
  unfold grid_picture. rewrite <- !app_assoc. reflexivity.
Qed.

Lemma draw_item_paint g item : painted (ctx (draw_item g item)) = painted (ctx g) ++ item_picture g item.
Proof.
  destruct item as [p label color | from to color];
    unfold draw_item, drawPoint, drawArrow, point_ops, arrow_ops, item_picture; cbn [ctx with_ctx].
  - destruct (wts g p) as [x y]. destruct (label_text label); simpl; rewrite <- ?app_assoc; reflexivity.
  - destruct (wts g from) as [x1 y1], (wts g to) as [x2 y2], (unit_dir _ _) as [ux uy].
    simpl. rewrite <- ?app_assoc. reflexivity.
Qed.

Lemma draw_item_frame g item : canvas (draw_item g item) = canvas g /\ bounds (draw_item g item) = bounds g.
Proof. destruct item; split; reflexivity. Qed.

Lemma item_picture_frame g1 g2 :
  canvas g1 = canvas g2 -> bounds g1 = bounds g2 -> item_picture g1 = item_picture g2.
Proof. intros E1 E2. unfold item_picture, wts. rewrite E1, E2. reflexivity. Qed.

Lemma fold_draw_item_paint scene g :
  painted (ctx (fold_left draw_item scene g)) = painted (ctx g) ++ concat (map (item_picture g) scene).
Proof.
  revert g. induction scene as [|i scene IH]; intros g; simpl; [rewrite app_nil_r; reflexivity|].
  rewrite IH, draw_item_paint, <- app_assoc.
  destruct (draw_item_frame g i) as [E1 E2]. rewrite (item_picture_frame _ _ E1 E2). reflexivity.
Qed.

(** C13: refinement of the drawing: a rendered scene adds to the canvas
    exactly its declarative picture, in this order: the clearing of the
    whole canvas, one stroke per grid value of each axis and the two axes
    ([grid_picture], the grid values being those of the two [for] loops),
    then each item's marks ([item_picture]) in the order of the scene, so
    later items are painted over earlier ones. *)
Theorem renderScene_picture scene g g' :
  renderScene scene g = Some g' ->
  exists xs ys,
    grid_values (xMin (bounds g)) (xMax (bounds g)) (pickStep (xMin (bounds g), xMax (bounds g))) = Some xs /\
    grid_values (yMin (bounds g)) (yMax (bounds g)) (pickStep (xMin (bounds g), xMax (bounds g))) = Some ys /\
    painted (ctx g') =
      painted (ctx g) ++
      [PClear (Fin 0) (Fin 0) (Fin (inject_Z (cwidth (canvas g)))) (Fin (inject_Z (cheight (canvas g))))] ++
      grid_picture g xs ys ++ concat (map (item_picture g) scene).
Proof.
  intros (g1 & (xs & ys & Ex & Ey & ->)%drawGrid_Some & ->)%renderScene_Some.
  exists xs, ys. split; [exact Ex|]. split; [exact Ey|].
  rewrite fold_draw_item_paint. cbn [ctx with_ctx]. rewrite grid_ops_paint.
  cbn [clear ctx with_ctx clearRect paint painted]. rewrite <- !app_assoc. reflexivity.
Qed.

Lemma renderScene_picture_witness :
  let g0 := create sample_canvas (Fin 1) in
  let sc := [SPoint (Fin 1, Fin 2) (Some "P") "#38bdf8"; SArrow (Fin 0, Fin 0) (Fin 3, Fin 4) "#22c55e"] in
  let g' := default g0 (renderScene sc g0) in
  renderScene sc g0 = Some g' /\
  exists xs ys,
    grid_values (xMin (bounds g0)) (xMax (bounds g0)) (pickStep (xMin (bounds g0), xMax (bounds g0))) = Some xs /\
    grid_values (yMin (bounds g0)) (yMax (bounds g0)) (pickStep (xMin (bounds g0), xMax (bounds g0))) = Some ys /\
    painted (ctx g') =
      painted (ctx g0) ++
      [PClear (Fin 0) (Fin 0) (Fin (inject_Z (cwidth (canvas g0)))) (Fin (inject_Z (cheight (canvas g0))))] ++
      grid_picture g0 xs ys ++ concat (map (item_picture g0) sc).
Proof.
  intros g0 sc g'. assert (H : renderScene sc g0 = Some g') by (vm_compute; reflexivity).
  split; [exact H | apply (renderScene_picture sc g0 g' H)].
Defined.

(** ** Arrows and resizing *)

Definition finite_point (p : point) : bool := is_finite p.1 && is_finite p.2.

(** The coordinates a paint operation places on the canvas. *)
Definition path_points (pth : list PathEl) : list point :=
  concat (map (fun e => match e with PMove p | PLine p => [p] | PArc c _ _ _ => [c] | PClose => [] end) pth).

Definition paint_points (x : Paint) : list point :=
  match x with
  | PStroke _ _ pth | PFill _ pth => path_points pth
  | PText _ _ _ p => [p]
  | PClear x y w h => [(x, y); (w, h)]
  | PReset => []
  end.

Lemma unit_dir_Fin dx dy : exists ux uy, unit_dir (Fin dx) (Fin dy) = (Fin ux, Fin uy).
Proof.
  unfold unit_dir, n_or, truthy, hypot.
  destruct (Qeq_bool (qsqrt (dx * dx + dy * dy)) 0) eqn:E; cbn [negb].
  - rewrite !n_div_Fin by (intro; discriminate). eauto.
  - apply Qeq_bool_neq in E. rewrite !n_div_Fin by exact E. eauto.
Qed.

(** C15: [drawArrow] never paints NaN: for valid bounds, a laid-out canvas
    and finite endpoints, every coordinate of the segment and of the head
    is finite, also for a zero-length arrow (the [|| 1] guard replaces the
    zero length, which the inverse question draws when [v = (0, 0)]). *)
Theorem arrow_picture_finite g from to color :
  valid_bounds (bounds g) = true -> valid_rect (box (canvas g)) = true ->
  finite_point from = true -> finite_point to = true ->
  Forall (fun x => Forall (fun p => finite_point p = true) (paint_points x))
         (item_picture g (SArrow from to color)).
Proof.
  intros Hb Hr Hf Ht. destruct from as [[a1| | |] [b1| | |]]; try discriminate.
  destruct to as [[a2| | |] [b2| | |]]; try discriminate.
  cbn [item_picture]. unfold wts.
  destruct (worldToScreen_finite _ _ a1 b1 Hb Hr) as (x1 & y1 & ->).
  destruct (worldToScreen_finite _ _ a2 b2 Hb Hr) as (x2 & y2 & ->).
  unfold n_sub. cbn [n_opp n_add].
  destruct (unit_dir_Fin (x2 + - x1) (y2 + - y1)) as (ux & uy & ->).
  repeat constructor.
Qed.

Lemma arrow_picture_finite_witness :
  let g0 := create sample_canvas (Fin 1) in
  (valid_bounds (bounds g0) = true /\ valid_rect (box (canvas g0)) = true /\
   finite_point (Fin 0, Fin 0) = true /\ finite_point (Fin 0, Fin 0) = true) /\
  Forall (fun x => Forall (fun p => finite_point p = true) (paint_points x))
         (item_picture g0 (SArrow (Fin 0, Fin 0) (Fin 0, Fin 0) "#22c55e")).
Proof.
  intros g0. assert (H : valid_bounds (bounds g0) = true /\ valid_rect (box (canvas g0)) = true /\
    finite_point (Fin 0, Fin 0) = true /\ finite_point (Fin 0, Fin 0) = true) by (vm_compute; auto).
  split; [exact H|]. destruct H as (H1 & H2 & H3 & H4).
  apply (arrow_picture_finite g0 _ _ _ H1 H2 H3 H4).
Defined.

(** C34: [resize] is idempotent on a laid-out canvas (non-zero CSS size):
    a second call leaves the backing-store size, the context's state,
    stack and path, and the bounds as the first call left them.  Each call
    also wipes the bitmap (setting [canvas.width] resets it) and paints
    nothing back. *)
Theorem resize_idempotent d g :
  truthy (width (box (canvas g))) = true -> truthy (height (box (canvas g))) = true ->
  canvas (resize d (resize d g)) = canvas (resize d g) /\
  cur (ctx (resize d (resize d g))) = cur (ctx (resize d g)) /\
  saved (ctx (resize d (resize d g))) = saved (ctx (resize d g)) /\
  path (ctx (resize d (resize d g))) = path (ctx (resize d g)) /\
  bounds (resize d (resize d g)) = bounds (resize d g) /\
  painted (ctx (resize d g)) = painted (ctx g) ++ [PReset; PReset].
Proof.
  intros Hw Hh. unfold resize, n_or. cbn [canvas box ctx bounds]. rewrite Hw, Hh. repeat split.
  cbn. rewrite <- app_assoc. reflexivity.
Qed.

Lemma resize_idempotent_witness :
  (truthy (width (box sample_canvas)) = true /\ truthy (height (box sample_canvas)) = true) /\
  let g0 := mkGraph sample_canvas fresh_ctx initial_bounds in
  canvas (resize (Fin 2) (resize (Fin 2) g0)) = canvas (resize (Fin 2) g0) /\
  cur (ctx (resize (Fin 2) (resize (Fin 2) g0))) = cur (ctx (resize (Fin 2) g0)) /\
  saved (ctx (resize (Fin 2) (resize (Fin 2) g0))) = saved (ctx (resize (Fin 2) g0)) /\
  path (ctx (resize (Fin 2) (resize (Fin 2) g0))) = path (ctx (resize (Fin 2) g0)) /\
  bounds (resize (Fin 2) (resize (Fin 2) g0)) = bounds (resize (Fin 2) g0) /\
  painted (ctx (resize (Fin 2) g0)) = painted (ctx g0) ++ [PReset; PReset].
Proof.
  assert (H : truthy (width (box sample_canvas)) = true /\ truthy (height (box sample_canvas)) = true)
    by (split; reflexivity).
  split; [exact H|]. intros g0. apply (resize_idempotent (Fin 2) g0); apply H.
Defined.

(** Assigning [Math.round] of an integer within the attribute's range. *)
Lemma set_dim_int d q (v : Z) : q == inject_Z v -> (0 <= v <= 2147483647)%Z -> set_dim d (n_round (Fin q)) = v.
Proof.
  intros Hq Hv. unfold set_dim, to_uint32, n_round, n_lift.
  rewrite (Qfloor_unique v) by (rewrite Hq; split; lra).
  replace (Qle_bool 0 (inject_Z v)) with true
    by (symmetry; apply Qle_bool_iff; change 0 with (inject_Z 0); rewrite <- Zle_Qle; lia).
  rewrite Qfloor_inject_Z, Z.mod_small by lia. rewrite (proj2 (Z.leb_le _ _)) by lia. reflexivity.
Qed.

(** One [resize] of a canvas with no CSS size and an integer ratio [k]. *)
Lemma resize_hidden_step (k w h : Z) g :
  (1 <= k)%Z -> (0 <= w * k <= 2147483647)%Z -> (0 <= h * k <= 2147483647)%Z ->
  canvas g = mkCanvasEl w h (mkRect (Fin 0) (Fin 0)) ->
  canvas (resize (Fin (inject_Z k)) g) = mkCanvasEl (w * k) (h * k) (mkRect (Fin 0) (Fin 0)).
Proof.
  intros Hk Hw Hh Hc. unfold resize. rewrite Hc.
  assert (Ek : truthy (Fin (inject_Z k)) = true).
  { destruct k; [lia | reflexivity | lia]. }
  unfold n_or. rewrite Ek. cbn [canvas box width height cwidth cheight truthy].
  change (Qeq_bool 0 0) with true. cbn [negb n_mul].
  rewrite (set_dim_int _ _ (w * k)), (set_dim_int _ _ (h * k)) by (rewrite ?inject_Z_mult; reflexivity || lia).
  reflexivity.
Qed.

(** C35: on a canvas with no CSS size (hidden, or not laid out),
    [rect.width || canvas.width] falls back to the backing-store size, so
    every [resize] with an integer device pixel ratio [k >= 1] multiplies
    the backing store by [k]: after [n] window resizes a [w×h] canvas is
    [w·k^n × h·k^n] (while this stays below 2^31), whatever the context
    and bounds; the spec requires resize handling to be idempotent. *)
Theorem resize_hidden_grows (k w h : Z) (n : nat) c b :
  (1 <= k)%Z -> (0 <= w)%Z -> (0 <= h)%Z ->
  (w * k ^ Z.of_nat n <= 2147483647)%Z -> (h * k ^ Z.of_nat n <= 2147483647)%Z ->
  canvas (Nat.iter n (resize (Fin (inject_Z k))) (mkGraph (mkCanvasEl w h (mkRect (Fin 0) (Fin 0))) c b)) =
  mkCanvasEl (w * k ^ Z.of_nat n) (h * k ^ Z.of_nat n) (mkRect (Fin 0) (Fin 0)).
Proof.
  intros Hk Hw Hh. induction n as [|n IH]; intros Bw Bh.
  - cbn. rewrite !Z.mul_1_r. reflexivity.
  - rewrite Nat2Z.inj_succ, Z.pow_succ_r in Bw, Bh by lia. rewrite Nat2Z.inj_succ, Z.pow_succ_r by lia.
    assert (Hp : (1 <= k ^ Z.of_nat n)%Z) by (pose proof (Z.pow_pos_nonneg k (Z.of_nat n) ltac:(lia) ltac:(lia)); lia).
    cbn [Nat.iter]. rewrite !Z.mul_assoc, !(Z.mul_comm _ k), <- !Z.mul_assoc, !(Z.mul_comm k).
    apply resize_hidden_step; [lia | nia | nia | apply IH; nia].
Qed.

Lemma resize_hidden_grows_witness :
  ((1 <= 2)%Z /\ (0 <= 300)%Z /\ (0 <= 150)%Z /\ (300 * 2 ^ Z.of_nat 3 <= 2147483647)%Z /\
   (150 * 2 ^ Z.of_nat 3 <= 2147483647)%Z) /\
  canvas (Nat.iter 3 (resize (Fin (inject_Z 2))) (mkGraph (mkCanvasEl 300 150 (mkRect (Fin 0) (Fin 0))) fresh_ctx initial_bounds)) =
  mkCanvasEl (300 * 2 ^ Z.of_nat 3) (150 * 2 ^ Z.of_nat 3) (mkRect (Fin 0) (Fin 0)).
Proof.
  split; [repeat split; vm_compute; discriminate|].
  apply (resize_hidden_grows 2 300 150 3); vm_compute; discriminate.
Defined.

(** ** Totality of rendering on finite bounds *)

Lemma drawGrid_finite g x0 x1 y0 y1 :
  bounds g = mkBounds (Fin x0) (Fin x1) (Fin y0) (Fin y1) -> is_Some (drawGrid g).
Proof.
  intros Hb. destruct (pickStep_pos (Fin x0, Fin x1)) as (s & Es & Hs).
  destruct (option_equiv_Some_inv _ _ (grid_values_Fin x0 x1 s Hs)) as (xs & Ex & _).
  destruct (option_equiv_Some_inv _ _ (grid_values_Fin y0 y1 s Hs)) as (ys & Ey & _).
  unfold drawGrid. rewrite Hb. cbn [xMin xMax yMin yMax]. rewrite Es, Ex, Ey. eauto.
Qed.

Lemma renderScene_finite scene g x0 x1 y0 y1 :
  bounds g = mkBounds (Fin x0) (Fin x1) (Fin y0) (Fin y1) -> is_Some (renderScene scene g).
Proof.
  intros Hb. destruct (drawGrid_finite (clear g) x0 x1 y0 y1 Hb) as [g1 E].
  unfold renderScene, mbind, option_bind. rewrite E. eauto.
Qed.
