(* ===== verification/Session.v ===== *)
(** * Session: the quiz page and its event handlers (src/app.js 202-370)

    The QuizSession of the spec.  The page state is a record: the [state]
    object of the script (score, total, streak, current question, graph)
    together with the DOM values the handlers read and write (the question
    text, the answer fields, the feedback, the solution and the scoreboard
    texts).  Each handler is a function on it: [nextQuestion] draws from
    [Math.random] (the [Rnd] monad of the Prelude), and a handler that does
    not complete (a [TypeError] or a rendering loop that does not exit)
    gives [None].  The page evolves by the step relation [step] under the
    events of the wiring (app.js 71, 308-318 and 351-364), from the state
    [boot] that the script's last two calls produce.

    The elements the script looks up are assumed present here, except the
    canvas, which is optional (as [initGraph] tests), and the answer
    fields, whose presence is part of the state ([None] for a field
    [$('#ans-x')] does not find); Shell.v drops the assumption and shows
    that these handlers are what the script computes when it holds. *)

From S2P Require Import Prelude JsNumber JsString NumParse Tolerance Transform Sampler Generator Canvas Graph.

Local Open Scope list_scope.
Local Open Scope string_scope.
Local Open Scope rnd_scope.

(** ** The page *)

(** The values of the inputs [#ans-x], [#ans-y], [#ans-s]; [None] when
    the form has no such element. *)
Record Fields : Type := mkFields { ans_x : option string; ans_y : option string; ans_s : option string }.

Record Page : Type := mkPage {
  correct : Z;
  total : Z;
  streak : Z;
  current : option Question;
  graph : option Graph;
  fields : Fields;
  qText : string;
  feedback : string * string;   (* className, textContent *)
  solution : string;
  scoreText : string;
  streakText : string
}.

(** Assignments to the page, one per field group the handlers write. *)
Definition set_counters (c t k : Z) (pg : Page) : Page :=
  mkPage c t k (current pg) (graph pg) (fields pg) (qText pg) (feedback pg) (solution pg) (scoreText pg) (streakText pg).
Definition set_current (q : option Question) (pg : Page) : Page :=
  mkPage (correct pg) (total pg) (streak pg) q (graph pg) (fields pg) (qText pg) (feedback pg) (solution pg) (scoreText pg) (streakText pg).
Definition set_graph (g : option Graph) (pg : Page) : Page :=
  mkPage (correct pg) (total pg) (streak pg) (current pg) g (fields pg) (qText pg) (feedback pg) (solution pg) (scoreText pg) (streakText pg).
Definition set_fields (f : Fields) (pg : Page) : Page :=
  mkPage (correct pg) (total pg) (streak pg) (current pg) (graph pg) f (qText pg) (feedback pg) (solution pg) (scoreText pg) (streakText pg).
Definition set_qText (t : string) (pg : Page) : Page :=
  mkPage (correct pg) (total pg) (streak pg) (current pg) (graph pg) (fields pg) t (feedback pg) (solution pg) (scoreText pg) (streakText pg).
Definition set_feedback (f : string * string) (pg : Page) : Page :=
  mkPage (correct pg) (total pg) (streak pg) (current pg) (graph pg) (fields pg) (qText pg) f (solution pg) (scoreText pg) (streakText pg).
Definition set_solution (t : string) (pg : Page) : Page :=
  mkPage (correct pg) (total pg) (streak pg) (current pg) (graph pg) (fields pg) (qText pg) (feedback pg) t (scoreText pg) (streakText pg).
Definition set_board (sc sk : string) (pg : Page) : Page :=
  mkPage (correct pg) (total pg) (streak pg) (current pg) (graph pg) (fields pg) (qText pg) (feedback pg) (solution pg) sc sk.

(** [buildInputs(shape)]: the form is emptied, then gets two empty fields
    for a pair, one for a scalar, none otherwise. *)
Definition buildInputs (shape : string) : Fields :=
  if String.eqb shape "pair" then mkFields (Some "") (Some "") None
  else if String.eqb shape "scalar" then mkFields None None (Some "")
  else mkFields None None None.

(** [updateScoreboard()]: the counters are numbers shown by template
    literals. *)
Definition updateScoreboard (pg : Page) : Page :=
  set_board ("Score: " ++ to_string (Fin (inject_Z (correct pg))) ++ "/" ++ to_string (Fin (inject_Z (total pg))))
            ("Streak: " ++ to_string (Fin (inject_Z (streak pg)))) pg.

(** [setFeedback(ok, msg)]. *)
Definition setFeedback (ok : bool) (msg : string) (pg : Page) : Page :=
  set_feedback ("feedback " ++ (if ok then "ok" else "no"), msg) pg.

(** [setSolution(text)]: [text || ''] (the script passes strings only). *)
Definition setSolution (text : string) (pg : Page) : Page := set_solution text pg.

(** ** Drawing the question *)

Definition static_bounds : Bounds := mkBounds (Fin (-10)) (Fin 10) (Fin (-10)) (Fin 10).

(** The scene of [drawQuestionGraph] as its two [forEach] loops build it,
    pushing each point (blue, with its label), then each arrow (green)
    onto [scene]. *)
Definition scene_loop (q : Question) : list SceneItem :=
  let scene := fold_left (fun sc d => sc ++ [SPoint (p d) (Some (label d)) "#38bdf8"])%list (points (draw q)) [] in
  fold_left (fun sc d => sc ++ [SArrow (from d) (to d) "#22c55e"])%list (arrows (draw q)) scene.

(** [drawQuestionGraph(q)]: nothing without a graph; otherwise the static
    bounds and the scene. *)
Definition drawQuestionGraph (q : Question) (pg : Page) : option Page :=
  match graph pg with
  | None => Some pg
  | Some g => g' ← renderScene (scene_loop q) (setBounds static_bounds g); Some (set_graph (Some g') pg)
  end.

(** [expandBounds(points)] (app.js 320-334): bounds around the points
    with a margin of a fifth of their spread plus 2, rounded outwards and
    clamped to [[-30, 30]]; the script never calls it. *)
Definition expandBounds (pts : list point) : Bounds :=
  match pts with
  | [] => mkBounds (Fin (-12)) (Fin 12) (Fin (-8)) (Fin 8)
  | _ =>
      let minX := n_min_list (map fst pts) in
      let maxX := n_max_list (map fst pts) in
      let minY := n_min_list (map snd pts) in
      let maxY := n_max_list (map snd pts) in
      let padX := ((maxX - minX) * Fin (2 # 10) + Fin 2)%js in
      let padY := ((maxY - minY) * Fin (2 # 10) + Fin 2)%js in
      mkBounds (n_max (Fin (-30)) (n_floor (minX - padX)%js)) (n_min (Fin 30) (n_ceil (maxX + padX)%js))
               (n_max (Fin (-30)) (n_floor (minY - padY)%js)) (n_min (Fin 30) (n_ceil (maxY + padY)%js))
  end.

(** ** The handlers *)

(** [nextQuestion()]: a generator chosen among [selectedTypes()] builds a
    question on the medium range; [generators[undefined]] is not a
    function, which [None] stands for. *)
Definition nextQuestion (pg : Page) : Rnd (option Page) :=
  k <- choice selectedTypes ;;
  match k ≫= (generators !!.) with
  | None => rret None
  | Some gen =>
      q <- gen (difficultyRanges "medium") ;;
      rret (drawQuestionGraph q
              (setSolution "" (set_feedback ("feedback", "")
                 (set_fields (buildInputs (answerShape q))
                    (set_qText (prompt q) (set_current (Some q) pg))))))
  end.

(** The answer as [getUserAnswer(shape)] returns it. *)
Inductive UserAnswer : Type :=
| APair (x y : num)
| AScalar (s : num)
| ANull.

Definition getUserAnswer (shape : string) (f : Fields) : UserAnswer :=
  if String.eqb shape "pair" then APair (parseFloat_opt (ans_x f)) (parseFloat_opt (ans_y f))
  else if String.eqb shape "scalar" then AScalar (parseFloat_opt (ans_s f))
  else ANull.

Definition check_tol : num := Fin (1 # 100).

(** The [ok] of [checkAnswer()], when there is a current question.  A
    question's answer is a pair; compared with a scalar it converts to
    NaN (an array of two numbers is not a number). *)
Definition check_result (pg : Page) : option bool :=
  match current pg with
  | None => None
  | Some q =>
      Some (if String.eqb (answerShape q) "pair" then
              match getUserAnswer (answerShape q) (fields pg) with
              | APair x y => pairEqual (x, y) (answer q) check_tol
              | _ => false
              end
            else if String.eqb (answerShape q) "scalar" then
              match getUserAnswer (answerShape q) (fields pg) with
              | AScalar s => nearlyEqual s NaN check_tol
              | _ => false
              end
            else false)
  end.

(** [checkAnswer()]: without a question nothing happens; otherwise the
    total grows, a correct answer raises score and streak, a wrong one
    resets the streak, and the scoreboard is redrawn. *)
Definition checkAnswer (pg : Page) : Page :=
  match check_result pg with
  | None => pg
  | Some ok =>
      let pg1 := set_counters (correct pg) (total pg + 1) (streak pg) pg in
      let pg2 := if ok
                 then setFeedback true "Correct!" (set_counters (correct pg1 + 1) (total pg1) (streak pg1 + 1) pg1)
                 else setFeedback false "Not quite. Try another or reveal solution."
                        (set_counters (correct pg1) (total pg1) 0 pg1) in
      updateScoreboard pg2
  end.

(** [revealSolution()]. *)
Definition revealSolution (pg : Page) : Page :=
  match current pg with
  | None => pg
  | Some q => setSolution ("Solution: " ++ explain q) pg
  end.

(** [snap = (v) => Math.round(v * 2) / 2]. *)
Definition snap (v : num) : num := (n_round (v * Fin 2) / Fin 2)%js.

(** The canvas click handler, at offset [(px, py)] in the canvas: the
    world point, snapped to halves, is written into the pair fields. *)
Definition onCanvasClick (px py : num) (pg : Page) : Page :=
  match graph pg with
  | None => pg
  | Some g =>
      let '(xw, yw) := stw g px py in
      match current pg with
      | Some q =>
          if String.eqb (answerShape q) "pair" then
            let x := snap xw in
            let y := snap yw in
            let f := fields pg in
            set_fields (mkFields (option_map (fun _ => to_string x) (ans_x f))
                                 (option_map (fun _ => to_string y) (ans_y f)) (ans_s f)) pg
          else pg
      | None => pg
      end
  end.

(** ** Events and runs *)

Inductive FieldId : Type := FX | FY | FS.

(** The events the page reacts to: the three buttons, Enter in the form,
    a click on the canvas at an offset, the user typing a value into a
    field, and a window resize (with the new device pixel ratio and CSS
    box of the canvas). *)
Inductive Event : Type :=
| ENext
| ESubmit
| EReveal
| EEnter
| EClick (px py : num)
| EInput (fid : FieldId) (v : string)
| EResize (devicePixelRatio : num) (box : Rect).

(** Typing changes the value of a field that exists. *)
Definition input_field (fid : FieldId) (v : string) (f : Fields) : Fields :=
  match fid with
  | FX => mkFields (option_map (fun _ => v) (ans_x f)) (ans_y f) (ans_s f)
  | FY => mkFields (ans_x f) (option_map (fun _ => v) (ans_y f)) (ans_s f)
  | FS => mkFields (ans_x f) (ans_y f) (option_map (fun _ => v) (ans_s f))
  end.

(** The layout engine gives the canvas a new CSS box, then the listener
    [resize] of [Graph.create] runs. *)
Definition onResize (dpr : num) (b : Rect) (pg : Page) : Page :=
  match graph pg with
  | None => pg
  | Some g =>
      let el := canvas g in
      set_graph (Some (resize dpr (mkGraph (mkCanvasEl (cwidth el) (cheight el) b) (ctx g) (bounds g)))) pg
  end.

(** The events whose handler is [checkAnswer]. *)
Definition is_grading (ev : Event) : bool := match ev with ESubmit | EEnter => true | _ => false end.

(** One event handler run to completion. *)
Definition handle (ev : Event) (pg : Page) : Rnd (option Page) :=
  match ev with
  | ENext => nextQuestion pg
  | ESubmit | EEnter => rret (Some (checkAnswer pg))
  | EReveal => rret (Some (revealSolution pg))
  | EClick px py => rret (Some (onCanvasClick px py pg))
  | EInput fid v => rret (Some (set_fields (input_field fid v (fields pg)) pg))
  | EResize dpr b => rret (Some (onResize dpr b pg))
  end.

(** [initGraph()]: with a canvas, the graph is created, its bounds set
    and an empty scene rendered. *)
Definition initGraph (el : option CanvasEl) (dpr : num) (pg : Page) : option Page :=
  match el with
  | None => Some pg
  | Some c =>
      let g := create c dpr in
      g' ← renderScene [] (setBounds static_bounds g);
      Some (set_graph (Some g') pg)
  end.

(** The page when the script starts: the [state] object (app.js
    202-208), the markup's initial texts and field values [f0]. *)
Definition initial_page (f0 : Fields) (texts : string * string * string) : Page :=
  let '(q0, fb0, sol0) := texts in mkPage 0 0 0 None None f0 q0 ("feedback", fb0) sol0 "" "".

(** The page after the script has run [updateScoreboard()] and
    [initGraph()]. *)
Definition boot (el : option CanvasEl) (dpr : num) (f0 : Fields) (texts : string * string * string) : option Page :=
  initGraph el dpr (updateScoreboard (initial_page f0 texts)).

(** A step of the page: an event whose handler completes, with the draws
    of [Math.random] it consumes. *)
Inductive step : Page * stream -> Event -> Page * stream -> Prop :=
| step_handle ev pg s pg' s' : handle ev pg s = (Some pg', s') -> step (pg, s) ev (pg', s').

(** The pages reachable from a boot, with the sequence of grading results
    ([ok] of each [checkAnswer] that had a question), oldest first. *)
Inductive run : Page * stream -> list bool -> Prop :=
| run_boot el dpr f0 texts pg s :
    boot el dpr f0 texts = Some pg -> unit_stream s -> run (pg, s) []
| run_step ps ev ps' log :
    run ps log -> step ps ev ps' ->
    run ps' (log ++ (if is_grading ev then option_list (check_result ps.1) else [])).

(** Case analysis of the handlers that only assign fields of the page. *)
Ltac page_cases :=
  unfold checkAnswer, revealSolution, onCanvasClick, onResize, updateScoreboard, setFeedback, setSolution;
  repeat match goal with |- context [match ?x with _ => _ end] => destruct x eqn:? end;
  cbn [current fields set_counters set_board set_feedback set_solution set_fields set_graph].

(** ** The scoreboard specification *)

(** What the scoreboard should show after a sequence of grading results:
    the number of correct answers, the number of answers, and the length
    of the final run of correct answers. *)
Definition correct_of (log : list bool) : Z := fold_left (fun c (b : bool) => if b then c + 1 else c)%Z log 0%Z.
Definition total_of (log : list bool) : Z := Z.of_nat (length log).
Definition streak_of (log : list bool) : Z := fold_left (fun k (b : bool) => if b then k + 1 else 0)%Z log 0%Z.

Definition counters (pg : Page) : Z * Z * Z := (correct pg, total pg, streak pg).

(** The texts [updateScoreboard] writes for given counters. *)
Definition board_of (c t k : Z) : string * string :=
  ("Score: " ++ to_string (Fin (inject_Z c)) ++ "/" ++ to_string (Fin (inject_Z t)),
   "Streak: " ++ to_string (Fin (inject_Z k))).

Definition board (pg : Page) : string * string := (scoreText pg, streakText pg).

Lemma correct_of_snoc log b : correct_of (log ++ [b])%list = (correct_of log + if b then 1 else 0)%Z.
Proof. unfold correct_of. rewrite fold_left_app. destruct b; cbn; lia. Qed.

Lemma total_of_snoc log b : total_of (log ++ [b])%list = (total_of log + 1)%Z.
Proof. unfold total_of. rewrite length_app. cbn [length]. lia. Qed.

Lemma streak_of_snoc log b : streak_of (log ++ [b])%list = if b then (streak_of log + 1)%Z else 0%Z.
Proof. unfold streak_of. rewrite fold_left_app. reflexivity. Qed.

(** The streak is a suffix of the correct answers, which are some of the
    answers. *)
Lemma scoreboard_spec_bounds log :
  (0 <= streak_of log <= correct_of log /\ correct_of log <= total_of log)%Z.
Proof.
  induction log as [|b log IH] using rev_ind; [unfold streak_of, correct_of, total_of; cbn; lia|].
  rewrite correct_of_snoc, total_of_snoc, streak_of_snoc. destruct b; lia.
Qed.

(** ** The handlers and the counters *)

Lemma nextQuestion_counters pg s pg' s' :
  nextQuestion pg s = (Some pg', s') -> counters pg' = counters pg /\ board pg' = board pg.
Proof.
  unfold nextQuestion, rbind, rret. destruct (choice selectedTypes s) as [k s1].
  destruct (k ≫= _) as [gen|]; [|discriminate].
  destruct (gen _ s1) as [q s2]. intros [= E _]. revert E.
  unfold drawQuestionGraph, setSolution. cbn [graph set_solution set_feedback set_fields set_qText set_current].
  destruct (graph pg) as [g|]; [|intros [= <-]; auto].
  unfold mbind, option_bind. destruct (renderScene _ _); [|discriminate]. intros [= <-]. auto.
Qed.

Lemma checkAnswer_counters pg :
  match check_result pg with
  | None => checkAnswer pg = pg
  | Some ok =>
      counters (checkAnswer pg) =
        (if ok then (correct pg + 1) else correct pg, total pg + 1, if ok then streak pg + 1 else 0)%Z /\
      board (checkAnswer pg) =
        board_of (if ok then (correct pg + 1) else correct pg) (total pg + 1) (if ok then streak pg + 1 else 0)%Z
  end.
Proof. unfold checkAnswer. destruct (check_result pg) as [[]|]; auto. Qed.

Lemma handle_counters ev pg s pg' s' :
  handle ev pg s = (Some pg', s') ->
  if is_grading ev then pg' = checkAnswer pg else counters pg' = counters pg /\ board pg' = board pg.
Proof.
  destruct ev; cbn [handle is_grading rret]; [apply nextQuestion_counters|..];
    intros [= <- _]; try reflexivity; page_cases; auto.
Qed.

Lemma boot_counters el dpr f0 texts pg :
  boot el dpr f0 texts = Some pg ->
  counters pg = (0, 0, 0)%Z /\ board pg = board_of 0 0 0 /\ current pg = None.
Proof.
  destruct texts as [[q0 fb0] sol0]. unfold boot, initGraph, initial_page.
  destruct el; [unfold mbind, option_bind; destruct (renderScene _ _); [|discriminate]|];
    intros [= <-]; auto.
Qed.

(** C7: refinement of the scoreboard: along every run of the page, the
    counters [state.correct], [state.total], [state.streak] are the number
    of correct answers, the number of graded answers and the length of the
    final run of correct answers in the sequence of grading results, the
    scoreboard shows them, and hence [0 <= streak <= correct <= total]. *)
Theorem scoreboard_refinement ps log :
  run ps log ->
  counters ps.1 = (correct_of log, total_of log, streak_of log) /\
  board ps.1 = board_of (correct_of log) (total_of log) (streak_of log) /\
  (0 <= streak ps.1 <= correct ps.1 /\ correct ps.1 <= total ps.1)%Z.
Proof.
  intros H. enough (E : counters ps.1 = (correct_of log, total_of log, streak_of log) /\
                        board ps.1 = board_of (correct_of log) (total_of log) (streak_of log)).
  { destruct E as [E B]. split; [exact E|]. split; [exact B|].
    unfold counters in E. injection E as -> -> ->. apply scoreboard_spec_bounds. }
  induction H as [el dpr f0 texts pg s Hb _|ps ev ps' log _ IH Hs].
  - destruct (boot_counters _ _ _ _ _ Hb) as (E & B & _). auto.
  - inversion Hs as [ev' pg s pg' s' Eh]; subst. cbn [fst] in *.
    pose proof (handle_counters _ _ _ _ _ Eh) as Hc.
    destruct (is_grading ev); [|rewrite app_nil_r; destruct Hc as [-> ->]; exact IH].
    subst pg'. pose proof (checkAnswer_counters pg) as Hk.
    destruct (check_result pg) as [ok|]; [change (option_list (Some ok)) with [ok] |
      change (option_list None) with (@nil bool); rewrite app_nil_r, Hk; exact IH].
    destruct IH as [IH1 IH2]. unfold counters in IH1. injection IH1 as E1 E2 E3.
    rewrite correct_of_snoc, total_of_snoc, streak_of_snoc, <- E1, <- E2, <- E3.
    destruct ok; [exact Hk | rewrite Z.add_0_r; exact Hk].
Qed.

Lemma scoreboard_refinement_witness :
  let pg0 := default (mkPage 0 0 0 None None (mkFields None None None) "" ("", "") "" "" "")
                     (boot None (Fin 1) (mkFields None None None) ("", "", "")) in
  run (pg0, fun _ => 1 # 2) [] /\
  counters pg0 = (correct_of [], total_of [], streak_of []) /\
  board pg0 = board_of (correct_of []) (total_of []) (streak_of []) /\
  (0 <= streak pg0 <= correct pg0 /\ correct pg0 <= total pg0)%Z.
Proof.
  intros pg0.
  assert (H : run (pg0, fun _ => 1 # 2) [])
    by (apply (run_boot None (Fin 1) (mkFields None None None) ("", "", "")); [reflexivity | intros n; simpl; lra]).
  split; [exact H | apply (scoreboard_refinement _ _ H)].
Defined.

(** ** The answer fields follow the question *)

(** Which of the three fields exist. *)
Definition presence (f : Fields) : bool * bool * bool :=
  (bool_decide (is_Some (ans_x f)), bool_decide (is_Some (ans_y f)), bool_decide (is_Some (ans_s f))).

Lemma presence_option_map f g h :
  presence (mkFields (option_map g (ans_x f)) (option_map h (ans_y f)) (ans_s f)) = presence f.
Proof. destruct f as [[] [] []]; reflexivity. Qed.

Lemma input_field_presence fid v f : presence (input_field fid v f) = presence f.
Proof. destruct fid, f as [[] [] []]; reflexivity. Qed.

Lemma nextQuestion_shows pg s pg' s' :
  nextQuestion pg s = (Some pg', s') ->
  exists q, current pg' = Some q /\ fields pg' = buildInputs (answerShape q) /\ qText pg' = prompt q.
Proof.
  unfold nextQuestion, rbind, rret. destruct (choice selectedTypes s) as [k s1].
  destruct (k ≫= _) as [gen|]; [|discriminate].
  destruct (gen _ s1) as [q s2]. intros [= E _]. revert E.
  unfold drawQuestionGraph, setSolution. cbn [graph set_solution set_feedback set_fields set_qText set_current].
  destruct (graph pg) as [g|]; [|intros [= <-]; eauto].
  unfold mbind, option_bind. destruct (renderScene _ _); [|discriminate]. intros [= <-]. eauto.
Qed.

Lemma handle_fields ev pg s pg' s' :
  handle ev pg s = (Some pg', s') ->
  (current pg' = current pg /\ presence (fields pg') = presence (fields pg)) \/
  (exists q, current pg' = Some q /\ fields pg' = buildInputs (answerShape q)).
Proof.
  destruct ev; cbn [handle rret];
    [intros E; right; destruct (nextQuestion_shows _ _ _ _ E) as (q & H1 & H2 & _); eauto|..];
    intros [= <- _]; left; page_cases; rewrite ?presence_option_map, ?input_field_presence; auto.
Qed.

(** C16: the answer fields follow the question: on every page reachable
    from a boot, when a question is shown, the fields that exist are
    exactly those [buildInputs] creates for its answer shape (clicks and
    typing change values, never which fields exist). *)
Theorem fields_match_question ps log q :
  run ps log -> current ps.1 = Some q -> presence (fields ps.1) = presence (buildInputs (answerShape q)).
Proof.
  intros H. revert q. induction H as [el dpr f0 texts pg s Hb _|ps ev ps' log _ IH Hs]; intros q Hq.
  - destruct (boot_counters _ _ _ _ _ Hb) as (_ & _ & E). cbn in Hq. congruence.
  - inversion Hs as [ev' pg s pg' s' Eh]; subst. cbn [fst] in *.
    destruct (handle_fields _ _ _ _ _ Eh) as [[E1 E2] | (q' & E1 & E2)].
    + rewrite E2. apply IH. congruence.
    + rewrite Hq in E1. injection E1 as ->. rewrite E2. reflexivity.
Qed.

Definition blank_page : Page := mkPage 0 0 0 None None (mkFields None None None) "" ("", "") "" "" "".

Lemma fields_match_question_witness :
  let s0 : stream := fun _ => 1 # 2 in
  let pg0 := default blank_page (boot None (Fin 1) (mkFields None None None) ("", "", "")) in
  let pg1 := default pg0 (handle ENext pg0 s0).1 in
  let s1 := (handle ENext pg0 s0).2 in
  let q := default (terminal_question (Fin 0, Fin 0) (Fin 0, Fin 0)) (current pg1) in
  (run (pg1, s1) nil /\ current pg1 = Some q) /\
  presence (fields pg1) = presence (buildInputs (answerShape q)).
Proof.
  intros s0 pg0 pg1 s1 q.
  assert (H0 : run (pg0, s0) nil)
    by (apply (run_boot None (Fin 1) (mkFields None None None) ("", "", "")); [reflexivity | intros n; unfold s0; lra]).
  assert (H1 : run (pg1, s1) nil).
  { apply (run_step (pg0, s0) ENext (pg1, s1) nil H0). constructor. vm_compute. reflexivity. }
  assert (H2 : current pg1 = Some q) by (vm_compute; reflexivity).
  split; [split; assumption|]. exact (fields_match_question (pg1, s1) nil q H1 H2).
Defined.

(** ** Clicking on the answer *)

(** [snap] keeps a multiple of one half. *)
Lemma snap_half x k : x ≡ Fin (inject_Z k / 2) -> snap x = Fin (inject_Z k / 2).
Proof.
  destruct x as [q| | |]; intros H; try contradiction. rewrite Fin_equiv in H.
  unfold snap. rewrite n_mul_Fin. cbn [n_round n_lift n_div].
  replace (Qeq_bool 2 0) with false by reflexivity.
  assert (H2 : q * 2 == inject_Z k) by (rewrite H; field).
  rewrite (Qfloor_unique k); [reflexivity | split; lra].
Qed.

Lemma half_places k : has_places (inject_Z k / 2) 1.
Proof.
  exists (5 * k)%Z. unfold pow10. rewrite inject_Z_mult.
  change (inject_Z 5) with (5 # 1). change (inject_Z (10 ^ Z.of_nat 1)) with (10 # 1). field.
Qed.

(** The world point under the pixel of a finite point is that point. *)
Lemma stw_wts g x y :
  valid_bounds (bounds g) = true -> valid_rect (box (canvas g)) = true ->
  stw g (wts g (Fin x, Fin y)).1 (wts g (Fin x, Fin y)).2 ≡ (Fin x, Fin y).
Proof.
  unfold stw, wts. destruct g as [[w h [rw rh]] c [bx0 bx1 by0 by1]]; cbn [bounds canvas box].
  intros (x0 & x1 & y0 & y1 & E & Hx & Hy)%valid_bounds_inv (w' & h' & E' & Hw & Hh)%valid_rect_inv.
  rewrite E, E'. apply view_world_screen_world; assumption.
Qed.

(** C9: answering by clicking: when a pair question is shown whose
    answer has coordinates that are multiples of one half (the medium
    range gives integers), the graph shows valid bounds on a laid-out
    canvas and both fields exist, a click on the pixel where the answer is
    drawn writes the answer into the fields ([snap], then [String]), and
    grading them ([parseFloat], then [pairEqual] with tolerance 0.01)
    accepts it. *)
Theorem click_on_answer_accepted pg q g a b :
  current pg = Some q -> answerShape q = "pair" -> graph pg = Some g ->
  is_Some (ans_x (fields pg)) -> is_Some (ans_y (fields pg)) ->
  valid_bounds (bounds g) = true -> valid_rect (box (canvas g)) = true ->
  answer q ≡ (Fin (inject_Z a / 2), Fin (inject_Z b / 2)) ->
  check_result (onCanvasClick (wts g (answer q)).1 (wts g (answer q)).2 pg) = Some true.
Proof.
  intros Hq Hs Hg [vx Hx] [vy Hy] Hb Hr HA.
  assert (Hw : stw g (wts g (answer q)).1 (wts g (answer q)).2 ≡ (Fin (inject_Z a / 2), Fin (inject_Z b / 2))).
  { pose proof (worldToScreen_proper (bounds g) (box (canvas g)) _ _ HA) as E.
    etransitivity; [apply screenToWorld_proper; apply E|]. apply stw_wts; assumption. }
  unfold onCanvasClick. rewrite Hg. destruct (stw g _ _) as [xw yw]. destruct Hw as [Ex Ey]. cbn [fst snd] in Ex, Ey.
  rewrite Hq, Hs. cbn [String.eqb Ascii.eqb Bool.eqb andb].
  rewrite (snap_half _ _ Ex), (snap_half _ _ Ey), Hx, Hy.
  unfold check_result. cbn [current fields set_fields option_map]. rewrite Hq, Hs.
  cbn [String.eqb Ascii.eqb Bool.eqb andb getUserAnswer ans_x ans_y parseFloat_opt default].
  assert (P1 : parseFloat (to_string (Fin (inject_Z a / 2))) ≡ Fin (inject_Z a / 2))
    by (apply (to_string_parse _ 1); [cbv; lia | apply half_places]).
  assert (P2 : parseFloat (to_string (Fin (inject_Z b / 2))) ≡ Fin (inject_Z b / 2))
    by (apply (to_string_parse _ 1); [cbv; lia | apply half_places]).
  f_equal. transitivity (pairEqual (Fin (inject_Z a / 2), Fin (inject_Z b / 2))
                                   (Fin (inject_Z a / 2), Fin (inject_Z b / 2)) check_tol);
    [apply pairEqual_proper; [split; assumption | exact HA | reflexivity]|].
  apply pairEqual_refl; [reflexivity | reflexivity | lra].
Qed.

Lemma click_on_answer_accepted_witness :
  let g0 := create sample_canvas (Fin 1) in
  let q0 := terminal_question (Fin 2, Fin 3) (Fin 4, Fin (-1)) in
  let pg0 := mkPage 0 0 0 (Some q0) (Some g0) (mkFields (Some "") (Some "") None) "" ("", "") "" "" "" in
  (current pg0 = Some q0 /\ answerShape q0 = "pair" /\ graph pg0 = Some g0 /\
   is_Some (ans_x (fields pg0)) /\ is_Some (ans_y (fields pg0)) /\
   valid_bounds (bounds g0) = true /\ valid_rect (box (canvas g0)) = true /\
   answer q0 ≡ (Fin (inject_Z 12 / 2), Fin (inject_Z 4 / 2))) /\
  check_result (onCanvasClick (wts g0 (answer q0)).1 (wts g0 (answer q0)).2 pg0) = Some true.
Proof.
  intros g0 q0 pg0.
  assert (H : current pg0 = Some q0 /\ answerShape q0 = "pair" /\ graph pg0 = Some g0 /\
    is_Some (ans_x (fields pg0)) /\ is_Some (ans_y (fields pg0)) /\
    valid_bounds (bounds g0) = true /\ valid_rect (box (canvas g0)) = true /\
    answer q0 ≡ (Fin (inject_Z 12 / 2), Fin (inject_Z 4 / 2)))
    by (repeat split; try (eexists; reflexivity); vm_compute; reflexivity).
  split; [exact H|]. destruct H as (H1 & H2 & H3 & H4 & H5 & H6 & H7 & H8).
  exact (click_on_answer_accepted pg0 q0 g0 12 4 H1 H2 H3 H4 H5 H6 H7 H8).
Defined.

(** ** The bounds of [expandBounds] *)

(** One axis of [expandBounds], for extremes [m <= M] in [[-30, 30]]. *)
Lemma expand_axis m M :
  (-30 <= m -> m <= M -> M <= 30 ->
  exists lo hi,
    n_max (Fin (-30)) (n_floor (Fin m - ((Fin M - Fin m) * Fin (2 # 10) + Fin 2))%js) = Fin lo /\
    n_min (Fin 30) (n_ceil (Fin M + ((Fin M - Fin m) * Fin (2 # 10) + Fin 2))%js) = Fin hi /\
    lo <= m /\ M <= hi /\ lo < hi)%Q.
Proof.
  intros H1 H2 H3. unfold n_sub. cbn [n_opp n_add n_mul n_floor n_ceil n_lift n_max n_min isNaN orb n_le].
  set (x := (m + - ((M + - m) * (2 # 10) + 2))%Q). set (y := (M + ((M + - m) * (2 # 10) + 2))%Q).
  pose proof (Qfloor_spec x) as [F1 F2]. pose proof (Qceiling_spec y) as [C1 C2].
  assert (x <= m - 2)%Q by (unfold x; lra). assert (M + 2 <= y)%Q by (unfold y; lra).
  destruct (Qle_bool (-30) (inject_Z (Qfloor x))) eqn:A; [apply Qle_bool_iff in A | apply Qle_bool_false in A];
  destruct (Qle_bool 30 (inject_Z (Qceiling y))) eqn:B; try apply Qle_bool_iff in B; try apply Qle_bool_false in B;
    eexists _, _; (split; [reflexivity|]); (split; [reflexivity|]); lra.
Qed.

Definition inj_point (pq : Q * Q) : point := (Fin pq.1, Fin pq.2).

Lemma map_fst_inj l : map fst (map inj_point l) = map Fin (map fst l).
Proof. rewrite !map_map. reflexivity. Qed.

Lemma map_snd_inj l : map snd (map inj_point l) = map Fin (map snd l).
Proof. rewrite !map_map. reflexivity. Qed.

(** The extreme of a coordinate lies within the box the points lie in. *)
Lemma extremes_in_box (f : Q * Q -> Q) (pts : list (Q * Q)) m :
  In m (map f pts) -> Forall (fun pq => -30 <= f pq <= 30)%Q pts -> (-30 <= m <= 30)%Q.
Proof.
  intros (pq & <- & Hin)%in_map_iff H. rewrite List.Forall_forall in H. exact (H pq Hin).
Qed.

(** C33: [expandBounds] (never called by the script) frames its points:
    for a non-empty list of finite points within [[-30, 30]] it returns
    finite, non-degenerate bounds that contain every point. *)
Theorem expandBounds_contains (pts : list (Q * Q)) :
  pts <> [] -> Forall (fun pq => -30 <= pq.1 <= 30 /\ -30 <= pq.2 <= 30)%Q pts ->
  exists x0 x1 y0 y1,
    expandBounds (map inj_point pts) = mkBounds (Fin x0) (Fin x1) (Fin y0) (Fin y1) /\
    (x0 < x1 /\ y0 < y1 /\ Forall (fun pq => x0 <= pq.1 <= x1 /\ y0 <= pq.2 <= y1) pts)%Q.
Proof.
  intros Hne Hb. destruct pts as [|pq rest]; [congruence|].
  assert (Hx : Forall (fun pq => -30 <= pq.1 <= 30)%Q (pq :: rest)) by (eapply Forall_impl; [exact Hb | intros ? []; auto]).
  assert (Hy : Forall (fun pq => -30 <= pq.2 <= 30)%Q (pq :: rest)) by (eapply Forall_impl; [exact Hb | intros ? []; auto]).
  change (expandBounds (map inj_point (pq :: rest))) with (let xs := map fst (map inj_point (pq :: rest)) in
    let ys := map snd (map inj_point (pq :: rest)) in
    let minX := n_min_list xs in let maxX := n_max_list xs in
    let minY := n_min_list ys in let maxY := n_max_list ys in
    let padX := ((maxX - minX) * Fin (2 # 10) + Fin 2)%js in
    let padY := ((maxY - minY) * Fin (2 # 10) + Fin 2)%js in
    mkBounds (n_max (Fin (-30)) (n_floor (minX - padX)%js)) (n_min (Fin 30) (n_ceil (maxX + padX)%js))
             (n_max (Fin (-30)) (n_floor (minY - padY)%js)) (n_min (Fin 30) (n_ceil (maxY + padY)%js))).
  cbv zeta. rewrite map_fst_inj, map_snd_inj.
  destruct (n_min_list_Fin pq.1 (map fst rest)) as (mx & Emx & Imx & Lmx).
  destruct (n_max_list_Fin pq.1 (map fst rest)) as (Mx & EMx & IMx & LMx).
  destruct (n_min_list_Fin pq.2 (map snd rest)) as (my & Emy & Imy & Lmy).
  destruct (n_max_list_Fin pq.2 (map snd rest)) as (My & EMy & IMy & LMy).
  change (pq.1 :: map fst rest) with (map fst (pq :: rest)) in *.
  change (pq.2 :: map snd rest) with (map snd (pq :: rest)) in *.
  rewrite Emx, EMx, Emy, EMy.
  pose proof (extremes_in_box fst _ mx Imx Hx). pose proof (extremes_in_box fst _ Mx IMx Hx).
  pose proof (extremes_in_box snd _ my Imy Hy). pose proof (extremes_in_box snd _ My IMy Hy).
  assert (mx <= Mx)%Q by (rewrite List.Forall_forall in LMx; apply LMx, Imx).
  assert (my <= My)%Q by (rewrite List.Forall_forall in LMy; apply LMy, Imy).
  destruct (expand_axis mx Mx) as (x0 & x1 & E0 & E1 & A0 & A1 & A2); try tauto.
  destruct (expand_axis my My) as (y0 & y1 & F0 & F1 & B0 & B1 & B2); try tauto.
  rewrite E0, E1, F0, F1. exists x0, x1, y0, y1. split; [reflexivity|]. split; [exact A2|]. split; [exact B2|].
  apply List.Forall_forall. intros q Hq. rewrite List.Forall_forall in Lmx, LMx, Lmy, LMy.
  pose proof (Lmx q.1 (in_map _ _ _ Hq)). pose proof (LMx q.1 (in_map _ _ _ Hq)).
  pose proof (Lmy q.2 (in_map _ _ _ Hq)). pose proof (LMy q.2 (in_map _ _ _ Hq)). lra.
Qed.

Definition sample_points : list (Q * Q) := [(1, 2); (-3, 4)]%Q.

Lemma expandBounds_contains_witness :
  (sample_points <> [] /\ Forall (fun pq => -30 <= pq.1 <= 30 /\ -30 <= pq.2 <= 30)%Q sample_points) /\
  exists x0 x1 y0 y1,
    expandBounds (map inj_point sample_points) = mkBounds (Fin x0) (Fin x1) (Fin y0) (Fin y1) /\
    (x0 < x1 /\ y0 < y1 /\ Forall (fun pq => x0 <= pq.1 <= x1 /\ y0 <= pq.2 <= y1) sample_points)%Q.
Proof.
  assert (H : sample_points <> [] /\ Forall (fun pq => -30 <= pq.1 <= 30 /\ -30 <= pq.2 <= 30)%Q sample_points)
    by (unfold sample_points; split; [discriminate | repeat constructor; simpl; lra]).
  split; [exact H | exact (expandBounds_contains _ (proj1 H) (proj2 H))].
Defined.

(** The x bounds of [expandBounds] on finite points, from the extreme
    x coordinates. *)
Lemma expandBounds_x pq rest :
  exists mx Mx, In mx (map fst (pq :: rest)) /\ In Mx (map fst (pq :: rest)) /\
    Forall (fun x => mx <= x /\ x <= Mx)%Q (map fst (pq :: rest)) /\
    xMin (expandBounds (map inj_point (pq :: rest))) =
      n_max (Fin (-30)) (n_floor (Fin mx - ((Fin Mx - Fin mx) * Fin (2 # 10) + Fin 2))%js) /\
    xMax (expandBounds (map inj_point (pq :: rest))) =
      n_min (Fin 30) (n_ceil (Fin Mx + ((Fin Mx - Fin mx) * Fin (2 # 10) + Fin 2))%js).
Proof.
  cbn [expandBounds map xMin xMax]. rewrite map_fst_inj.
  change ((inj_point pq).1 :: map Fin (map fst rest)) with (map Fin (pq.1 :: map fst rest)).
  destruct (n_min_list_Fin pq.1 (map fst rest)) as (mx & Emx & Imx & Lmx).
  destruct (n_max_list_Fin pq.1 (map fst rest)) as (Mx & EMx & IMx & LMx).
  exists mx, Mx. rewrite Emx, EMx. do 2 (split; [assumption|]). split; [|split; reflexivity].
  apply List.Forall_forall. intros x Hx. rewrite List.Forall_forall in Lmx, LMx. auto.
Qed.

(** C36: [expandBounds] (never called by the script) clamps each bound
    separately, so points far to the right get inverted bounds: for every
    non-empty list of finite points whose x coordinates lie in
    [[lo, hi]] with [lo - (hi - lo)/5 >= 33], it returns [xMin > xMax],
    bounds [setBounds] would accept. *)
Theorem expandBounds_far_inverted (pts : list (Q * Q)) lo hi :
  pts <> [] -> Forall (fun pq => lo <= pq.1 <= hi)%Q pts -> (33 <= lo - (hi - lo) / 5)%Q ->
  exists a b, xMin (expandBounds (map inj_point pts)) = Fin a /\
              xMax (expandBounds (map inj_point pts)) = Fin b /\ (b < a)%Q.
Proof.
  intros Hne Hb Hf. destruct pts as [|pq rest]; [congruence|].
  destruct (expandBounds_x pq rest) as (mx & Mx & Imx & IMx & Hm & -> & ->).
  rewrite List.Forall_forall in Hm.
  assert (Hx : forall x, In x (map fst (pq :: rest)) -> (lo <= x <= hi)%Q).
  { intros x (q & <- & Hq)%in_map_iff. rewrite List.Forall_forall in Hb. exact (Hb q Hq). }
  pose proof (Hx _ Imx). pose proof (Hx _ IMx). pose proof (Hm _ Imx).
  unfold n_sub. cbn [n_opp n_add n_mul n_floor n_ceil n_lift n_max n_min isNaN orb n_le].
  set (x := (mx + - ((Mx + - mx) * (2 # 10) + 2))%Q). set (y := (Mx + ((Mx + - mx) * (2 # 10) + 2))%Q).
  pose proof (Qfloor_spec x) as [F1 F2]. unfold Qdiv in Hf. change (/ 5)%Q with (1 # 5)%Q in Hf. assert (31 <= x)%Q by (unfold x; lra).
  destruct (Qle_bool (-30) (inject_Z (Qfloor x))) eqn:A; [apply Qle_bool_iff in A | apply Qle_bool_false in A];
  destruct (Qle_bool 30 (inject_Z (Qceiling y))) eqn:B; try apply Qle_bool_iff in B; try apply Qle_bool_false in B;
    eexists _, _; (split; [reflexivity|]); (split; [reflexivity|]); lra.
Qed.

Lemma expandBounds_far_inverted_witness :
  ([(40, 0); (45, 7)]%Q <> [] /\ Forall (fun pq => 40 <= pq.1 <= 45)%Q [(40, 0); (45, 7)]%Q /\
   (33 <= 40 - (45 - 40) / 5)%Q) /\
  exists a b, xMin (expandBounds (map inj_point [(40, 0); (45, 7)]%Q)) = Fin a /\
              xMax (expandBounds (map inj_point [(40, 0); (45, 7)]%Q)) = Fin b /\ (b < a)%Q.
Proof.
  assert (H : [(40, 0); (45, 7)]%Q <> [] /\ Forall (fun pq => 40 <= pq.1 <= 45)%Q [(40, 0); (45, 7)]%Q /\
   (33 <= 40 - (45 - 40) / 5)%Q).
  { split; [discriminate|]. split; [|vm_compute; discriminate].
    apply List.Forall_cons; [cbn [fst]; lra|]. apply List.Forall_cons; [cbn [fst]; lra|]. apply List.Forall_nil. }
  split; [exact H|]. destruct H as (H1 & H2 & H3). exact (expandBounds_far_inverted _ 40 45 H1 H2 H3).
Defined.


(** ** Error paths of grading *)

(** A field left empty or blank, or missing ([undefined]), reads as NaN. *)
Definition blank (v : option string) : bool :=
  match v with Some t => forallb is_ws (list_ascii_of_string t) | None => true end.

Lemma trim_start_blank l : forallb is_ws l = true -> trim_start l = [].
Proof.
  induction l as [|c l IH]; cbn [forallb trim_start]; [reflexivity|].
  intros [-> H]%andb_prop. exact (IH H).
Qed.

Lemma parseFloat_blank v : blank v = true -> parseFloat_opt v = NaN.
Proof.
  destruct v as [t|]; cbn [blank]; [|reflexivity]. intros H.
  change (parseFloat_opt (Some t)) with (parse_list (list_ascii_of_string t)).
  unfold parse_list. rewrite (trim_start_blank _ H). reflexivity.
Qed.

(** C18: an unanswered pair question is graded wrong: when a coordinate
    field is empty, blank or missing, [parseFloat] gives NaN, [nearlyEqual]
    rejects NaN, and [checkAnswer] counts the answer, keeps the score and
    resets the streak. *)
Theorem unanswered_rejected pg q :
  current pg = Some q -> answerShape q = "pair" ->
  blank (ans_x (fields pg)) = true \/ blank (ans_y (fields pg)) = true ->
  check_result pg = Some false /\
  counters (checkAnswer pg) = (correct pg, total pg + 1, 0)%Z.
Proof.
  intros Hq Hs Hb.
  assert (Hc : check_result pg = Some false).
  { unfold check_result, getUserAnswer. rewrite Hq, Hs. cbn [String.eqb Ascii.eqb Bool.eqb andb].
    f_equal. unfold pairEqual. cbn [fst snd].
    destruct Hb as [Hb | Hb]; rewrite (parseFloat_blank _ Hb); [reflexivity | apply andb_false_r]. }
  split; [exact Hc|]. pose proof (checkAnswer_counters pg) as Hk. rewrite Hc in Hk. apply Hk.
Qed.

Lemma unanswered_rejected_witness :
  let q0 := terminal_question (Fin 2, Fin 3) (Fin 4, Fin (-1)) in
  let pg0 := mkPage 3 5 1 (Some q0) None (mkFields (Some "") (Some "7") None) "" ("", "") "" "" "" in
  (current pg0 = Some q0 /\ answerShape q0 = "pair" /\
   (blank (ans_x (fields pg0)) = true \/ blank (ans_y (fields pg0)) = true)) /\
  check_result pg0 = Some false /\ counters (checkAnswer pg0) = (correct pg0, total pg0 + 1, 0)%Z.
Proof.
  intros q0 pg0.
  assert (H : current pg0 = Some q0 /\ answerShape q0 = "pair" /\
    (blank (ans_x (fields pg0)) = true \/ blank (ans_y (fields pg0)) = true))
    by (split; [reflexivity | split; [reflexivity | left; reflexivity]]).
  split; [exact H|]. destruct H as (H1 & H2 & H3). exact (unanswered_rejected pg0 q0 H1 H2 H3).
Defined.

(** ** Totality of [nextQuestion] *)

Lemma selected_generator_run k :
  k = "terminalFromInitialAndVector" \/ k = "initialFromTerminalAndVector" ->
  exists gen, generators !! k = Some gen /\
    forall r s, exists q, gen r s = (q, skip 4 s) /\ answerShape q = "pair" /\ kind q = k.
Proof.
  intros [-> | ->]; eexists; (split; [reflexivity|]); intros r s;
    [rewrite terminalFromInitialAndVector_run | rewrite initialFromTerminalAndVector_run]; eauto.
Qed.

Lemma drawQuestionGraph_total q pg :
  exists pg', drawQuestionGraph q pg = Some pg' /\
    current pg' = current pg /\ fields pg' = fields pg /\ qText pg' = qText pg /\
    feedback pg' = feedback pg /\ solution pg' = solution pg /\ counters pg' = counters pg.
Proof.
  unfold drawQuestionGraph. destruct (graph pg) as [g|]; [|eexists; repeat split].
  destruct (renderScene_finite (scene_loop q) (setBounds static_bounds g) (-10) 10 (-10) 10 eq_refl)
    as [g' E].
  unfold mbind, option_bind. rewrite E. eexists; repeat split.
Qed.

(** C14: [nextQuestion] always completes: for draws of [Math.random] in
    [[0,1)] it consumes five of them (the choice of the generator, then
    the four numbers), never calls [undefined] nor hangs in the grid
    loops, and leaves a question of one of the two kinds shown, with its
    prompt, two empty coordinate fields, the feedback and solution cleared
    and the scoreboard untouched. *)
Theorem nextQuestion_total pg s :
  unit_stream s ->
  exists pg' q, nextQuestion pg s = (Some pg', skip 5 s) /\
    current pg' = Some q /\ (kind q = "terminalFromInitialAndVector" \/ kind q = "initialFromTerminalAndVector") /\
    qText pg' = prompt q /\ fields pg' = mkFields (Some "") (Some "") None /\
    feedback pg' = ("feedback", "") /\ solution pg' = "" /\ counters pg' = counters pg.
Proof.
  intros Hs. destruct (choice_selectedTypes s (Hs O)) as (k & Ek & Hk).
  destruct (selected_generator_run k Hk) as (gen & Eg & Hgen).
  destruct (Hgen (difficultyRanges "medium") (stream_tail s)) as (q & Eq & Hshape & Hkind).
  unfold nextQuestion, rbind. rewrite Ek. cbn [mbind option_bind].
  match goal with |- context [match ?m with Some _ => _ | None => _ end] => replace m with (Some gen) by (symmetry; exact Eg) end.
  rewrite Eq.
  destruct (drawQuestionGraph_total q (setSolution "" (set_feedback ("feedback", "")
    (set_fields (buildInputs (answerShape q)) (set_qText (prompt q) (set_current (Some q) pg))))))
    as (pg' & E & H1 & H2 & H3 & H4 & H5 & H6).
  unfold rret. rewrite E. exists pg', q. rewrite H1, H2, H3, H4, H5, H6, Hshape, Hkind.
  repeat split; auto.
Qed.

Lemma nextQuestion_total_witness :
  let pg0 := mkPage 0 0 0 None (Some (create sample_canvas (Fin 1))) (mkFields None None None) "" ("", "") "" "" "" in
  unit_stream (fun _ => 1 # 3) /\
  exists pg' q, nextQuestion pg0 (fun _ => 1 # 3) = (Some pg', skip 5 (fun _ => 1 # 3)) /\
    current pg' = Some q /\ (kind q = "terminalFromInitialAndVector" \/ kind q = "initialFromTerminalAndVector") /\
    qText pg' = prompt q /\ fields pg' = mkFields (Some "") (Some "") None /\
    feedback pg' = ("feedback", "") /\ solution pg' = "" /\ counters pg' = counters pg0.
Proof.
  intros pg0. assert (H : unit_stream (fun _ => 1 # 3)) by (intros n; simpl; lra).
  split; [exact H | exact (nextQuestion_total pg0 _ H)].
Defined.

(** ** Well-formed questions *)

(** A question the page can grade and draw: a pair answer of finite
    numbers, and finite points and arrow ends in its drawing. *)
Definition wf_question (q : Question) : bool :=
  String.eqb (answerShape q) "pair" && finite_point (answer q) &&
  forallb (fun d => finite_point (p d)) (points (draw q)) &&
  forallb (fun d => finite_point (from d) && finite_point (to d)) (arrows (draw q)).

Lemma terminal_question_wf P v :
  finite_point P = true -> finite_point v = true -> wf_question (terminal_question P v) = true.
Proof.
  destruct P as [[a| | |] [b| | |]], v as [[c| | |] [d| | |]]; try discriminate. intros _ _.
  unfold wf_question, finite_point. cbn -[to_fixed]. rewrite !to_fixed_finite by reflexivity. reflexivity.
Qed.

Lemma initial_question_wf Q v :
  finite_point Q = true -> finite_point v = true -> wf_question (initial_question Q v) = true.
Proof.
  destruct Q as [[a| | |] [b| | |]], v as [[c| | |] [d| | |]]; try discriminate. intros _ _.
  unfold wf_question, finite_point. cbn -[to_fixed]. rewrite !to_fixed_finite by reflexivity. reflexivity.
Qed.

Lemma medium_sample_finite s i : unit_stream s -> is_finite (sample (difficultyRanges "medium") s i) = true.
Proof. intros Hs. destruct (medium_sample s i Hs) as (k & _ & E). rewrite E. reflexivity. Qed.

Lemma generators_lookup k gen :
  generators !! k = Some gen -> gen = terminalFromInitialAndVector \/ gen = initialFromTerminalAndVector.
Proof. unfold generators. rewrite !lookup_insert_Some, lookup_empty. intuition congruence. Qed.

Lemma nextQuestion_wf pg s pg' s' :
  unit_stream s -> nextQuestion pg s = (Some pg', s') ->
  unit_stream s' /\ exists q, current pg' = Some q /\ wf_question q = true.
Proof.
  intros Hs. unfold nextQuestion, rbind. destruct (choice selectedTypes s) as [k s1] eqn:Ec.
  rewrite choice_eq in Ec. injection Ec as _ <-.
  destruct (k ≫= _) as [gen|] eqn:Eg; [|discriminate]. apply bind_Some in Eg as (k' & _ & Eg).
  pose proof (unit_stream_tail s Hs) as Ht.
  apply generators_lookup in Eg as [-> | ->];
    [rewrite terminalFromInitialAndVector_run | rewrite initialFromTerminalAndVector_run]; unfold rret;
    match goal with |- context [drawQuestionGraph ?q ?pg0] =>
      destruct (drawQuestionGraph_total q pg0) as (pg1 & E & H1 & _); rewrite E end;
    intros [= <- <-]; (split; [exact (unit_stream_skip 4 _ Ht)|]);
    (eexists; split; [rewrite H1; reflexivity|]);
    [apply terminal_question_wf | apply initial_question_wf]; unfold finite_point; cbn [fst snd];
    rewrite !medium_sample_finite by exact Ht; reflexivity.
Qed.

Lemma handle_current ev pg s pg' s' :
  ev <> ENext -> handle ev pg s = (Some pg', s') -> current pg' = current pg /\ s' = s.
Proof.
  destruct ev; [congruence|..]; intros _; cbn [handle rret]; intros [= <- <-]; page_cases; auto.
Qed.

Lemma handle_unit_stream ev pg s pg' s' :
  unit_stream s -> handle ev pg s = (Some pg', s') -> unit_stream s'.
Proof.
  intros Hs Eh. destruct ev; [exact (proj1 (nextQuestion_wf pg s pg' s' Hs Eh))|..];
    (assert (Hc : current pg' = current pg /\ s' = s) by (eapply handle_current; [| exact Eh]; discriminate));
    destruct Hc as [_ ->]; exact Hs.
Qed.

(** Along a run the draws left are draws of [Math.random]. *)
Lemma run_unit_stream ps log : run ps log -> unit_stream ps.2.
Proof.
  induction 1 as [el dpr f0 texts pg s _ Hs|ps ev ps' log _ IH Hst]; [exact Hs|].
  inversion Hst; subst. eapply handle_unit_stream; eauto.
Qed.

(** C17: every question the page shows is well formed: along every run,
    the current question has a pair answer of finite numbers and draws
    only finite points and arrow ends, so grading and drawing never meet
    NaN or an infinity coming from a question. *)
Theorem shown_question_wf ps log q :
  run ps log -> current ps.1 = Some q -> wf_question q = true.
Proof.
  intros H. revert q.
  enough (G : unit_stream ps.2 /\ forall q, current ps.1 = Some q -> wf_question q = true) by apply G.
  induction H as [el dpr f0 texts pg s Hb Hs|ps ev ps' log _ [IHs IHq] Hst].
  - destruct (boot_counters _ _ _ _ _ Hb) as (_ & _ & E). split; [exact Hs|]. cbn. congruence.
  - inversion Hst as [ev' pg s pg' s' Eh]; subst. cbn [fst snd] in *.
    destruct ev; [|assert (Hc : current pg' = current pg /\ s' = s)
                     by (eapply handle_current; [| exact Eh]; discriminate);
                   destruct Hc as [E ->]; split; [exact IHs | intros q; rewrite E; apply IHq]..].
    destruct (nextQuestion_wf pg s pg' s' IHs Eh) as (Hs' & q' & E & W).
    split; [exact Hs'|]. intros q. rewrite E. intros [= <-]. exact W.
Qed.

Lemma shown_question_wf_witness :
  let s0 : stream := fun _ => 1 # 2 in
  let pg0 := default blank_page (boot None (Fin 1) (mkFields None None None) ("", "", "")) in
  let pg1 := default pg0 (handle ENext pg0 s0).1 in
  let s1 := (handle ENext pg0 s0).2 in
  let q := default (terminal_question (Fin 0, Fin 0) (Fin 0, Fin 0)) (current pg1) in
  (run (pg1, s1) nil /\ current pg1 = Some q) /\ wf_question q = true.
Proof.
  intros s0 pg0 pg1 s1 q.
  assert (H0 : run (pg0, s0) nil)
    by (apply (run_boot None (Fin 1) (mkFields None None None) ("", "", "")); [reflexivity | intros n; unfold s0; lra]).
  assert (H1 : run (pg1, s1) nil).
  { apply (run_step (pg0, s0) ENext (pg1, s1) nil H0). constructor. vm_compute. reflexivity. }
  assert (H2 : current pg1 = Some q) by (vm_compute; reflexivity).
  split; [split; assumption|]. exact (shown_question_wf (pg1, s1) nil q H1 H2).
Defined.

