(* ===== verification/Shell.v ===== *)
(** * Shell: element lookups, listener wiring and uncaught errors (src/app.js 4-19, 237-264, 278-318, 348-370)

    The script looks its elements up once, when it loads ([$] and [els],
    app.js 4-19), and dereferences them later without testing them (the
    canvas apart).  A [null] element makes the statement that uses it throw
    a [TypeError]; the exception ends the handler (or the loading script)
    where it is thrown, and everything assigned before stays assigned.

    This file models the document as the list of its elements, [$] and
    [$$] as lookups by id, and the script as programs of a small monad
    [Script] on the page state of Session.v together with the listeners
    registered so far: a program either does not terminate ([None]),
    returns, or throws, and in the last two cases gives the state it left.
    [main] is the loading script (listener registration, then
    [updateScoreboard()] and [initGraph()]); [dispatch] runs the listener
    of an event when it is registered; [reach] is the states a document
    reaches.  The handlers of Session.v are the special case of a document
    that has every element: [run_listener_complete] and
    [main_complete] show the programs here compute exactly the handlers
    there, and [shell_refines_session] that every state reached from such a
    document is a state of a Session run.  Two theorems follow a document
    that lacks an element, where the code runs partially. *)

From S2P Require Import Prelude JsNumber JsString NumParse Tolerance Transform Sampler Generator Canvas Graph Session.
From Stdlib Require Import Ascii.

Local Open Scope list_scope.
Local Open Scope string_scope.

(** ** The document *)

(** An element: its id, and its drawing surface when it is a [<canvas>]. *)
Record Element : Type := mkElement { el_id : string; el_canvas : option CanvasEl }.

(** The elements of the page in tree order. *)
Definition Document : Type := list Element.

(** [$ = (sel) => document.querySelector(sel)]: the first element in tree
    order that the selector matches.  The script only passes id selectors
    [#id]; other selectors match nothing here. *)
Definition dollar (d : Document) (sel : string) : option Element :=
  match sel with
  | String c id => if Ascii.eqb c "#"%char then List.find (fun el => String.eqb (el_id el) id) d else None
  | EmptyString => None
  end.

(** [$$ = (sel) => Array.from(document.querySelectorAll(sel))]: every
    match, in tree order. *)
Definition dollars (d : Document) (sel : string) : list Element :=
  match sel with
  | String c id => if Ascii.eqb c "#"%char then List.filter (fun el => String.eqb (el_id el) id) d else []
  | EmptyString => []
  end.

(** The object [els]: [null] is [None]. *)
Record Els : Type := mkEls {
  e_qText : option Element;
  e_form : option Element;
  e_feedback : option Element;
  e_solution : option Element;
  e_score : option Element;
  e_streak : option Element;
  e_next : option Element;
  e_submit : option Element;
  e_reveal : option Element;
  e_canvas : option Element
}.

Definition mk_els (d : Document) : Els :=
  mkEls (dollar d "#question-text") (dollar d "#answer-form") (dollar d "#feedback") (dollar d "#solution")
        (dollar d "#score") (dollar d "#streak") (dollar d "#next-btn") (dollar d "#submit-btn")
        (dollar d "#reveal-btn") (dollar d "#graph").

(** [querySelector] is the first element [querySelectorAll] lists. *)
Lemma dollar_dollars d sel : dollar d sel = head (dollars d sel).
Proof.
  destruct sel as [|c id]; [reflexivity|]. cbn [dollar dollars]. destruct (Ascii.eqb c _); [|reflexivity].
  induction d as [|el d IH]; [reflexivity|]. cbn. destruct (String.eqb _ _); [reflexivity | exact IH].
Qed.

(** ** Listeners and uncaught errors *)

(** The listeners the script adds: the three buttons' [click], the form's
    [keydown], the window's [resize] (in [Graph.create]) and the canvas's
    [click]. *)
Inductive Listener : Type := LNext | LSubmit | LReveal | LKeydown | LResize | LClick.

#[export] Instance Listener_eq_dec : EqDecision Listener.
Proof. solve_decision. Defined.

(** The uncaught exceptions of the script: a [TypeError], with the
    property the statement reads or writes. *)
Inductive JsError : Type := TypeError (prop : string).

(** The outcome of a program that terminates: a value or an exception. *)
Inductive ans (A : Type) : Type :=
| Val (a : A)
| Exn (e : JsError).
Arguments Val {A} a.
Arguments Exn {A} e.

(** The state of the running page: the page of Session.v and the
    listeners registered, oldest first. *)
Record Shell : Type := mkShell { page : Page; wired : list Listener }.

(** A program of the script: from the state and the draws of
    [Math.random] to [None] when it does not terminate, or its outcome with
    the state it leaves. *)
Definition Script (A : Type) : Type := Shell * stream -> option (ans A * (Shell * stream)).

Definition sret {A} (x : A) : Script A := fun st => Some (Val x, st).

Definition sbind {A B} (m : Script A) (k : A -> Script B) : Script B := fun st =>
  match m st with
  | None => None
  | Some (Val x, st') => k x st'
  | Some (Exn e, st') => Some (Exn e, st')
  end.

Declare Scope script_scope.
Notation "'do' x <- m ; k" := (sbind m (fun x => k))
  (at level 10, x name, m at level 100, k at level 200) : script_scope.
Local Open Scope script_scope.

Definition throw {A} (e : JsError) : Script A := fun st => Some (Exn e, st).

(** Reading or writing property [prop] of an element of [els]. *)
Definition deref {A} (o : option A) (prop : string) : Script A :=
  match o with
  | Some x => sret x
  | None => throw (TypeError prop)
  end.

(** An assignment to the page state. *)
Definition modify (f : Page -> Page) : Script unit := fun '(sh, s) =>
  Some (Val tt, (mkShell (f (page sh)) (wired sh), s)).

(** A statement that assigns the page or does not terminate. *)
Definition modify_opt (f : Page -> option Page) : Script unit := fun '(sh, s) =>
  match f (page sh) with
  | Some pg => Some (Val tt, (mkShell pg (wired sh), s))
  | None => None
  end.

Definition get_page : Script Page := fun st => Some (Val (page st.1), st).

Definition listeners : Script (list Listener) := fun st => Some (Val (wired st.1), st).

(** Draws of [Math.random]. *)
Definition random {A} (m : Rnd A) : Script A := fun '(sh, s) =>
  let '(x, s') := m s in Some (Val x, (sh, s')).

(** A listener added. *)
Definition register (l : Listener) : Script unit := fun '(sh, s) =>
  Some (Val tt, (mkShell (page sh) (wired sh ++ [l]), s)).

(** [target.addEventListener(type, l)] on an element of [els]. *)
Definition listen (target : option Element) (l : Listener) : Script unit :=
  do _ <- deref target "addEventListener";
  register l.

(** ** The handlers, statement by statement *)

(** [updateScoreboard()] (app.js 237-240): two assignments, to [#score]
    and to [#streak]. *)
Definition updateScoreboard_dom (e : Els) : Script unit :=
  do _ <- deref (e_score e) "textContent";
  do _ <- modify (fun pg => set_board (scoreText (updateScoreboard pg)) (streakText pg) pg);
  do _ <- deref (e_streak e) "textContent";
  modify (fun pg => set_board (scoreText pg) (streakText (updateScoreboard pg)) pg).

(** [setFeedback(ok, msg)] (app.js 242-245). *)
Definition setFeedback_dom (e : Els) (ok : bool) (msg : string) : Script unit :=
  do _ <- deref (e_feedback e) "className";
  modify (setFeedback ok msg).

(** [setSolution(text)] (app.js 247-249). *)
Definition setSolution_dom (e : Els) (text : string) : Script unit :=
  do _ <- deref (e_solution e) "textContent";
  modify (setSolution text).

(** [buildInputs(shape)] (app.js 218-235): [els.form.innerHTML = ''] is
    its first statement. *)
Definition buildInputs_dom (e : Els) (shape : string) : Script unit :=
  do _ <- deref (e_form e) "innerHTML";
  modify (set_fields (buildInputs shape)).

(** [nextQuestion()] (app.js 251-264): [state.current] is assigned before
    the first element is used. *)
Definition nextQuestion_dom (e : Els) : Script unit :=
  do k <- random (choice selectedTypes);
  match k ≫= (generators !!.) with
  | None => throw (TypeError "call")
  | Some gen =>
      do q <- random (gen (difficultyRanges "medium"));
      do _ <- modify (set_current (Some q));
      do _ <- deref (e_qText e) "textContent";
      do _ <- modify (set_qText (prompt q));
      do _ <- buildInputs_dom e (answerShape q);
      do _ <- deref (e_feedback e) "className";
      do _ <- modify (set_feedback ("feedback", ""));
      do _ <- setSolution_dom e "";
      modify_opt (drawQuestionGraph q)
  end.

(** [checkAnswer()] (app.js 278-299): the counters change before
    [setFeedback] and [updateScoreboard] use the elements. *)
Definition checkAnswer_dom (e : Els) : Script unit :=
  do pg <- get_page;
  match check_result pg with
  | None => sret tt
  | Some ok =>
      do _ <- modify (fun pg => set_counters (correct pg) (total pg + 1) (streak pg) pg);
      do _ <- (if ok
               then do _ <- modify (fun pg => set_counters (correct pg + 1) (total pg) (streak pg + 1) pg);
                    setFeedback_dom e true "Correct!"
               else do _ <- modify (fun pg => set_counters (correct pg) (total pg) 0 pg);
                    setFeedback_dom e false "Not quite. Try another or reveal solution.");
      updateScoreboard_dom e
  end.

(** [revealSolution()] (app.js 301-305). *)
Definition revealSolution_dom (e : Els) : Script unit :=
  do pg <- get_page;
  match current pg with
  | None => sret tt
  | Some q => setSolution_dom e ("Solution: " ++ explain q)
  end.

(** The body of the listener an event triggers (app.js 308-318, 351-364
    and the [resize] of [Graph.create]); typing into a field is the
    browser's own doing. *)
Definition run_listener (e : Els) (ev : Event) : Script unit :=
  match ev with
  | ENext => nextQuestion_dom e
  | ESubmit | EEnter => checkAnswer_dom e
  | EReveal => revealSolution_dom e
  | EClick px py => modify (onCanvasClick px py)
  | EInput fid v => modify (fun pg => set_fields (input_field fid v (fields pg)) pg)
  | EResize dpr b => modify (onResize dpr b)
  end.

Definition listener_of (ev : Event) : option Listener :=
  match ev with
  | ENext => Some LNext
  | ESubmit => Some LSubmit
  | EReveal => Some LReveal
  | EEnter => Some LKeydown
  | EClick _ _ => Some LClick
  | EResize _ _ => Some LResize
  | EInput _ _ => None
  end.

(** An event runs its listener if the script registered it. *)
Definition dispatch (e : Els) (ev : Event) : Script unit :=
  do w <- listeners;
  match listener_of ev with
  | Some l => if decide (l ∈ w) then run_listener e ev else sret tt
  | None => run_listener e ev
  end.

(** ** Loading *)

(** [initGraph()] (app.js 348-367): no canvas, no graph; an element
    [#graph] that is not a canvas has no [getContext].  [Graph.create]
    adds the window's [resize] listener before it returns. *)
Definition initGraph_dom (e : Els) (dpr : num) : Script unit :=
  match e_canvas e with
  | None => sret tt
  | Some el =>
      match el_canvas el with
      | None => throw (TypeError "getContext")
      | Some c =>
          let g := create c dpr in
          do _ <- register LResize;
          do _ <- modify (set_graph (Some g));
          do _ <- listen (e_canvas e) LClick;
          do _ <- modify (set_graph (Some (setBounds static_bounds g)));
          modify_opt (fun pg => g' ← renderScene [] (setBounds static_bounds g); Some (set_graph (Some g') pg))
      end
  end.

(** The script's top level after its definitions (app.js 308-318 and
    369-370). *)
Definition main (e : Els) (dpr : num) : Script unit :=
  do _ <- listen (e_next e) LNext;
  do _ <- listen (e_submit e) LSubmit;
  do _ <- listen (e_reveal e) LReveal;
  do _ <- listen (e_form e) LKeydown;
  do _ <- updateScoreboard_dom e;
  initGraph_dom e dpr.

(** The states a document reaches: the loaded script (whether or not it
    threw), then events one after the other; an exception in a listener
    leaves the page running. *)
Inductive reach (d : Document) : Shell * stream -> Prop :=
| reach_load dpr f0 texts s r st :
    unit_stream s -> main (mk_els d) dpr (mkShell (initial_page f0 texts) [], s) = Some (r, st) -> reach d st
| reach_event st ev r st' :
    reach d st -> dispatch (mk_els d) ev st = Some (r, st') -> reach d st'.

(** ** Invariants of scripts

    [keeps P m]: whether [m] returns or throws, it leaves a state in [P]
    if it starts in one.  [fails m]: [m] never returns normally, so what
    follows it in a sequence does not run. *)

Definition keeps {A} (P : Shell -> Prop) (m : Script A) : Prop :=
  forall sh s r sh' s', P sh -> m (sh, s) = Some (r, (sh', s')) -> P sh'.

Definition fails {A} (m : Script A) : Prop :=
  forall st r st', m st = Some (r, st') -> exists err, r = Exn err.

Section Keeps.
Context (P : Shell -> Prop).

Lemma keeps_ret {A} (x : A) : keeps P (sret x).
Proof. intros sh s r sh' s' H [= _ <- _]. exact H. Qed.

Lemma keeps_throw {A} err : keeps P (@throw A err).
Proof. intros sh s r sh' s' H [= _ <- _]. exact H. Qed.

Lemma keeps_deref {A} (o : option A) prop : keeps P (deref o prop).
Proof. destruct o; [apply keeps_ret | apply keeps_throw]. Qed.

Lemma keeps_get_page : keeps P get_page.
Proof. intros sh s r sh' s' H [= _ <- _]. exact H. Qed.

Lemma keeps_listeners : keeps P listeners.
Proof. intros sh s r sh' s' H [= _ <- _]. exact H. Qed.

Lemma keeps_random {A} (m : Rnd A) : keeps P (random m).
Proof. intros sh s r sh' s' H. cbv [random]. destruct (m s). intros [= _ <- _]. exact H. Qed.

Lemma keeps_modify f :
  (forall pg w, P (mkShell pg w) -> P (mkShell (f pg) w)) -> keeps P (modify f).
Proof. intros Hf [pg w] s r sh' s' H [= _ <- _]. exact (Hf pg w H). Qed.

Lemma keeps_modify_opt f :
  (forall pg w pg', P (mkShell pg w) -> f pg = Some pg' -> P (mkShell pg' w)) -> keeps P (modify_opt f).
Proof.
  intros Hf [pg w] s r sh' s' H. cbv [modify_opt page wired].
  destruct (f pg) eqn:E; [intros [= _ <- _]; exact (Hf _ _ _ H E) | discriminate].
Qed.

Lemma keeps_register l :
  (forall pg w, P (mkShell pg w) -> P (mkShell pg (w ++ [l]))) -> keeps P (register l).
Proof. intros Hf [pg w] s r sh' s' H [= _ <- _]. exact (Hf pg w H). Qed.

Lemma keeps_bind {A B} (m : Script A) (k : A -> Script B) :
  keeps P m -> (forall x, keeps P (k x)) -> keeps P (sbind m k).
Proof.
  intros Hm Hk sh s r sh' s' H. unfold sbind.
  destruct (m (sh, s)) as [[[x|err] [sh1 s1]]|] eqn:E; [| intros [= _ <- _] |discriminate].
  - apply (Hk x sh1 s1). exact (Hm _ _ _ _ _ H E).
  - exact (Hm _ _ _ _ _ H E).
Qed.

Lemma keeps_bind_fails {A B} (m : Script A) (k : A -> Script B) :
  keeps P m -> fails m -> keeps P (sbind m k).
Proof.
  intros Hm Hf sh s r sh' s' H. unfold sbind.
  destruct (m (sh, s)) as [[[x|err] [sh1 s1]]|] eqn:E; [| intros [= _ <- _] |discriminate].
  - destruct (Hf _ _ _ E) as [? [=]].
  - exact (Hm _ _ _ _ _ H E).
Qed.

End Keeps.

Lemma fails_throw {A} err : fails (@throw A err).
Proof. intros st r st' [= <- _]. eauto. Qed.

Lemma fails_deref_none {A} prop : fails (@deref A None prop).
Proof. apply fails_throw. Qed.

Lemma fails_bind_l {A B} (m : Script A) (k : A -> Script B) : fails m -> fails (sbind m k).
Proof.
  intros Hf st r st'. unfold sbind.
  destruct (m st) as [[[x|err] st1]|] eqn:E; [destruct (Hf _ _ _ E) as [? [=]] | intros [= <- _]; eauto | discriminate].
Qed.

Lemma fails_bind_r {A B} (m : Script A) (k : A -> Script B) : (forall x, fails (k x)) -> fails (sbind m k).
Proof.
  intros Hk st r st'. unfold sbind.
  destruct (m st) as [[[x|err] st1]|] eqn:E; [apply Hk | intros [= <- _]; eauto | discriminate].
Qed.

Create HintDb script.
#[export] Hint Resolve keeps_ret keeps_throw keeps_deref keeps_get_page keeps_listeners keeps_random : script.
#[export] Hint Resolve fails_throw fails_deref_none fails_bind_l fails_bind_r : script.

(** Proves [keeps P m] statement by statement; [fin] proves the
    remaining goals about single assignments. *)
Ltac keeps_tac fin :=
  repeat match goal with
  | |- keeps _ (sbind (match ?x with _ => _ end) _) => destruct x
  | |- keeps _ (sbind ?m _) => first [apply keeps_bind_fails; [|solve [eauto with script]] | apply keeps_bind; [|intros ?]]
  | |- keeps _ (match ?x with _ => _ end) => destruct x
  | |- keeps _ (modify _) => apply keeps_modify; intros ? ?
  | |- keeps _ (modify_opt _) => apply keeps_modify_opt; intros ? ? ?
  | |- keeps _ (register _) => apply keeps_register; intros ? ?
  | |- keeps _ _ => solve [eauto with script]
  end; try fin.

(** ** The complete document *)

Definition present {A} (o : option A) : bool := match o with Some _ => true | None => false end.

(** Every element the script uses is there, and [#graph], if there, is a
    canvas. *)
Definition els_ok (e : Els) : bool :=
  present (e_qText e) && present (e_form e) && present (e_feedback e) && present (e_solution e) &&
  present (e_score e) && present (e_streak e) && present (e_next e) && present (e_submit e) &&
  present (e_reveal e) && match e_canvas e with Some el => present (el_canvas el) | None => true end.

Definition canvas_of (e : Els) : option CanvasEl := e_canvas e ≫= el_canvas.

(** The listeners a complete document ends up with. *)
Definition wiring (e : Els) : list Listener :=
  [LNext; LSubmit; LReveal; LKeydown] ++ (if present (canvas_of e) then [LResize; LClick] else []).

(** A handler of Session.v as a program outcome. *)
Definition lift (w : list Listener) (h : option Page * stream) : option (ans unit * (Shell * stream)) :=
  match h with
  | (Some pg, s) => Some (Val tt, (mkShell pg w, s))
  | (None, _) => None
  end.

(** Splits [els_ok e] into the elements it asserts. *)
Ltac els_cases H :=
  let e := match type of H with els_ok ?e = true => e end in
  destruct e as [[?|] [?|] [?|] [?|] [?|] [?|] [?|] [?|] [?|] c]; cbn in H; try discriminate H;
  cbn [e_qText e_form e_feedback e_solution e_score e_streak e_next e_submit e_reveal e_canvas].

(** Runs the statements of a script on a concrete state. *)
Ltac script_red :=
  cbv [sbind sret throw deref modify modify_opt get_page listeners random register listen lift rret
       updateScoreboard_dom setFeedback_dom setSolution_dom buildInputs_dom
       e_qText e_form e_feedback e_solution e_score e_streak e_next e_submit e_reveal e_canvas page wired fst snd].

Lemma nextQuestion_dom_complete e pg w s :
  els_ok e = true -> unit_stream s -> nextQuestion_dom e (mkShell pg w, s) = lift w (nextQuestion pg s).
Proof.
  intros H Hs. destruct (choice_selectedTypes s (Hs O)) as (k & Ek & Hk).
  destruct (selected_generator_run k Hk) as (gen & Eg & _).
  unfold nextQuestion_dom, nextQuestion, rbind, sbind at 1, random at 1. rewrite Ek. cbn [mbind option_bind].
  replace (generators !! k) with (Some gen) by (symmetry; exact Eg).
  unfold sbind at 1, random at 1.
  destruct (gen (difficultyRanges "medium") (stream_tail s)) as [q s2].
  els_cases H; script_red.
  destruct (drawQuestionGraph q _); reflexivity.
Qed.

Lemma checkAnswer_dom_complete e pg w s :
  els_ok e = true -> checkAnswer_dom e (mkShell pg w, s) = Some (Val tt, (mkShell (checkAnswer pg) w, s)).
Proof.
  intros H. unfold checkAnswer_dom, checkAnswer. els_cases H. script_red.
  destruct (check_result pg) as [[|]|]; reflexivity.
Qed.

Lemma revealSolution_dom_complete e pg w s :
  els_ok e = true -> revealSolution_dom e (mkShell pg w, s) = Some (Val tt, (mkShell (revealSolution pg) w, s)).
Proof.
  intros H. unfold revealSolution_dom, revealSolution. els_cases H. script_red.
  destruct (current pg); reflexivity.
Qed.

(** C19: with every element present, the listener of each event computes
    exactly the handler of Session.v: the same page and the same draws
    left, and no exception. *)
Theorem run_listener_complete e ev pg w s :
  els_ok e = true -> unit_stream s -> run_listener e ev (mkShell pg w, s) = lift w (handle ev pg s).
Proof.
  intros H Hs. destruct ev; cbn [run_listener handle].
  - exact (nextQuestion_dom_complete e pg w s H Hs).
  - exact (checkAnswer_dom_complete e pg w s H).
  - exact (revealSolution_dom_complete e pg w s H).
  - exact (checkAnswer_dom_complete e pg w s H).
  - reflexivity.
  - reflexivity.
  - reflexivity.
Qed.

(** A document with every element but no canvas. *)
Definition page_ids : list string :=
  ["question-text"; "answer-form"; "feedback"; "solution"; "score"; "streak"; "next-btn"; "submit-btn"; "reveal-btn"].

Definition sample_document (ids : list string) (cv : option CanvasEl) : Document :=
  (map (fun i => mkElement i None) ids ++ match cv with Some c => [mkElement "graph" (Some c)] | None => [] end)%list.

Definition half_stream : stream := fun _ => 1 # 2.

Lemma half_stream_unit : unit_stream half_stream.
Proof. intros n. unfold half_stream. lra. Qed.

Lemma run_listener_complete_witness :
  let e := mk_els (sample_document page_ids (Some sample_canvas)) in
  (els_ok e = true /\ unit_stream half_stream) /\
  run_listener e ESubmit (mkShell blank_page [], half_stream) = lift [] (handle ESubmit blank_page half_stream).
Proof.
  intros e. assert (H : els_ok e = true) by (vm_compute; reflexivity).
  split; [split; [exact H | exact half_stream_unit]|]. exact (run_listener_complete e ESubmit blank_page [] half_stream H half_stream_unit).
Defined.

Lemma main_complete e dpr pg0 s :
  els_ok e = true ->
  main e dpr (mkShell pg0 [], s) = lift (wiring e) (initGraph (canvas_of e) dpr (updateScoreboard pg0), s).
Proof.
  intros H. unfold main, initGraph_dom, initGraph, wiring, canvas_of. els_cases H.
  destruct c as [[id [cv|]]|]; [|discriminate|]; script_red; cbn [mbind option_bind el_canvas present app].
  - destruct (renderScene [] (setBounds static_bounds (create cv dpr))); reflexivity.
  - reflexivity.
Qed.

(** An event either finds no listener and changes nothing, or runs its
    listener. *)
Lemma dispatch_cases e ev st r st' :
  dispatch e ev st = Some (r, st') -> (r = Val tt /\ st' = st) \/ run_listener e ev st = Some (r, st').
Proof.
  unfold dispatch, sbind at 1, listeners. destruct (listener_of ev) as [l|]; [destruct (decide _)|]; auto.
  unfold sret. intros [= <- <-]. auto.
Qed.

(** C8: refinement of the page by the script: from a document that has
    every element, each state the page reaches has exactly the listeners
    of the wiring, and its page state with the draws left is a state of a
    run of Session.v, so the theorems on runs hold of the script itself. *)
Theorem shell_refines_session d st :
  els_ok (mk_els d) = true -> reach d st ->
  wired st.1 = wiring (mk_els d) /\ exists log, run (page st.1, st.2) log.
Proof.
  intros Hok. induction 1 as [dpr f0 texts s r st Hs Em|[sh s] ev r st' _ [Hw [log IH]] Ed].
  - rewrite main_complete in Em by exact Hok.
    destruct (initGraph _ _ _) as [pg|] eqn:Eb; cbn [lift] in Em; [|discriminate]. injection Em as _ <-.
    split; [reflexivity|]. exists []. apply (run_boot (canvas_of (mk_els d)) dpr f0 texts); [exact Eb | exact Hs].
  - destruct (dispatch_cases _ _ _ _ _ Ed) as [[_ ->]|Er]; [split; [exact Hw | exists log; exact IH]|].
    destruct sh as [pg w]. cbn [fst snd page wired] in *.
    rewrite (run_listener_complete _ _ _ _ _ Hok (run_unit_stream _ _ IH : unit_stream s)) in Er.
    destruct (handle ev pg s) as [[pg'|] s'] eqn:Eh; cbn [lift] in Er; [|discriminate]. injection Er as _ <-.
    split; [exact Hw|]. eexists. apply (run_step (pg, s) ev (pg', s') log IH). constructor. exact Eh.
Qed.

(** The state a script leaves, for the examples. *)
Definition final (m : Script unit) (st : Shell * stream) : Shell * stream :=
  match m st with Some (_, st') => st' | None => st end.

Definition loaded (d : Document) : Shell * stream :=
  final (main (mk_els d) (Fin 1)) (mkShell (initial_page (mkFields None None None) ("", "", "")) [], half_stream).

Lemma reach_loaded d : main (mk_els d) (Fin 1) (mkShell (initial_page (mkFields None None None) ("", "", "")) [], half_stream) <> None ->
  reach d (loaded d).
Proof.
  unfold loaded, final. destruct (main _ _ _) as [[r st]|] eqn:E; [|congruence]. intros _.
  exact (reach_load d _ _ _ _ _ _ half_stream_unit E).
Qed.

Lemma reach_next d st ev : reach d st -> dispatch (mk_els d) ev st <> None -> reach d (final (dispatch (mk_els d) ev) st).
Proof.
  unfold final. destruct (dispatch _ _ _) as [[r st']|] eqn:E; [|congruence]. intros H _.
  exact (reach_event d _ _ _ _ H E).
Qed.

Lemma shell_refines_session_witness :
  let d := sample_document page_ids None in
  let st := final (dispatch (mk_els d) ENext) (loaded d) in
  (els_ok (mk_els d) = true /\ reach d st) /\
  (wired st.1 = wiring (mk_els d) /\ exists log, run (page st.1, st.2) log).
Proof.
  intros d st. assert (H1 : els_ok (mk_els d) = true) by (vm_compute; reflexivity).
  assert (H2 : reach d st) by (apply reach_next; [apply reach_loaded|]; vm_compute; discriminate).
  split; [split; assumption|]. exact (shell_refines_session d st H1 H2).
Defined.

(** ** A document without an element *)

(** Unfolds the handlers into their statements. *)
Ltac unfold_handlers :=
  unfold run_listener, nextQuestion_dom, checkAnswer_dom, revealSolution_dom, updateScoreboard_dom,
         setFeedback_dom, setSolution_dom, buildInputs_dom.

(** The assignments of the handlers, seen from a field [fld] of the
    page they do not write: [Hg] is what is known of [fld pg]. *)
Ltac field_fin :=
  unfold drawQuestionGraph, onCanvasClick, onResize, setFeedback, setSolution, updateScoreboard in *;
  cbn [graph scoreText streakText set_current set_qText set_fields set_feedback set_solution set_counters set_board] in *;
  repeat match goal with
  | |- context [match ?x with _ => _ end] => destruct x eqn:?
  | E : context [match ?x with _ => _ end] |- _ => destruct x eqn:?
  end;
  cbn [graph scoreText streakText set_fields] in *; first [assumption | congruence].

(** Without a graph, no listener creates one or adds a listener. *)
Lemma run_listener_no_graph e ev w0 :
  keeps (fun sh => graph (page sh) = None /\ wired sh = w0) (run_listener e ev).
Proof.
  unfold_handlers. destruct ev; keeps_tac idtac; cbn [page wired];
    intros [Hg Hw]; try intros ?E; (split; [|exact Hw]); field_fin.
Qed.

(** C20: the order of the loading script matters: in a document without
    [#score] whose buttons and form are there, [updateScoreboard()] throws
    before [initGraph()] runs, so however the page is used afterwards it
    never has a graph (even when [#graph] is a canvas) and only the
    listeners of the buttons and the form are registered. *)
Theorem missing_score_no_graph d st :
  e_score (mk_els d) = None ->
  present (e_next (mk_els d)) && present (e_submit (mk_els d)) && present (e_reveal (mk_els d)) &&
    present (e_form (mk_els d)) = true ->
  reach d st -> graph (page st.1) = None /\ wired st.1 = [LNext; LSubmit; LReveal; LKeydown].
Proof.
  intros Hs Hp. induction 1 as [dpr f0 texts s r st _ Em|[sh s] ev r [sh' s'] _ IH Ed].
  - revert Em. unfold main, updateScoreboard_dom. generalize (mk_els d) Hs Hp. clear Hs Hp.
    intros [q [f|] fb so sc sk [n|] [su|] [re|] c] Hs Hp; cbn in Hs, Hp; try discriminate. subst sc.
    destruct texts as [[? ?] ?]. script_red. intros [= _ <-]. split; reflexivity.
  - destruct (dispatch_cases _ _ _ _ _ Ed) as [[_ [= -> ->]]|Er]; [exact IH|].
    exact (run_listener_no_graph _ _ _ _ _ _ _ _ IH Er).
Qed.

(** With [#feedback] missing, no listener changes the scoreboard. *)
Lemma run_listener_board e ev b0 :
  e_feedback e = None -> keeps (fun sh => board (page sh) = b0) (run_listener e ev).
Proof.
  intros Hf. unfold_handlers. rewrite Hf. unfold board.
  destruct ev; keeps_tac idtac; cbn [page]; intros Hb; try intros ?E; field_fin.
Qed.

Lemma initGraph_dom_board e dpr b0 : keeps (fun sh => board (page sh) = b0) (initGraph_dom e dpr).
Proof.
  unfold initGraph_dom, listen, board. keeps_tac idtac; cbn [page]; intros Hb; try intros ?E;
    try (destruct (renderScene _ _) in E; cbn [mbind option_bind] in E; [injection E as <-|discriminate]); field_fin.
Qed.

(** C21: an element missing makes a handler stop half way: in a document
    without [#feedback] (and with the buttons, the form and the
    scoreboard), the scoreboard shows [Score: 0/0] and [Streak: 0] in
    every state, however many answers are graded, since [checkAnswer()]
    counts the answer and then throws in [setFeedback] before
    [updateScoreboard()]. *)
Theorem missing_feedback_board_frozen d st :
  e_feedback (mk_els d) = None ->
  present (e_next (mk_els d)) && present (e_submit (mk_els d)) && present (e_reveal (mk_els d)) &&
    present (e_form (mk_els d)) && present (e_score (mk_els d)) && present (e_streak (mk_els d)) = true ->
  reach d st -> board (page st.1) = board_of 0 0 0.
Proof.
  intros Hf Hp. induction 1 as [dpr f0 texts s r [sh' s'] _ Em|[sh s] ev r [sh' s'] _ IH Ed].
  - revert Em. unfold main, updateScoreboard_dom. generalize (mk_els d) Hf Hp. clear Hf Hp.
    intros [q [f|] fb so [sc|] [sk|] [n|] [su|] [re|] c] Hf Hp; cbn in Hp; try discriminate.
    destruct texts as [[? ?] ?]. script_red. intros Em.
    exact (initGraph_dom_board _ _ _ _ _ _ _ _ eq_refl Em).
  - destruct (dispatch_cases _ _ _ _ _ Ed) as [[_ [= -> ->]]|Er]; [exact IH|].
    exact (run_listener_board _ _ _ Hf _ _ _ _ _ IH Er).
Qed.

Lemma missing_score_no_graph_witness :
  let d := sample_document (List.remove string_dec "score" page_ids) (Some sample_canvas) in
  let st := final (dispatch (mk_els d) ENext) (loaded d) in
  (e_score (mk_els d) = None /\
   present (e_next (mk_els d)) && present (e_submit (mk_els d)) && present (e_reveal (mk_els d)) &&
     present (e_form (mk_els d)) = true /\ reach d st) /\
  (graph (page st.1) = None /\ wired st.1 = [LNext; LSubmit; LReveal; LKeydown]).
Proof.
  intros d st. assert (H1 : e_score (mk_els d) = None) by (vm_compute; reflexivity).
  assert (H2 : present (e_next (mk_els d)) && present (e_submit (mk_els d)) && present (e_reveal (mk_els d)) &&
     present (e_form (mk_els d)) = true) by (vm_compute; reflexivity).
  assert (H3 : reach d st) by (apply reach_next; [apply reach_loaded|]; vm_compute; discriminate).
  split; [split; [|split]; assumption|]. exact (missing_score_no_graph d st H1 H2 H3).
Defined.

Lemma missing_feedback_board_frozen_witness :
  let d := sample_document (List.remove string_dec "feedback" page_ids) None in
  let st := final (dispatch (mk_els d) ESubmit) (final (dispatch (mk_els d) ENext) (loaded d)) in
  (e_feedback (mk_els d) = None /\
   present (e_next (mk_els d)) && present (e_submit (mk_els d)) && present (e_reveal (mk_els d)) &&
     present (e_form (mk_els d)) && present (e_score (mk_els d)) && present (e_streak (mk_els d)) = true /\
   reach d st) /\
  (board (page st.1) = board_of 0 0 0 /\ total (page st.1) = 1%Z).
Proof.
  intros d st. assert (H1 : e_feedback (mk_els d) = None) by (vm_compute; reflexivity).
  assert (H2 : present (e_next (mk_els d)) && present (e_submit (mk_els d)) && present (e_reveal (mk_els d)) &&
     present (e_form (mk_els d)) && present (e_score (mk_els d)) && present (e_streak (mk_els d)) = true)
    by (vm_compute; reflexivity).
  assert (H3 : reach d st) by (repeat apply reach_next; [apply reach_loaded|..]; vm_compute; discriminate).
  split; [split; [|split]; assumption|]. split; [exact (missing_feedback_board_frozen d st H1 H2 H3)|].
  vm_compute. reflexivity.
Defined.
